(** * ModelUsage: the session-ingestion engine

    A shallow embedding of the session parser ([SessionParser], the TypeScript
    source of the Electron main process) and of its SQLite cache
    ([DatabaseManager], electron/database.js), with the properties the
    specification states about them.

    Conventions of the embedding.
    - A JSON document is a [json] tree.  JavaScript [undefined] is [None] in
      [option json].  JSON numbers are exact rationals ([Q]); the rounding of
      IEEE doubles is not modelled.
    - [SessionStats] keeps the field types its TypeScript interface declares
      ([number], [string | null]).  The events are untyped ([any]) in the
      source; a step that would store a value of another type (a string
      concatenated onto a counter, an object as model name, a NaN duration) has
      no image here: the parsers return [None] for such a file.  A run-time
      error caught by a [try]/[catch] of the source is modelled as the source
      handles it and is not a [None].
    - Node's built-ins ([JSON.parse], [Date], the [path] module) and the file
      system are the parameters [Runtime] and [FileSystem]. *)

From stdpp Require Import base option list gmap strings sorting.
From Stdlib Require Import QArith ZArith Ascii Lia Lqa.

Set Warnings "-register-all".

Open Scope string_scope.
Open Scope Z_scope.
Open Scope Q_scope.
Open Scope nat_scope.

(** ** JSON values and the JavaScript operators used on them *)

Inductive json : Type :=
| JNull
| JBool (b : bool)
| JNum (q : Q)
| JStr (s : string)
| JArr (items : list json)
| JObj (fields : list (string * json)).

(** An object is the list of its own properties, one entry per key. *)
Fixpoint assoc {A : Type} (k : string) (l : list (string * A)) : option A :=
  match l with
  | [] => None
  | (k', v) :: rest => if String.eqb k k' then Some v else assoc k rest
  end.

(** [v?.k]: reading one of the property names of the log formats.  None of
    them is a built-in property of a string, number, boolean or array, so on
    every value but an object the access yields [undefined]. *)
Definition prop (k : string) (v : option json) : option json :=
  match v with
  | Some (JObj fields) => assoc k fields
  | _ => None
  end.

(** [v == null]: a plain [v.k] raises a TypeError there. *)
Definition nullish (v : option json) : bool :=
  match v with
  | None | Some JNull => true
  | _ => false
  end.

(** ToBoolean. *)
Definition truthy (v : option json) : bool :=
  match v with
  | None | Some JNull => false
  | Some (JBool b) => b
  | Some (JNum q) => negb (Qeq_bool q 0)
  | Some (JStr s) => negb (String.eqb s "")
  | Some (JArr _) | Some (JObj _) => true
  end.

(** [a || b]. *)
Definition js_or (a b : option json) : option json :=
  if truthy a then a else b.

(** [v === 'literal']. *)
Definition str_is (v : option json) (s : string) : bool :=
  match v with
  | Some (JStr t) => String.eqb t s
  | _ => false
  end.

Definition Qgtb (a b : Q) : bool := negb (Qle_bool a b).

(** [acc += v] on a [number] field, for a truthy [v]: numbers add, [true]
    counts as 1, and a string, array or object would turn the field into a
    string (no image). *)
Definition plus_assign (acc : Q) (v : option json) : option Q :=
  match v with
  | Some (JNum q) => Some (acc + q)%Q
  | Some (JBool true) => Some (acc + 1)%Q
  | _ => None
  end.

(** [if (v) acc += v]. *)
Definition add_if_truthy (acc : Q) (v : option json) : option Q :=
  if truthy v then plus_assign acc v else Some acc.

(** [acc += v || 0]. *)
Definition add_or_zero (acc : Q) (v : option json) : option Q :=
  plus_assign acc (js_or v (Some (JNum 0))).

(** A truthy value stored in a [string | null] field. *)
Definition as_string (v : option json) : option string :=
  match v with
  | Some (JStr s) => Some s
  | _ => None
  end.

(** A value stored in a [number] variable. *)
Definition as_number (v : option json) : option Q :=
  match v with
  | Some (JNum q) => Some q
  | _ => None
  end.

(** ** Strings *)

Definition startsWith (s p : string) : bool := String.prefix p s.

Fixpoint includes (s p : string) : bool :=
  String.prefix p s ||
  match s with
  | EmptyString => false
  | String _ rest => includes rest p
  end.

Definition endsWith (s p : string) : bool :=
  let n := String.length s in
  let m := String.length p in
  (m <=? n) && String.eqb (String.substring (n - m) m s) p.

(** [s.split(sep)] for a one-character separator. *)
Fixpoint split (sep : ascii) (s : string) : list string :=
  match s with
  | EmptyString => [EmptyString]
  | String c rest =>
      if Ascii.eqb c sep then EmptyString :: split sep rest
      else match split sep rest with
           | [] => [String c EmptyString]
           | w :: ws => String c w :: ws
           end
  end.

Definition nonempty (s : string) : bool := negb (String.eqb s "").

(** [parts.slice(-2).join('/')]. *)
Definition last_two (parts : list string) : string :=
  String.concat "/" (drop (length parts - 2) parts).

(** [s.replace(/-/g, '/')]. *)
Fixpoint dashes_to_slashes (s : string) : string :=
  match s with
  | EmptyString => EmptyString
  | String c rest =>
      String (if Ascii.eqb c "-" then "/"%char else c) (dashes_to_slashes rest)
  end.

(** [!l.trim()]: the line holds only white space and line terminators
    (ECMAScript's WhiteSpace and LineTerminator, over the UTF-8 bytes). *)
Definition ws1 (c : ascii) : bool :=
  let n := nat_of_ascii c in
  ((9 <=? n) && (n <=? 13)) || (n =? 32).

Definition byte_is (n : nat) (c : ascii) : bool := nat_of_ascii c =? n.

Fixpoint blank (s : string) : bool :=
  match s with
  | EmptyString => true
  | String c1 r1 =>
      if ws1 c1 then blank r1
      else
        match r1 with
        | EmptyString => false
        | String c2 r2 =>
            if byte_is 194 c1 && byte_is 160 c2 then blank r2
            else
              match r2 with
              | EmptyString => false
              | String c3 r3 =>
                  if (byte_is 225 c1 && byte_is 154 c2 && byte_is 128 c3)
                     || (byte_is 226 c1 && byte_is 128 c2
                         && (let n := nat_of_ascii c3 in
                             ((128 <=? n) && (n <=? 138)) || (n =? 168)
                             || (n =? 169) || (n =? 175)))
                     || (byte_is 226 c1 && byte_is 129 c2 && byte_is 159 c3)
                     || (byte_is 227 c1 && byte_is 128 c2 && byte_is 128 c3)
                     || (byte_is 239 c1 && byte_is 187 c2 && byte_is 191 c3)
                  then blank r3
                  else false
              end
        end
  end.

(** ** Types of the parser *)

Inductive Provider : Type := claude | codex | gemini.

Definition provider_name (p : Provider) : string :=
  match p with
  | claude => "claude"
  | codex => "codex"
  | gemini => "gemini"
  end.

Definition Provider_eqb (p q : Provider) : bool :=
  match p, q with
  | claude, claude | codex, codex | gemini, gemini => true
  | _, _ => false
  end.

Record ModelPricing : Type := { input : Q; output : Q }.

(** [interface SessionStats].  An optional field that is absent is [None];
    so is a [null]. *)
Record SessionStats : Type := {
  path : string;
  provider : Provider;
  sessionId : string;
  project : option string;
  messages : nat;
  userMessages : nat;
  assistantMessages : nat;
  toolUses : option nat;
  inputTokens : Q;
  outputTokens : Q;
  cacheReadTokens : option Q;
  cacheCreationTokens : option Q;
  costUsd : Q;
  model : option string;
  firstMessage : option string;
  lastMessage : option string;
  duration : Z;
}.

Definition set_project (v : option string) (s : SessionStats) : SessionStats :=
  {| path := path s; provider := provider s; sessionId := sessionId s;
     project := v; messages := messages s; userMessages := userMessages s;
     assistantMessages := assistantMessages s; toolUses := toolUses s;
     inputTokens := inputTokens s; outputTokens := outputTokens s;
     cacheReadTokens := cacheReadTokens s;
     cacheCreationTokens := cacheCreationTokens s; costUsd := costUsd s;
     model := model s; firstMessage := firstMessage s;
     lastMessage := lastMessage s; duration := duration s |}.

Definition set_messages (v : nat) (s : SessionStats) : SessionStats :=
  {| path := path s; provider := provider s; sessionId := sessionId s;
     project := project s; messages := v; userMessages := userMessages s;
     assistantMessages := assistantMessages s; toolUses := toolUses s;
     inputTokens := inputTokens s; outputTokens := outputTokens s;
     cacheReadTokens := cacheReadTokens s;
     cacheCreationTokens := cacheCreationTokens s; costUsd := costUsd s;
     model := model s; firstMessage := firstMessage s;
     lastMessage := lastMessage s; duration := duration s |}.

Definition set_userMessages (v : nat) (s : SessionStats) : SessionStats :=
  {| path := path s; provider := provider s; sessionId := sessionId s;
     project := project s; messages := messages s; userMessages := v;
     assistantMessages := assistantMessages s; toolUses := toolUses s;
     inputTokens := inputTokens s; outputTokens := outputTokens s;
     cacheReadTokens := cacheReadTokens s;
     cacheCreationTokens := cacheCreationTokens s; costUsd := costUsd s;
     model := model s; firstMessage := firstMessage s;
     lastMessage := lastMessage s; duration := duration s |}.

Definition set_assistantMessages (v : nat) (s : SessionStats) : SessionStats :=
  {| path := path s; provider := provider s; sessionId := sessionId s;
     project := project s; messages := messages s;
     userMessages := userMessages s; assistantMessages := v;
     toolUses := toolUses s;
     inputTokens := inputTokens s; outputTokens := outputTokens s;
     cacheReadTokens := cacheReadTokens s;
     cacheCreationTokens := cacheCreationTokens s; costUsd := costUsd s;
     model := model s; firstMessage := firstMessage s;
     lastMessage := lastMessage s; duration := duration s |}.

Definition set_toolUses (v : option nat) (s : SessionStats) : SessionStats :=
  {| path := path s; provider := provider s; sessionId := sessionId s;
     project := project s; messages := messages s;
     userMessages := userMessages s;
     assistantMessages := assistantMessages s; toolUses := v;
     inputTokens := inputTokens s; outputTokens := outputTokens s;
     cacheReadTokens := cacheReadTokens s;
     cacheCreationTokens := cacheCreationTokens s; costUsd := costUsd s;
     model := model s; firstMessage := firstMessage s;
     lastMessage := lastMessage s; duration := duration s |}.

Definition set_inputTokens (v : Q) (s : SessionStats) : SessionStats :=
  {| path := path s; provider := provider s; sessionId := sessionId s;
     project := project s; messages := messages s;
     userMessages := userMessages s;
     assistantMessages := assistantMessages s; toolUses := toolUses s;
     inputTokens := v; outputTokens := outputTokens s;
     cacheReadTokens := cacheReadTokens s;
     cacheCreationTokens := cacheCreationTokens s; costUsd := costUsd s;
     model := model s; firstMessage := firstMessage s;
     lastMessage := lastMessage s; duration := duration s |}.

Definition set_outputTokens (v : Q) (s : SessionStats) : SessionStats :=
  {| path := path s; provider := provider s; sessionId := sessionId s;
     project := project s; messages := messages s;
     userMessages := userMessages s;
     assistantMessages := assistantMessages s; toolUses := toolUses s;
     inputTokens := inputTokens s; outputTokens := v;
     cacheReadTokens := cacheReadTokens s;
     cacheCreationTokens := cacheCreationTokens s; costUsd := costUsd s;
     model := model s; firstMessage := firstMessage s;
     lastMessage := lastMessage s; duration := duration s |}.

Definition set_cacheReadTokens (v : option Q) (s : SessionStats)
  : SessionStats :=
  {| path := path s; provider := provider s; sessionId := sessionId s;
     project := project s; messages := messages s;
     userMessages := userMessages s;
     assistantMessages := assistantMessages s; toolUses := toolUses s;
     inputTokens := inputTokens s; outputTokens := outputTokens s;
     cacheReadTokens := v;
     cacheCreationTokens := cacheCreationTokens s; costUsd := costUsd s;
     model := model s; firstMessage := firstMessage s;
     lastMessage := lastMessage s; duration := duration s |}.

Definition set_cacheCreationTokens (v : option Q) (s : SessionStats)
  : SessionStats :=
  {| path := path s; provider := provider s; sessionId := sessionId s;
     project := project s; messages := messages s;
     userMessages := userMessages s;
     assistantMessages := assistantMessages s; toolUses := toolUses s;
     inputTokens := inputTokens s; outputTokens := outputTokens s;
     cacheReadTokens := cacheReadTokens s;
     cacheCreationTokens := v; costUsd := costUsd s;
     model := model s; firstMessage := firstMessage s;
     lastMessage := lastMessage s; duration := duration s |}.

Definition set_costUsd (v : Q) (s : SessionStats) : SessionStats :=
  {| path := path s; provider := provider s; sessionId := sessionId s;
     project := project s; messages := messages s;
     userMessages := userMessages s;
     assistantMessages := assistantMessages s; toolUses := toolUses s;
     inputTokens := inputTokens s; outputTokens := outputTokens s;
     cacheReadTokens := cacheReadTokens s;
     cacheCreationTokens := cacheCreationTokens s; costUsd := v;
     model := model s; firstMessage := firstMessage s;
     lastMessage := lastMessage s; duration := duration s |}.

Definition set_model (v : option string) (s : SessionStats) : SessionStats :=
  {| path := path s; provider := provider s; sessionId := sessionId s;
     project := project s; messages := messages s;
     userMessages := userMessages s;
     assistantMessages := assistantMessages s; toolUses := toolUses s;
     inputTokens := inputTokens s; outputTokens := outputTokens s;
     cacheReadTokens := cacheReadTokens s;
     cacheCreationTokens := cacheCreationTokens s; costUsd := costUsd s;
     model := v; firstMessage := firstMessage s;
     lastMessage := lastMessage s; duration := duration s |}.

Definition set_firstMessage (v : option string) (s : SessionStats)
  : SessionStats :=
  {| path := path s; provider := provider s; sessionId := sessionId s;
     project := project s; messages := messages s;
     userMessages := userMessages s;
     assistantMessages := assistantMessages s; toolUses := toolUses s;
     inputTokens := inputTokens s; outputTokens := outputTokens s;
     cacheReadTokens := cacheReadTokens s;
     cacheCreationTokens := cacheCreationTokens s; costUsd := costUsd s;
     model := model s; firstMessage := v;
     lastMessage := lastMessage s; duration := duration s |}.

Definition set_lastMessage (v : option string) (s : SessionStats)
  : SessionStats :=
  {| path := path s; provider := provider s; sessionId := sessionId s;
     project := project s; messages := messages s;
     userMessages := userMessages s;
     assistantMessages := assistantMessages s; toolUses := toolUses s;
     inputTokens := inputTokens s; outputTokens := outputTokens s;
     cacheReadTokens := cacheReadTokens s;
     cacheCreationTokens := cacheCreationTokens s; costUsd := costUsd s;
     model := model s; firstMessage := firstMessage s;
     lastMessage := v; duration := duration s |}.

Definition set_duration (v : Z) (s : SessionStats) : SessionStats :=
  {| path := path s; provider := provider s; sessionId := sessionId s;
     project := project s; messages := messages s;
     userMessages := userMessages s;
     assistantMessages := assistantMessages s; toolUses := toolUses s;
     inputTokens := inputTokens s; outputTokens := outputTokens s;
     cacheReadTokens := cacheReadTokens s;
     cacheCreationTokens := cacheCreationTokens s; costUsd := costUsd s;
     model := model s; firstMessage := firstMessage s;
     lastMessage := lastMessage s; duration := v |}.

(** [stats.messages++] and its siblings. *)
Definition inc_messages (s : SessionStats) : SessionStats :=
  set_messages (S (messages s)) s.
Definition inc_userMessages (s : SessionStats) : SessionStats :=
  set_userMessages (S (userMessages s)) s.
Definition inc_assistantMessages (s : SessionStats) : SessionStats :=
  set_assistantMessages (S (assistantMessages s)) s.
Definition inc_toolUses (s : SessionStats) : SessionStats :=
  set_toolUses (S <$> toolUses s) s.

(** [!stats.firstMessage] and the like: [null] and the empty string are
    falsy. *)
Definition present (v : option string) : bool :=
  match v with
  | Some s => nonempty s
  | None => false
  end.

(** ** The environment *)

(** What the parser takes from Node: [JSON.parse] ([None] for a SyntaxError),
    [new Date(s).getTime()] ([None] for NaN), the [path] module, and the
    constant [SESSION_DIRS], built from [os.homedir()]. *)
Class Runtime : Type := {
  JSON_parse : string -> option json;
  Date_getTime : string -> option Z;
  path_sep : ascii;
  path_basename : string -> string -> string;
  path_dirname : string -> string;
  path_extname : string -> string;
  path_relative : string -> string -> string;
  SESSION_DIRS : Provider -> string;
}.

(** The file system as the parser observes it: a failed call ([None]) is an
    exception of the [fs] function.  [readLines] is what [readline] delivers
    over [fs.createReadStream]; [sessionFiles] is the list [findSessionFiles]
    resolves to for an existing directory (the recursive walk and its sort by
    modification time are not part of this development).  [statSync] gives
    [mtime.getTime()] and [size]. *)
Record FileSystem : Type := {
  existsSync : string -> bool;
  statSync : string -> option (Z * Z);
  readFileSync : string -> option string;
  readLines : string -> option (list string);
  sessionFiles : string -> list string;
}.

(** ** Pricing *)

(** [PRICING], in the order of the object literal ([Object.keys] follows
    it). *)
Definition PRICING : list (string * ModelPricing) :=
  [ ("claude-sonnet-4-20250514", {| input := 3.0; output := 15.0 |});
    ("claude-3-5-sonnet-20241022", {| input := 3.0; output := 15.0 |});
    ("claude-3-5-sonnet-20240620", {| input := 3.0; output := 15.0 |});
    ("claude-3-opus-20240229", {| input := 15.0; output := 75.0 |});
    ("claude-3-haiku-20240307", {| input := 0.25; output := 1.25 |});
    ("claude-opus-4-20250514", {| input := 15.0; output := 75.0 |});
    ("gpt-4o", {| input := 2.5; output := 10.0 |});
    ("gpt-4o-mini", {| input := 0.15; output := 0.6 |});
    ("gpt-4-turbo", {| input := 10.0; output := 30.0 |});
    ("o1", {| input := 15.0; output := 60.0 |});
    ("o1-mini", {| input := 1.1; output := 4.4 |});
    ("o3-mini", {| input := 1.1; output := 4.4 |});
    ("gemini-2.0-flash", {| input := 0.1; output := 0.4 |});
    ("gemini-1.5-pro", {| input := 1.25; output := 5.0 |});
    ("gemini-1.5-flash", {| input := 0.075; output := 0.3 |});
    ("default", {| input := 3.0; output := 15.0 |}) ].

(** The properties [PRICING] inherits from [Object.prototype]: [PRICING[m]]
    is truthy for them and is no [ModelPricing]. *)
Definition inherited_names : list string :=
  [ "constructor"; "__defineGetter__"; "__defineSetter__"; "hasOwnProperty";
    "__lookupGetter__"; "__lookupSetter__"; "isPrototypeOf";
    "propertyIsEnumerable"; "toString"; "valueOf"; "__proto__";
    "toLocaleString" ].

(** [getModelPricing].  [None]: the value returned is no [ModelPricing]. *)
Definition getModelPricing (model : option string) : option ModelPricing :=
  if negb (present model) then assoc "default" PRICING
  else
    let m := default "" model in
    match assoc m PRICING with
    | Some p => Some p
    | None =>
        if existsb (String.eqb m) inherited_names then None
        else
          match find (fun kv => startsWith m (fst kv) || includes m (fst kv))
                     PRICING with
          | Some kv => Some (snd kv)
          | None =>
              if includes m "opus" then assoc "claude-3-opus-20240229" PRICING
              else if includes m "sonnet"
                   then assoc "claude-3-5-sonnet-20241022" PRICING
              else if includes m "haiku"
                   then assoc "claude-3-haiku-20240307" PRICING
              else if includes m "gpt-4o-mini" then assoc "gpt-4o-mini" PRICING
              else if includes m "gpt-4o" then assoc "gpt-4o" PRICING
              else if includes m "gemini"
                   then assoc "gemini-2.0-flash" PRICING
              else assoc "default" PRICING
          end
    end.

(** [calculateCost]. *)
Definition calculateCost (inputTokens outputTokens : Q) (model : option string)
  : option Q :=
  pricing ← getModelPricing model;
  let inputCost := (inputTokens / 1000000 * input pricing)%Q in
  let outputCost := (outputTokens / 1000000 * output pricing)%Q in
  Some (inputCost + outputCost)%Q.

(** A loop whose body may leave the typed fragment. *)
Fixpoint foldM {A B : Type} (f : B -> A -> option B) (l : list A) (acc : B)
  : option B :=
  match l with
  | [] => Some acc
  | x :: rest => acc' ← f acc x; foldM f rest acc'
  end.

(** ** The format parsers *)

Section Parsers.
Context {rt : Runtime} (fs : FileSystem).

(** [extractClaudeProjectName]. *)
Definition extractClaudeProjectName (filePath baseDir : string) : string :=
  let relativePath := path_relative baseDir filePath in
  match split path_sep relativePath with
  | encoded :: _ =>
      if startsWith encoded "-" then
        let decoded := dashes_to_slashes encoded in
        let decodedParts := filter (fun p => nonempty p = true)
                                   (split "/" decoded) in
        if 2 <=? length decodedParts then last_two decodedParts
        else default encoded (last decodedParts)
      else encoded
  | [] => "Unknown"
  end.

(** [extractProjectFromPath]. *)
Definition extractProjectFromPath (cwdPath : string) : string :=
  let parts := filter (fun p => nonempty p = true) (split path_sep cwdPath) in
  if 2 <=? length parts then last_two parts
  else default "Unknown" (last parts).

(** The role test of the Claude and Codex loops:
    [if (a) stats.userMessages++ else if (b) stats.assistantMessages++]. *)
Definition count_role (isUser isAssistant : bool) (stats : SessionStats)
  : SessionStats :=
  if isUser then inc_userMessages stats
  else if isAssistant then inc_assistantMessages stats
  else stats.

(** [if (ts) { if (!stats.firstMessage) stats.firstMessage = ts;
              stats.lastMessage = ts }]. *)
Definition track_timestamp (ts : option json) (stats : SessionStats)
  : option SessionStats :=
  if truthy ts then
    t ← as_string ts;
    let stats := if present (firstMessage stats) then stats
                 else set_firstMessage (Some t) stats in
    Some (set_lastMessage (Some t) stats)
  else Some stats.

(** [if (model) stats.model = model]. *)
Definition track_model (m : option json) (stats : SessionStats)
  : option SessionStats :=
  if truthy m then
    name ← as_string m;
    Some (set_model (Some name) stats)
  else Some stats.

(** [stats.toolUses!++]. *)
Definition inc_toolUses_checked (stats : SessionStats) : option SessionStats :=
  n ← toolUses stats;
  Some (set_toolUses (Some (S n)) stats).

(** [if (v) stats.cacheReadTokens! += v]. *)
Definition add_cache (acc : option Q) (v : option json) : option (option Q) :=
  if truthy v then
    a ← acc;
    r ← plus_assign a v;
    Some (Some r)
  else Some acc.

(** [content.some((c) => c.type === 'tool_use')].  [None]: the callback
    raised a TypeError on a [null] entry. *)
Fixpoint some_tool_use (content : list json) : option bool :=
  match content with
  | [] => Some false
  | c :: rest =>
      if nullish (Some c) then None
      else if str_is (prop "type" (Some c)) "tool_use" then Some true
      else some_tool_use rest
  end.

(** The tool-use test of [parseClaudeSession].  [None]: it raised. *)
Definition claude_tool_use (ev : option json) : option bool :=
  if str_is (prop "type" ev) "tool_use" then Some true
  else if truthy (prop "tool_use" ev) then Some true
  else
    match prop "content" (prop "message" ev) with
    | Some (JArr content) => some_tool_use content
    | _ => Some false
    end.

(** [event.message?.usage || event.usage || {}]. *)
Definition claude_usage (ev : option json) : option json :=
  js_or (js_or (prop "usage" (prop "message" ev)) (prop "usage" ev))
        (Some (JObj [])).

(** The statements of the Claude loop that follow the tool-use test. *)
Definition claude_accumulate (ev : option json) (stats : SessionStats)
  : option SessionStats :=
  let usage := claude_usage ev in
  i ← add_if_truthy (inputTokens stats) (prop "input_tokens" usage);
  let stats := set_inputTokens i stats in
  o ← add_if_truthy (outputTokens stats) (prop "output_tokens" usage);
  let stats := set_outputTokens o stats in
  cr ← add_cache (cacheReadTokens stats) (prop "cache_read_input_tokens" usage);
  let stats := set_cacheReadTokens cr stats in
  cc ← add_cache (cacheCreationTokens stats)
                 (prop "cache_creation_input_tokens" usage);
  let stats := set_cacheCreationTokens cc stats in
  c ← add_if_truthy (costUsd stats) (prop "costUsd" ev);
  let stats := set_costUsd c stats in
  stats ← track_timestamp (js_or (prop "timestamp" ev) (prop "ts" ev)) stats;
  track_model (js_or (prop "model" (prop "message" ev)) (prop "model" ev)) stats.

(** The role test of the Claude loop. *)
Definition claude_roles (ev : option json) (stats : SessionStats)
  : SessionStats :=
  let eventType := js_or (prop "type" ev) (Some (JStr "")) in
  let messageRole :=
    js_or (js_or (prop "role" (prop "message" ev)) (prop "role" ev))
          (Some (JStr "")) in
  count_role (str_is eventType "user" || str_is messageRole "user")
             (str_is eventType "assistant" || str_is messageRole "assistant")
             stats.

(** The body of the inner [try] of [parseClaudeSession], after
    [JSON.parse].  A TypeError ends the body; the [catch] keeps what the
    statements before it did. *)
Definition claudeEvent (stats : SessionStats) (event : json)
  : option SessionStats :=
  let ev := Some event in
  let stats := inc_messages stats in
  if nullish ev then Some stats
  else
    let stats := claude_roles ev stats in
    match claude_tool_use ev with
    | None => Some stats
    | Some tool =>
        stats ← (if tool then inc_toolUses_checked stats else Some stats);
        claude_accumulate ev stats
    end.

Definition claudeLine (stats : SessionStats) (line : string)
  : option SessionStats :=
  if blank line then Some stats
  else
    match JSON_parse line with
    | None => Some stats
    | Some event => claudeEvent stats event
    end.

(** [if (stats.inputTokens > 0 || stats.outputTokens > 0)
      stats.costUsd = this.calculateCost(...)], guarded by [guard]. *)
Definition price_tokens (guard : bool) (stats : SessionStats)
  : option SessionStats :=
  if guard && (Qgtb (inputTokens stats) 0 || Qgtb (outputTokens stats) 0) then
    c ← calculateCost (inputTokens stats) (outputTokens stats) (model stats);
    Some (set_costUsd c stats)
  else Some stats.

(** The duration step of [parseClaudeSession]. *)
Definition compute_duration (stats : SessionStats) : option SessionStats :=
  if present (firstMessage stats) && present (lastMessage stats) then
    start ← Date_getTime (default "" (firstMessage stats));
    end_ ← Date_getTime (default "" (lastMessage stats));
    Some (set_duration (Z.max 0 (end_ - start)) stats)
  else Some stats.

Definition claude_initial (filePath : string) : SessionStats :=
  {| path := filePath; provider := claude;
     sessionId := path_basename (path_dirname filePath) "";
     project := Some (extractClaudeProjectName filePath (SESSION_DIRS claude));
     messages := 0; userMessages := 0; assistantMessages := 0;
     toolUses := Some 0; inputTokens := 0; outputTokens := 0;
     cacheReadTokens := Some 0%Q; cacheCreationTokens := Some 0%Q;
     costUsd := 0; model := None; firstMessage := None; lastMessage := None;
     duration := 0 |}.

(** [parseClaudeSession].  A stream that cannot be read leaves the initial
    record (the outer [catch]). *)
Definition parseClaudeSession (filePath : string) : option SessionStats :=
  let stats := claude_initial filePath in
  match readLines fs filePath with
  | None => Some stats
  | Some lines =>
      stats ← foldM claudeLine lines stats;
      stats ← price_tokens (Qeq_bool (costUsd stats) 0) stats;
      compute_duration stats
  end.

(** The state of the Codex loop: [stats], [lastTotalInput],
    [lastTotalOutput]. *)
Record CodexLoop : Type := {
  cl_stats : SessionStats;
  lastTotalInput : Q;
  lastTotalOutput : Q;
}.

(** [if (event.type === 'session_meta' && event.payload?.cwd)
      stats.project = this.extractProjectFromPath(event.payload.cwd)].
    [None]: [cwd.split] is not a function (a TypeError). *)
Definition codex_project (ev : option json) (stats : SessionStats)
  : option SessionStats :=
  let cwd := prop "cwd" (prop "payload" ev) in
  if str_is (prop "type" ev) "session_meta" && truthy cwd then
    match cwd with
    | Some (JStr s) => Some (set_project (Some (extractProjectFromPath s)) stats)
    | _ => None
    end
  else Some stats.

(** The payload is a token_count event that carries running totals. *)
Definition is_token_count (ev : option json) : bool :=
  let payload := prop "payload" ev in
  str_is (prop "type" ev) "event_msg" && truthy payload
  && str_is (prop "type" payload) "token_count"
  && truthy (prop "total_token_usage" (prop "info" payload)).

Definition total_token_usage (ev : option json) : option json :=
  prop "total_token_usage" (prop "info" (prop "payload" ev)).

(** The two role tests of the Codex loop: on a message payload, and on
    an event_msg. *)
Definition codex_roles (ev : option json) (stats : SessionStats)
  : SessionStats :=
  let payload := prop "payload" ev in
  let stats :=
    if str_is (prop "type" payload) "message" then
      count_role (str_is (prop "role" payload) "user")
                 (str_is (prop "role" payload) "assistant") stats
    else stats in
  if str_is (prop "type" ev) "event_msg" && truthy payload then
    count_role (str_is (prop "type" payload) "user_message")
               (str_is (prop "type" payload) "agent_message") stats
  else stats.

(** [lastTotalInput = usage.input_tokens || 0] and its sibling, on a
    token_count event. *)
Definition codex_totals (ev : option json) (st : CodexLoop) : option (Q * Q) :=
  if is_token_count ev then
    let usage := total_token_usage ev in
    i ← as_number (js_or (prop "input_tokens" usage) (Some (JNum 0)));
    o ← as_number (js_or (prop "output_tokens" usage) (Some (JNum 0)));
    Some (i, o)
  else Some (lastTotalInput st, lastTotalOutput st).

(** [if (event.type === 'turn_context' && payload?.model)
      stats.model = payload.model]. *)
Definition codex_model (ev : option json) (stats : SessionStats)
  : option SessionStats :=
  let payload := prop "payload" ev in
  if str_is (prop "type" ev) "turn_context" && truthy (prop "model" payload)
  then name ← as_string (prop "model" payload);
       Some (set_model (Some name) stats)
  else Some stats.

(** The statements of the Codex loop that follow the project step. *)
Definition codex_accumulate (ev : option json) (st : CodexLoop)
  : option CodexLoop :=
  let stats := codex_roles ev (cl_stats st) in
  totals ← codex_totals ev st;
  stats ← codex_model ev stats;
  stats ←
    track_timestamp (js_or (prop "timestamp" ev) (prop "created_at" ev)) stats;
  Some {| cl_stats := stats; lastTotalInput := fst totals;
          lastTotalOutput := snd totals |}.

(** The body of the inner [try] of the Codex loop, after [JSON.parse]. *)
Definition codexEvent (st : CodexLoop) (event : json) : option CodexLoop :=
  let ev := Some event in
  let stats := inc_messages (cl_stats st) in
  let st := {| cl_stats := stats; lastTotalInput := lastTotalInput st;
               lastTotalOutput := lastTotalOutput st |} in
  if nullish ev then Some st
  else
    match codex_project ev stats with
    | None => Some st
    | Some stats =>
        codex_accumulate ev {| cl_stats := stats;
                               lastTotalInput := lastTotalInput st;
                               lastTotalOutput := lastTotalOutput st |}
    end.

Definition codexLine (st : CodexLoop) (line : string) : option CodexLoop :=
  match JSON_parse line with
  | None => Some st
  | Some event => codexEvent st event
  end.

(** [content.split('\n').filter((l) => l.trim())]. *)
Definition content_lines (content : string) : list string :=
  filter (fun l => blank l = false) (split "010" content).

(** [for (const msg of data) { if (msg.role === 'user') ... }].  The flag
    tells that [msg.role] raised on a [null] element: the loop stops there
    and the outer [catch] takes over. *)
Fixpoint codexArray (data : list json) (stats : SessionStats)
  : SessionStats * bool :=
  match data with
  | [] => (stats, false)
  | msg :: rest =>
      if nullish (Some msg) then (stats, true)
      else codexArray rest
             (count_role (str_is (prop "role" (Some msg)) "user")
                         (str_is (prop "role" (Some msg)) "assistant") stats)
  end.

Definition codex_initial (filePath : string) : SessionStats :=
  {| path := filePath; provider := codex;
     sessionId := path_basename filePath (path_extname filePath);
     project := None;
     messages := 0; userMessages := 0; assistantMessages := 0;
     toolUses := Some 0; inputTokens := 0; outputTokens := 0;
     cacheReadTokens := None; cacheCreationTokens := None;
     costUsd := 0; model := None; firstMessage := None; lastMessage := None;
     duration := 0 |}.

(** [parseCodexSession]. *)
Definition parseCodexSession (filePath : string) : option SessionStats :=
  let stats := codex_initial filePath in
  match readFileSync fs filePath with
  | None => Some stats
  | Some content =>
      if endsWith filePath ".jsonl" then
        st ← foldM codexLine (content_lines content)
                   {| cl_stats := stats; lastTotalInput := 0;
                      lastTotalOutput := 0 |};
        let stats := set_inputTokens (lastTotalInput st) (cl_stats st) in
        let stats := set_outputTokens (lastTotalOutput st) stats in
        price_tokens true stats
      else
        match JSON_parse content with
        | None => Some stats
        | Some (JArr data) =>
            let stats := set_messages (length data) stats in
            match codexArray data stats with
            | (stats, true) => Some stats
            | (stats, false) => price_tokens true stats
            end
        | Some _ => price_tokens true stats
        end
  end.

(** The body of the inner [try] of the Gemini loop, after [JSON.parse]. *)
Definition geminiEvent (stats : SessionStats) (event : json)
  : option SessionStats :=
  let ev := Some event in
  let stats := inc_messages stats in
  if nullish ev then Some stats
  else
    let stats := count_role (str_is (prop "role" ev) "user")
                            (str_is (prop "role" ev) "model") stats in
    let usageMetadata := prop "usageMetadata" ev in
    stats ←
      (if truthy usageMetadata then
         i ← add_or_zero (inputTokens stats)
                         (prop "promptTokenCount" usageMetadata);
         o ← add_or_zero (outputTokens stats)
                         (prop "candidatesTokenCount" usageMetadata);
         Some (set_outputTokens o (set_inputTokens i stats))
       else Some stats);
    track_model (prop "model" ev) stats.

Definition geminiLine (stats : SessionStats) (line : string)
  : option SessionStats :=
  match JSON_parse line with
  | None => Some stats
  | Some event => geminiEvent stats event
  end.

Definition gemini_initial (filePath : string) : SessionStats :=
  {| path := filePath; provider := gemini;
     sessionId := path_basename filePath (path_extname filePath);
     project := None;
     messages := 0; userMessages := 0; assistantMessages := 0;
     toolUses := None; inputTokens := 0; outputTokens := 0;
     cacheReadTokens := None; cacheCreationTokens := None;
     costUsd := 0; model := Some "gemini-2.0-flash";
     firstMessage := None; lastMessage := None; duration := 0 |}.

(** [parseGeminiSession]. *)
Definition parseGeminiSession (filePath : string) : option SessionStats :=
  let stats := gemini_initial filePath in
  match readFileSync fs filePath with
  | None => Some stats
  | Some content =>
      stats ← foldM geminiLine (content_lines content) stats;
      price_tokens true stats
  end.

(** The [switch (provider)] of [syncProvider]. *)
Definition parseSession (p : Provider) (filePath : string)
  : option SessionStats :=
  match p with
  | claude => parseClaudeSession filePath
  | codex => parseCodexSession filePath
  | gemini => parseGeminiSession filePath
  end.

End Parsers.

(** ** Sorting

    [Array.prototype.sort] and SQL's [ORDER BY] are stable here: [cmp a b <= 0]
    keeps [a] before [b].  For a comparator that is a total preorder every
    stable sort returns this list; for another one (a NaN difference counts
    as 0) the order is the implementation's, and this is one of them.  SQL
    leaves the order of rows with equal keys open: here they stay in rowid
    order. *)

Section Sort.
Context {A : Type} (cmp : A -> A -> Z).

Fixpoint insert_by (x : A) (l : list A) : list A :=
  match l with
  | [] => [x]
  | y :: rest => if (cmp x y <=? 0)%Z then x :: l else y :: insert_by x rest
  end.

Definition sort_by (l : list A) : list A := foldr insert_by [] l.

End Sort.

(** ** The persistent store (electron/database.js)

    The manager is modelled once [getDatabase()] has resolved: [this.db] is
    open, so the [if (!this.db) return] guards do not fire.  A table is the
    list of its rows in rowid order; [saveToFile] (the export of the whole
    database to disk after a write) changes nothing that the queries read and
    is left out, and so is the settings table. *)

Module Db.

Record FileRecord : Type := {
  file_path : string;
  file_provider : Provider;
  file_mtime : Z;
  file_size : Z;
  last_parsed : Z;
}.

Record Database : Type := {
  files : list FileRecord;
  sessions : list SessionStats;
}.

Definition or_zero (q : Q) : Q := if Qeq_bool q 0 then 0%Q else q.

(** The row [upsertSession] binds: [project || null], [toolUses || 0],
    [cacheReadTokens || 0], [cacheCreationTokens || 0]. *)
Definition session_row (session : SessionStats) : SessionStats :=
  set_project (if present (project session) then project session else None)
    (set_toolUses (Some (default 0 (toolUses session)))
       (set_cacheReadTokens
          (Some (or_zero (default 0%Q (cacheReadTokens session))))
          (set_cacheCreationTokens
             (Some (or_zero (default 0%Q (cacheCreationTokens session))))
             session))).

Definition getFileRecord (db : Database) (filePath : string)
  : option FileRecord :=
  find (fun r => String.eqb (file_path r) filePath) (files db).

Definition needsUpdate (db : Database) (filePath : string)
    (currentMtime currentSize : Z) : bool :=
  match getFileRecord db filePath with
  | None => true
  | Some record =>
      negb (file_mtime record =? currentMtime)%Z
      || negb (file_size record =? currentSize)%Z
  end.

Definition getTrackedFiles (db : Database) (p : Provider) : list string :=
  file_path <$> filter (fun r => Provider_eqb (file_provider r) p = true)
                        (files db).

Definition upsertSession (db : Database) (session : SessionStats) : Database :=
  let here (r : SessionStats) := String.eqb (path r) (path session) in
  {| files := files db;
     sessions :=
       if existsb here (sessions db)
       then (fun r => if here r then session_row session else r)
              <$> sessions db
       else sessions db ++ [session_row session] |}.

Definition upsertFileRecord (db : Database) (filePath : string) (p : Provider)
    (mtime size now : Z) : Database :=
  let here (r : FileRecord) := String.eqb (file_path r) filePath in
  {| files :=
       if existsb here (files db)
       then (fun r => if here r
                      then {| file_path := file_path r;
                              file_provider := file_provider r;
                              file_mtime := mtime; file_size := size;
                              last_parsed := now |}
                      else r) <$> files db
       else files db ++ [ {| file_path := filePath; file_provider := p;
                             file_mtime := mtime; file_size := size;
                             last_parsed := now |} ];
     sessions := sessions db |}.

(** [DELETE FROM files WHERE path = ?; DELETE FROM sessions WHERE path = ?]. *)
Definition deleteFile (db : Database) (filePath : string) : Database :=
  {| files := filter (fun r => String.eqb (file_path r) filePath = false)
                     (files db);
     sessions := filter (fun r => String.eqb (path r) filePath = false)
                        (sessions db) |}.

(** The loop of [cleanupDeletedFiles] over the tracked paths. *)
Definition cleanup_loop (existingFiles : gset string) (acc : nat * Database)
    (trackedFiles : list string) : nat * Database :=
  foldl (fun acc filePath =>
           if bool_decide (filePath ∈ existingFiles) then acc
           else (S (fst acc), deleteFile (snd acc) filePath))
        acc trackedFiles.

Definition cleanupDeletedFiles (db : Database) (p : Provider)
    (existingFiles : gset string) : nat * Database :=
  cleanup_loop existingFiles (0, db) (getTrackedFiles db p).

(** SQLite's order on a TEXT column: NULL first, then the strings byte by
    byte. *)
Definition compare_text (a c : option string) : comparison :=
  match a, c with
  | None, None => Eq
  | None, Some _ => Lt
  | Some _, None => Gt
  | Some x, Some y => String.compare x y
  end.

(** [ORDER BY last_message DESC]. *)
Definition last_message_desc (a c : SessionStats) : Z :=
  match compare_text (lastMessage c) (lastMessage a) with
  | Lt => (-1)%Z
  | Eq => 0%Z
  | Gt => 1%Z
  end.

Definition getSessions (db : Database) (p : Provider) : list SessionStats :=
  sort_by last_message_desc
          (filter (fun r => Provider_eqb (provider r) p = true) (sessions db)).

(** [getStats], without the size of the file on disk. *)
Definition sessionCount (db : Database) : nat := length (sessions db).
Definition fileCount (db : Database) : nat := length (files db).

Definition clearAll (db : Database) : Database :=
  {| files := []; sessions := [] |}.

(** The settings table, a third table of the same database: its rows in
    rowid order. *)
Record Setting : Type := {
  setting_key : string;
  setting_value : string;
  updated_at : Z;
}.

(** [saveSetting]; [now] is its [Date.now()]. *)
Definition saveSetting (settings : list Setting) (key value : string) (now : Z)
  : list Setting :=
  let here (r : Setting) := String.eqb (setting_key r) key in
  if existsb here settings
  then (fun r => if here r
                 then {| setting_key := setting_key r; setting_value := value;
                         updated_at := now |}
                 else r) <$> settings
  else settings ++ [ {| setting_key := key; setting_value := value;
                        updated_at := now |} ].

(** [getSetting(key, defaultValue)]. *)
Definition getSetting (settings : list Setting) (key defaultValue : string)
  : string :=
  match find (fun r => String.eqb (setting_key r) key) settings with
  | Some row => setting_value row
  | None => defaultValue
  end.

End Db.

(** ** The sync orchestrator *)

Record SyncCounts : Type := { added : nat; updated : nat; deleted : nat }.

(** The variables of the loop of [syncProvider]. *)
Record SyncLoop : Type := {
  loop_db : Db.Database;
  loop_added : nat;
  loop_updated : nat;
}.

(** [class SessionParser]: the in-process cache, the store and the time of
    the last [syncAll]. *)
Record SessionParser : Type := {
  cache : gmap string (list SessionStats);
  db : Db.Database;
  lastSyncTime : Z;
}.

Definition syncInterval : Z := 5000.

Section Sync.
Context {rt : Runtime} (fs : FileSystem).

(** [clock filePath] is what [Date.now()] returns when the row of [filePath]
    is written. *)
Variable clock : string -> Z.

(** The body of the loop of [syncProvider] for one candidate file.  A failed
    [statSync] is caught and logged. *)
Definition syncFile (p : Provider) (st : SyncLoop) (filePath : string)
  : option SyncLoop :=
  match statSync fs filePath with
  | None => Some st
  | Some (mtime, size) =>
      if Db.needsUpdate (loop_db st) filePath mtime size then
        session ← parseSession fs p filePath;
        if 0 <? messages session then
          let isNew :=
            negb (bool_decide (is_Some (Db.getFileRecord (loop_db st) filePath)))
          in
          let d := Db.upsertSession (loop_db st) session in
          let d := Db.upsertFileRecord d filePath p mtime size (clock filePath) in
          Some {| loop_db := d;
                  loop_added := if isNew then S (loop_added st)
                                else loop_added st;
                  loop_updated := if isNew then loop_updated st
                                  else S (loop_updated st) |}
        else Some st
      else Some st
  end.

(** [syncProvider]. *)
Definition syncProvider (p : Provider) (d : Db.Database)
  : option (SyncCounts * Db.Database) :=
  let baseDir := SESSION_DIRS p in
  if negb (nonempty baseDir) || negb (existsSync fs baseDir) then
    Some ({| added := 0; updated := 0; deleted := 0 |}, d)
  else
    let files := sessionFiles fs baseDir in
    let existingFiles : gset string := list_to_set files in
    st ← foldM (syncFile p) files
               {| loop_db := d; loop_added := 0; loop_updated := 0 |};
    let cleaned := Db.cleanupDeletedFiles (loop_db st) p existingFiles in
    Some ({| added := loop_added st; updated := loop_updated st;
             deleted := fst cleaned |}, snd cleaned).

(** [syncAll], the three passes run one after the other; [now] is the
    [Date.now()] that follows them. *)
Definition syncAll (now : Z) (sp : SessionParser)
  : option (SyncCounts * SyncCounts * SyncCounts * SessionParser) :=
  '(c1, d) ← syncProvider claude (db sp);
  '(c2, d) ← syncProvider codex d;
  '(c3, d) ← syncProvider gemini d;
  Some (c1, c2, c3, {| cache := cache sp; db := d; lastSyncTime := now |}).

Definition cacheKey (p : Provider) : string := "sessions-" +:+ provider_name p.

(** [getSessions(provider)]; [now] is its [Date.now()]. *)
Definition getSessions (now : Z) (sp : SessionParser) (p : Provider)
  : option (list SessionStats * SessionParser) :=
  let fresh :=
    let baseDir := SESSION_DIRS p in
    if negb (nonempty baseDir) || negb (existsSync fs baseDir) then
      Some ([], sp)
    else
      '(_, d) ← syncProvider p (db sp);
      let sessions := Db.getSessions d p in
      Some (sessions, {| cache := <[cacheKey p := sessions]> (cache sp);
                         db := d; lastSyncTime := lastSyncTime sp |})
  in
  match cache sp !! cacheKey p with
  | Some snapshot =>
      if (now - lastSyncTime sp <? syncInterval)%Z then Some (snapshot, sp)
      else fresh
  | None => fresh
  end.

Definition clearCache (sp : SessionParser) : SessionParser :=
  {| cache := ∅; db := db sp; lastSyncTime := lastSyncTime sp |}.

(** [forceRebuild]: [db.clearAll()], [this.cache.clear()], [syncAll()];
    [now] is the [Date.now()] of that [syncAll]. *)
Definition forceRebuild (now : Z) (sp : SessionParser) : option SessionParser :=
  '(_, _, _, sp') ← syncAll now {| cache := ∅; db := Db.clearAll (db sp);
                                   lastSyncTime := lastSyncTime sp |};
  Some sp'.

(** ** The recent sessions of [getAllUsage] *)

(** [a.lastMessage ? new Date(a.lastMessage).getTime() : 0]; [None] is
    NaN. *)
Definition recent_time (s : SessionStats) : option Z :=
  if present (lastMessage s) then Date_getTime (default "" (lastMessage s))
  else Some 0%Z.

(** The comparator [dateB - dateA]; a NaN result counts as 0. *)
Definition by_recent (a c : SessionStats) : Z :=
  match recent_time c, recent_time a with
  | Some dateB, Some dateA => (dateB - dateA)%Z
  | _, _ => 0%Z
  end.

(** What the loop over the providers pushes:
    [usage.recentSessions.push(...sessions.slice(0, 10))]. *)
Definition recent_pool (d : Db.Database) : list SessionStats :=
  p ← [claude; codex; gemini]; take 10 (Db.getSessions d p).

(** [usage.recentSessions] as [getAllUsage] returns it, read from the store
    its [syncAll] left. *)
Definition recentSessions (d : Db.Database) : list SessionStats :=
  take 20 (sort_by by_recent (recent_pool d)).

End Sync.

(** ** The aggregates of [getAllUsage]

    The interfaces [ProviderStats], [ModelStats], [DateStats] and
    [ProjectStats] and the [totals] object; the fields carry a prefix, their
    names being those of [SessionStats].  [byModel], [byDate] and [byProject]
    are objects used as maps; [providers] lists its entries in the order
    they are set. *)

Record ProviderStats : Type := {
  ps_sessions : nat;
  ps_messages : nat;
  ps_inputTokens : Q;
  ps_outputTokens : Q;
  ps_costUsd : Q;
  ps_available : bool;
}.

Record ModelStats : Type := {
  ms_sessions : nat;
  ms_inputTokens : Q;
  ms_outputTokens : Q;
  ms_costUsd : Q;
}.

Record DateStats : Type := {
  ds_sessions : nat;
  ds_inputTokens : Q;
  ds_outputTokens : Q;
  ds_costUsd : Q;
}.

Record ProjectStats : Type := {
  pj_sessions : nat;
  pj_messages : nat;
  pj_inputTokens : Q;
  pj_outputTokens : Q;
  pj_costUsd : Q;
  pj_provider : Provider;
  pj_lastActivity : option string;
}.

Record Totals : Type := {
  t_sessions : nat;
  t_messages : nat;
  t_inputTokens : Q;
  t_outputTokens : Q;
  t_totalTokens : Q;
  t_costUsd : Q;
}.

Record UsageData : Type := {
  providers : list (Provider * ProviderStats);
  totals : Totals;
  byModel : gmap string ModelStats;
  byDate : gmap string DateStats;
  byProject : gmap string ProjectStats;
  usage_recentSessions : list SessionStats;
}.

(** [session.model || 'unknown']. *)
Definition model_key (s : SessionStats) : string :=
  if present (model s) then default "" (model s) else "unknown".

(** [session.project || `${provider}-sessions`]. *)
Definition project_key (p : Provider) (s : SessionStats) : string :=
  if present (project s) then default "" (project s)
  else provider_name p +:+ "-sessions".

(** A key under which an object literal holds what the code stored: not one
    of the names it inherits from [Object.prototype] ([usage.byModel[k]] is
    truthy for those before anything is stored). *)
Definition own_key (k : string) : bool :=
  negb (existsb (String.eqb k) inherited_names).

Section Usage.
Context {rt : Runtime} (fs : FileSystem).

(** [new Date(s).toISOString().split('T')[0]]; [None]: the RangeError of an
    invalid date. *)
Variable Date_toISODate : string -> option string.

(** The block [// Aggregate by model]. *)
Definition tally_model (s : SessionStats) (m : gmap string ModelStats)
  : option (gmap string ModelStats) :=
  let k := model_key s in
  if own_key k then
    let old := default {| ms_sessions := 0; ms_inputTokens := 0;
                          ms_outputTokens := 0; ms_costUsd := 0 |} (m !! k) in
    Some (<[k := {| ms_sessions := S (ms_sessions old);
                    ms_inputTokens := ms_inputTokens old + inputTokens s;
                    ms_outputTokens := ms_outputTokens old + outputTokens s;
                    ms_costUsd := ms_costUsd old + costUsd s |}]> m)
  else None.

(** The block [// Aggregate by date]. *)
Definition tally_date (s : SessionStats) (m : gmap string DateStats)
  : option (gmap string DateStats) :=
  if present (lastMessage s) then
    date ← Date_toISODate (default "" (lastMessage s));
    if own_key date then
      let old := default {| ds_sessions := 0; ds_inputTokens := 0;
                            ds_outputTokens := 0; ds_costUsd := 0 |}
                         (m !! date) in
      Some (<[date := {| ds_sessions := S (ds_sessions old);
                         ds_inputTokens := ds_inputTokens old + inputTokens s;
                         ds_outputTokens := ds_outputTokens old + outputTokens s;
                         ds_costUsd := ds_costUsd old + costUsd s |}]> m)
    else None
  else Some m.

(** [new Date(a) > new Date(b)]: false when one of them is no date. *)
Definition later (a c : string) : bool :=
  match Date_getTime a, Date_getTime c with
  | Some x, Some y => (y <? x)%Z
  | _, _ => false
  end.

(** The blocks [// Aggregate by project] and [// Track last activity]. *)
Definition tally_project (p : Provider) (s : SessionStats)
    (m : gmap string ProjectStats) : option (gmap string ProjectStats) :=
  let k := project_key p s in
  if own_key k then
    let old := default {| pj_sessions := 0; pj_messages := 0;
                          pj_inputTokens := 0; pj_outputTokens := 0;
                          pj_costUsd := 0; pj_provider := p;
                          pj_lastActivity := None |} (m !! k) in
    let currentLast := pj_lastActivity old in
    Some (<[k := {| pj_sessions := S (pj_sessions old);
                    pj_messages := pj_messages old + messages s;
                    pj_inputTokens := pj_inputTokens old + inputTokens s;
                    pj_outputTokens := pj_outputTokens old + outputTokens s;
                    pj_costUsd := pj_costUsd old + costUsd s;
                    pj_provider := pj_provider old;
                    pj_lastActivity :=
                      if present (lastMessage s)
                         && (negb (present currentLast)
                             || later (default "" (lastMessage s))
                                      (default "" currentLast))
                      then lastMessage s else currentLast |}]> m)
  else None.

(** What the loops of [getAllUsage] carry: [providerStats] of the provider
    at hand and the three maps. *)
Record Tally : Type := {
  tally_stats : ProviderStats;
  tally_byModel : gmap string ModelStats;
  tally_byDate : gmap string DateStats;
  tally_byProject : gmap string ProjectStats;
}.

(** The body of [for (const session of sessions)]. *)
Definition tally_session (p : Provider) (acc : Tally) (s : SessionStats)
  : option Tally :=
  let stats := tally_stats acc in
  let stats := {| ps_sessions := ps_sessions stats;
                  ps_messages := ps_messages stats + messages s;
                  ps_inputTokens := ps_inputTokens stats + inputTokens s;
                  ps_outputTokens := ps_outputTokens stats + outputTokens s;
                  ps_costUsd := ps_costUsd stats + costUsd s;
                  ps_available := ps_available stats |} in
  bm ← tally_model s (tally_byModel acc);
  bd ← tally_date s (tally_byDate acc);
  bp ← tally_project p s (tally_byProject acc);
  Some {| tally_stats := stats; tally_byModel := bm; tally_byDate := bd;
          tally_byProject := bp |}.

(** The body of [for (const provider of providers)]; [totalTokens] is set
    after the loop. *)
Definition tally_provider (d : Db.Database) (usage : UsageData) (p : Provider)
  : option UsageData :=
  let sessions := Db.getSessions d p in
  acc ← foldM (tally_session p) sessions
        {| tally_stats := {| ps_sessions := length sessions; ps_messages := 0;
                             ps_inputTokens := 0; ps_outputTokens := 0;
                             ps_costUsd := 0;
                             ps_available := existsSync fs (SESSION_DIRS p) |};
           tally_byModel := byModel usage; tally_byDate := byDate usage;
           tally_byProject := byProject usage |};
  let stats := tally_stats acc in
  let t := totals usage in
  Some {| providers := providers usage ++ [(p, stats)];
          totals := {| t_sessions := t_sessions t + ps_sessions stats;
                       t_messages := t_messages t + ps_messages stats;
                       t_inputTokens := t_inputTokens t + ps_inputTokens stats;
                       t_outputTokens :=
                         t_outputTokens t + ps_outputTokens stats;
                       t_totalTokens := t_totalTokens t;
                       t_costUsd := t_costUsd t + ps_costUsd stats |};
          byModel := tally_byModel acc; byDate := tally_byDate acc;
          byProject := tally_byProject acc;
          usage_recentSessions :=
            usage_recentSessions usage ++ take 10 sessions |}.

(** [getAllUsage] after its [syncAll]: the aggregation of the store.
    [None]: the call is rejected by the RangeError of [toISOString], or a
    map is keyed by an inherited name, where the code updates the inherited
    object and the maps no longer hold what their interfaces declare. *)
Definition aggregate (d : Db.Database) : option UsageData :=
  usage ← foldM (tally_provider d) [claude; codex; gemini]
           {| providers := [];
              totals := {| t_sessions := 0; t_messages := 0;
                           t_inputTokens := 0; t_outputTokens := 0;
                           t_totalTokens := 0; t_costUsd := 0 |};
              byModel := ∅; byDate := ∅; byProject := ∅;
              usage_recentSessions := [] |};
  let t := totals usage in
  Some {| providers := providers usage;
          totals := {| t_sessions := t_sessions t; t_messages := t_messages t;
                       t_inputTokens := t_inputTokens t;
                       t_outputTokens := t_outputTokens t;
                       t_totalTokens := t_inputTokens t + t_outputTokens t;
                       t_costUsd := t_costUsd t |};
          byModel := byModel usage; byDate := byDate usage;
          byProject := byProject usage;
          usage_recentSessions :=
            take 20 (sort_by by_recent (usage_recentSessions usage)) |}.

(** [getAllUsage]; [now] is the [Date.now()] of its [syncAll]. *)
Definition getAllUsage (clock : string -> Z) (now : Z) (sp : SessionParser)
  : option (UsageData * SessionParser) :=
  '(_, _, _, sp') ← syncAll fs clock now sp;
  usage ← aggregate (db sp');
  Some (usage, sp').

(** The handler of [refresh-data]: [parser.clearCache()], then
    [parser.getAllUsage()]. *)
Definition refreshData (clock : string -> Z) (now : Z) (sp : SessionParser)
  : option (UsageData * SessionParser) :=
  getAllUsage clock now (clearCache sp).

(** The sessions in the order [getAllUsage] visits them. *)
Definition visited (d : Db.Database) : list SessionStats :=
  p ← [claude; codex; gemini]; Db.getSessions d p.

(** The day a session is counted under in [byDate], if any. *)
Definition date_key (s : SessionStats) : option string :=
  if present (lastMessage s) then Date_toISODate (default "" (lastMessage s))
  else None.

(** What a session adds to the entry of its model, of its day and of its
    project. *)
Definition model_add (st : ModelStats) (s : SessionStats) : ModelStats :=
  {| ms_sessions := S (ms_sessions st);
     ms_inputTokens := ms_inputTokens st + inputTokens s;
     ms_outputTokens := ms_outputTokens st + outputTokens s;
     ms_costUsd := ms_costUsd st + costUsd s |}.

Definition date_add (st : DateStats) (s : SessionStats) : DateStats :=
  {| ds_sessions := S (ds_sessions st);
     ds_inputTokens := ds_inputTokens st + inputTokens s;
     ds_outputTokens := ds_outputTokens st + outputTokens s;
     ds_costUsd := ds_costUsd st + costUsd s |}.

Definition project_add (st : ProjectStats) (s : SessionStats) : ProjectStats :=
  {| pj_sessions := S (pj_sessions st);
     pj_messages := pj_messages st + messages s;
     pj_inputTokens := pj_inputTokens st + inputTokens s;
     pj_outputTokens := pj_outputTokens st + outputTokens s;
     pj_costUsd := pj_costUsd st + costUsd s;
     pj_provider := pj_provider st;
     pj_lastActivity :=
       if present (lastMessage s)
          && (negb (present (pj_lastActivity st))
              || later (default "" (lastMessage s))
                       (default "" (pj_lastActivity st)))
       then lastMessage s else pj_lastActivity st |}.

End Usage.

(** ** The quantities the specification speaks of *)

Section Quantities.
Context {rt : Runtime}.

Definition sumQ (l : list Q) : Q := foldr Qplus 0%Q l.

(** The number a field adds to a counter: the number itself, 1 for [true],
    nothing for a falsy field. *)
Definition number_of (v : option json) : Q :=
  match v with
  | Some (JNum q) => q
  | Some (JBool true) => 1%Q
  | _ => 0%Q
  end.

(** A line of a Claude file is successfully parsed when the body of its
    [try] runs to its end: the line is not blank, [JSON.parse] accepts it,
    and no statement raises on the shape of the event (a [null] document, or
    a [null] entry met by the scan of [message.content]). *)
Definition claude_parsed (line : string) : option json :=
  if blank line then None
  else
    match JSON_parse line with
    | Some event =>
        if nullish (Some event) then None
        else match claude_tool_use (Some event) with
             | Some _ => Some event
             | None => None
             end
    | None => None
    end.

(** What a line adds to the sum of the usage field [k], and to the sum of
    the embedded costs. *)
Definition usage_of (k : string) (line : string) : Q :=
  match claude_parsed line with
  | Some event => number_of (prop k (claude_usage (Some event)))
  | None => 0%Q
  end.

Definition cost_of (line : string) : Q :=
  match claude_parsed line with
  | Some event => number_of (prop "costUsd" (Some event))
  | None => 0%Q
  end.

(** The sum of the usage field [k] over the successfully parsed lines. *)
Definition usage_sum (k : string) (lines : list string) : Q :=
  sumQ (usage_of k <$> lines).

(** The sum of the embedded [costUsd] fields. *)
Definition embedded_cost (lines : list string) : Q :=
  sumQ (cost_of <$> lines).

(** A truthy field that is a string. *)
Definition text_of (v : option json) : option string :=
  if truthy v then as_string v else None.

(** The model name and the time stamp a successfully parsed line carries. *)
Definition model_of (line : string) : option string :=
  event ← claude_parsed line;
  text_of (js_or (prop "model" (prop "message" (Some event)))
                 (prop "model" (Some event))).

Definition timestamp_of (line : string) : option string :=
  event ← claude_parsed line;
  text_of (js_or (prop "timestamp" (Some event)) (prop "ts" (Some event))).

(** The last-seen model of a Claude file. *)
Definition last_seen_model (lines : list string) : option string :=
  last (omap model_of lines).

(** The events of a line-delimited file: the documents of the lines that
    [JSON.parse] accepts. *)
Definition events_of (content : string) : list json :=
  omap JSON_parse (content_lines content).

(** The last token_count event of a Codex file. *)
Definition last_token_count (events : list json) : option json :=
  last (filter (fun e => is_token_count (Some e) = true) events).

(** A counter holds what a field of running totals carries: the number in
    the field, 0 when the field is absent or falsy. *)
Definition carries (field : option json) (q : Q) : Prop :=
  if truthy field then field = Some (JNum q) else q = 0%Q.

(** The elements of a whole-file array that the role loop reads: all of
    them, or those before the first [null] element. *)
Fixpoint scanned (data : list json) : list json :=
  match data with
  | [] => []
  | msg :: rest => if nullish (Some msg) then [] else msg :: scanned rest
  end.

Definition with_role (role : string) (data : list json) : nat :=
  length (filter (fun msg => str_is (prop "role" (Some msg)) role = true) data).

(** The JSON documents of the lines of a file: what [JSON.parse] returns on
    the lines that are not blank and that it accepts. *)
Definition documents (lines : list string) : list json :=
  omap JSON_parse (filter (fun l => blank l = false) lines).

(** What a Gemini event adds to a token counter: the field [k] of its
    [usageMetadata]. *)
Definition gemini_tokens (k : string) (event : json) : Q :=
  number_of (prop k (prop "usageMetadata" (Some event))).

(** The model name a Gemini event carries. *)
Definition gemini_model (event : json) : option string :=
  text_of (prop "model" (Some event)).

End Quantities.

(** ** Notions used by the statements and their proofs *)

Section Notions.
Context {rt : Runtime} (fs : FileSystem).

(** Two records with the same token and cost totals. *)
Definition same_totals (a c : SessionStats) : Prop :=
  inputTokens a = inputTokens c /\ outputTokens a = outputTokens c
  /\ costUsd a = costUsd c.

(** The fields a step of a loop leaves alone. *)
Definition same_marks (a c : SessionStats) : Prop :=
  model a = model c /\ firstMessage a = firstMessage c
  /\ lastMessage a = lastMessage c /\ duration a = duration c.

(** What the statements after the tool-use test do to the record. *)
Record accumulated (ev : option json) (st st' : SessionStats) : Prop := {
  acc_input :
    (inputTokens st' ==
       inputTokens st + number_of (prop "input_tokens" (claude_usage ev)))%Q;
  acc_output :
    (outputTokens st' ==
       outputTokens st + number_of (prop "output_tokens" (claude_usage ev)))%Q;
  acc_cost : (costUsd st' == costUsd st + number_of (prop "costUsd" ev))%Q;
  acc_model :
    model st' =
      from_option Some (model st)
        (text_of (js_or (prop "model" (prop "message" ev)) (prop "model" ev)));
  acc_last :
    lastMessage st' =
      from_option Some (lastMessage st)
        (text_of (js_or (prop "timestamp" ev) (prop "ts" ev)));
  acc_first :
    firstMessage st' =
      (if present (firstMessage st) then firstMessage st
       else from_option Some (firstMessage st)
              (text_of (js_or (prop "timestamp" ev) (prop "ts" ev))));
  acc_duration : duration st' = duration st;
}.

(** What one line does to the record. *)
Record line_effect (line : string) (st st' : SessionStats) : Prop := {
  le_input :
    (inputTokens st' == inputTokens st + usage_of "input_tokens" line)%Q;
  le_output :
    (outputTokens st' == outputTokens st + usage_of "output_tokens" line)%Q;
  le_cost : (costUsd st' == costUsd st + cost_of line)%Q;
  le_model : model st' = from_option Some (model st) (model_of line);
  le_last :
    lastMessage st' = from_option Some (lastMessage st) (timestamp_of line);
  le_first :
    firstMessage st' =
      (if present (firstMessage st) then firstMessage st
       else from_option Some (firstMessage st) (timestamp_of line));
  le_duration : duration st' = duration st;
}.

(** What the loop over the lines does to the record. *)
Record file_effect (lines : list string) (st st' : SessionStats) : Prop := {
  fe_input :
    (inputTokens st' == inputTokens st + usage_sum "input_tokens" lines)%Q;
  fe_output :
    (outputTokens st' == outputTokens st + usage_sum "output_tokens" lines)%Q;
  fe_cost : (costUsd st' == costUsd st + embedded_cost lines)%Q;
  fe_model : model st' = from_option Some (model st) (last_seen_model lines);
  fe_last :
    lastMessage st' =
      from_option Some (lastMessage st) (last (omap timestamp_of lines));
  fe_first :
    firstMessage st' =
      (if present (firstMessage st) then firstMessage st
       else from_option Some (firstMessage st) (head (omap timestamp_of lines)));
  fe_duration : duration st' = duration st;
}.

(** Two states of the Codex loop with the same running totals. *)
Definition same_running_totals (a c : CodexLoop) : Prop :=
  lastTotalInput a = lastTotalInput c /\ lastTotalOutput a = lastTotalOutput c.

(** The row of a file has its current mtime and size. *)
Definition up_to_date (d : Db.Database) (filePath : string) : Prop :=
  match statSync fs filePath with
  | Some (mtime, size) => Db.needsUpdate d filePath mtime size = false
  | None => True
  end.

(** A second look at the file changes nothing: its row is current, or it
    parses to a record with no message. *)
Definition settled (p : Provider) (d : Db.Database) (filePath : string)
  : Prop :=
  up_to_date d filePath
  \/ exists session,
       parseSession fs p filePath = Some session /\ messages session = 0.

(** The provider's root directory is there: [baseDir] is not empty and
    [fs.existsSync(baseDir)]. *)
Definition available (p : Provider) : bool :=
  nonempty (SESSION_DIRS p) && existsSync fs (SESSION_DIRS p).

(** The debounce test of [getSessions]: the snapshot it returns when the
    cache holds one for the provider and the last [syncAll] is less than
    [syncInterval] old. *)
Definition served_from_cache (now : Z) (sp : SessionParser) (p : Provider)
  : option (list SessionStats) :=
  snapshot ← cache sp !! cacheKey p;
  if (now - lastSyncTime sp <? syncInterval)%Z then Some snapshot else None.

(** The second half of claim C9 as the specification words it: whenever
    the snapshot is not served, a fresh [syncProvider] runs, the provider's
    sessions are read from the store and the snapshot is replaced by them. *)
Definition refreshed_when_not_served (clock : string -> Z) (now : Z)
    (sp : SessionParser) (p : Provider) : Prop :=
  served_from_cache now sp p = None ->
  forall counts d,
    syncProvider fs clock p (db sp) = Some (counts, d) ->
    getSessions fs clock now sp p
    = Some (Db.getSessions d p,
            {| cache := <[cacheKey p := Db.getSessions d p]> (cache sp);
               db := d; lastSyncTime := lastSyncTime sp |}).

(** The duration claim C5 asks of a record: the distance between its first
    and its last time stamp, floored at 0. *)
Definition claimed_duration (r : SessionStats) : option Z :=
  first ← firstMessage r;
  final ← lastMessage r;
  start ← Date_getTime first;
  finish ← Date_getTime final;
  Some (Z.max 0 (finish - start)).



(** A step of a parser that reads [n] documents: the record keeps its path
    and provider, counts [n] more messages and at most [n] more roles and
    tool uses. *)
Definition advances (n : nat) (a c : SessionStats) : Prop :=
  path c = path a /\ provider c = provider a
  /\ messages c = messages a + n
  /\ userMessages c + assistantMessages c
     <= userMessages a + assistantMessages a + n
  /\ default 0 (toolUses c) <= default 0 (toolUses a) + n.

(** The store holds one row per path in each table, the same paths in both
    tables, and no session without a message. *)
Record sound (d : Db.Database) : Prop := {
  sound_sessions : NoDup (path <$> Db.sessions d);
  sound_files : NoDup (Db.file_path <$> Db.files d);
  sound_paths :
    forall f, f ∈ path <$> Db.sessions d <-> f ∈ Db.file_path <$> Db.files d;
  sound_messages : Forall (fun s => 0 < messages s) (Db.sessions d);
}.

(** A session row that is the record of a candidate file of [p] as the
    parser reads it now. *)
Definition fresh_row (p : Provider) (s : SessionStats) : Prop :=
  exists r,
    path s ∈ sessionFiles fs (SESSION_DIRS p)
    /\ parseSession fs p (path s) = Some r
    /\ 0 < messages r /\ s = Db.session_row r.

End Notions.

(** ** An environment for the examples

    A POSIX [path], a reader for the JSON of the examples (no exponents, no
    [\u] escapes), ISO-8601 UTC time stamps, and a file system given by the
    list of its files.  The theorems below hold for every [Runtime] and
    [FileSystem]; this one runs them on concrete files.  In the examples a
    JSON text is written with ['] for the double quote. *)

Module Example.

Definition is_byte (n : nat) (c : ascii) : bool := nat_of_ascii c =? n.

Definition json_ws (c : ascii) : bool :=
  is_byte 32 c || is_byte 9 c || is_byte 10 c || is_byte 13 c.

Fixpoint skip_ws (s : string) : string :=
  match s with
  | String c rest => if json_ws c then skip_ws rest else s
  | EmptyString => s
  end.

Definition digit (c : ascii) : option Z :=
  let n := nat_of_ascii c in
  if (48 <=? n) && (n <=? 57) then Some (Z.of_nat (n - 48)) else None.

Fixpoint read_digits (s : string) (acc : Z) (n : nat) : Z * nat * string :=
  match s with
  | String c rest =>
      match digit c with
      | Some d => read_digits rest (acc * 10 + d)%Z (S n)
      | None => (acc, n, s)
      end
  | EmptyString => (acc, n, s)
  end.

Definition read_number (s : string) : option (Q * string) :=
  let '(negative, s) :=
    match s with
    | String c rest => if is_byte 45 c then (true, rest) else (false, s)
    | EmptyString => (false, s)
    end in
  let '(whole, n, s) := read_digits s 0%Z 0 in
  if n =? 0 then None
  else
    let '(fraction, k, s) :=
      match s with
      | String c rest => if is_byte 46 c then read_digits rest 0%Z 0
                         else (0%Z, 0, s)
      | EmptyString => (0%Z, 0, s)
      end in
    let scale := (10 ^ Z.of_nat k)%Z in
    let numerator := (whole * scale + fraction)%Z in
    Some (Qmake (if negative then (- numerator)%Z else numerator)
                (Z.to_pos scale), s).

Definition unescape (c : ascii) : option ascii :=
  if is_byte 34 c || is_byte 92 c || is_byte 47 c then Some c
  else if is_byte 110 c then Some "010"%char
  else if is_byte 116 c then Some "009"%char
  else if is_byte 114 c then Some "013"%char
  else if is_byte 98 c then Some "008"%char
  else if is_byte 102 c then Some "012"%char
  else None.

(** The characters of a string literal, after its opening quote. *)
Fixpoint read_string (s : string) : option (string * string) :=
  match s with
  | EmptyString => None
  | String c rest =>
      if is_byte 34 c then Some (EmptyString, rest)
      else if is_byte 92 c then
        match rest with
        | String e rest' =>
            ch ← unescape e;
            '(str, r) ← read_string rest';
            Some (String ch str, r)
        | EmptyString => None
        end
      else if nat_of_ascii c <? 32 then None
      else '(str, r) ← read_string rest; Some (String c str, r)
  end.

Definition read_literal (word : string) (v : json) (s : string)
  : option (json * string) :=
  if String.prefix word s
  then Some (v, String.substring (String.length word)
                                 (String.length s - String.length word) s)
  else None.

(** A later member replaces an earlier one of the same key. *)
Definition add_member (k : string) (v : json) (ms : list (string * json))
  : list (string * json) :=
  if existsb (fun kv => String.eqb (fst kv) k) ms then ms else (k, v) :: ms.

Fixpoint read_value (fuel : nat) (s : string) : option (json * string) :=
  match fuel with
  | O => None
  | S fuel =>
      match skip_ws s with
      | EmptyString => None
      | String c rest as s' =>
          if is_byte 123 c then
            match skip_ws rest with
            | String c' rest' =>
                if is_byte 125 c' then Some (JObj [], rest')
                else '(ms, r) ← read_members fuel rest; Some (JObj ms, r)
            | EmptyString => None
            end
          else if is_byte 91 c then
            match skip_ws rest with
            | String c' rest' =>
                if is_byte 93 c' then Some (JArr [], rest')
                else '(vs, r) ← read_elements fuel rest; Some (JArr vs, r)
            | EmptyString => None
            end
          else if is_byte 34 c then
            '(str, r) ← read_string rest; Some (JStr str, r)
          else if is_byte 116 c then read_literal "true" (JBool true) s'
          else if is_byte 102 c then read_literal "false" (JBool false) s'
          else if is_byte 110 c then read_literal "null" JNull s'
          else '(q, r) ← read_number s'; Some (JNum q, r)
      end
  end
with read_elements (fuel : nat) (s : string) : option (list json * string) :=
  match fuel with
  | O => None
  | S fuel =>
      '(v, r) ← read_value fuel s;
      match skip_ws r with
      | String c rest =>
          if is_byte 44 c then
            '(vs, r') ← read_elements fuel rest; Some (v :: vs, r')
          else if is_byte 93 c then Some ([v], rest)
          else None
      | EmptyString => None
      end
  end
with read_members (fuel : nat) (s : string)
  : option (list (string * json) * string) :=
  match fuel with
  | O => None
  | S fuel =>
      match skip_ws s with
      | String c rest =>
          if is_byte 34 c then
            '(k, r) ← read_string rest;
            match skip_ws r with
            | String c2 r2 =>
                if is_byte 58 c2 then
                  '(v, r3) ← read_value fuel r2;
                  match skip_ws r3 with
                  | String c3 r4 =>
                      if is_byte 44 c3 then
                        '(ms, r5) ← read_members fuel r4;
                        Some (add_member k v ms, r5)
                      else if is_byte 125 c3 then Some ([(k, v)], r4)
                      else None
                  | EmptyString => None
                  end
                else None
            | EmptyString => None
            end
          else None
      | EmptyString => None
      end
  end.

Definition json_read (s : string) : option json :=
  '(v, r) ← read_value (2 * String.length s + 2) s;
  match skip_ws r with
  | EmptyString => Some v
  | String _ _ => None
  end.

(** ['] stands for the double quote in the texts of the examples. *)
Fixpoint q (s : string) : string :=
  match s with
  | EmptyString => EmptyString
  | String c rest => String (if is_byte 39 c then "034"%char else c) (q rest)
  end.

(** [n] decimal digits at the head of [s]. *)
Fixpoint fixed_digits (n : nat) (s : string) (acc : Z) : option (Z * string) :=
  match n with
  | O => Some (acc, s)
  | S n =>
      match s with
      | String c rest => d ← digit c; fixed_digits n rest (acc * 10 + d)%Z
      | EmptyString => None
      end
  end.

Definition expect (n : nat) (s : string) : option string :=
  match s with
  | String c rest => if is_byte n c then Some rest else None
  | EmptyString => None
  end.

(** Days from 1970-01-01 to a date of the proleptic Gregorian calendar. *)
Definition days_from_civil (y m d : Z) : Z :=
  let y := if (m <=? 2)%Z then (y - 1)%Z else y in
  let era := (y / 400)%Z in
  let yoe := (y - era * 400)%Z in
  let mp := if (m >? 2)%Z then (m - 3)%Z else (m + 9)%Z in
  let doy := ((153 * mp + 2) / 5 + d - 1)%Z in
  let doe := (yoe * 365 + yoe / 4 - yoe / 100 + doy)%Z in
  (era * 146097 + doe - 719468)%Z.

(** [YYYY-MM-DDTHH:MM:SSZ], in milliseconds since the epoch. *)
Definition iso_time (s : string) : option Z :=
  '(y, s) ← fixed_digits 4 s 0%Z;
  s ← expect 45 s;
  '(m, s) ← fixed_digits 2 s 0%Z;
  s ← expect 45 s;
  '(d, s) ← fixed_digits 2 s 0%Z;
  s ← expect 84 s;
  '(hh, s) ← fixed_digits 2 s 0%Z;
  s ← expect 58 s;
  '(mm, s) ← fixed_digits 2 s 0%Z;
  s ← expect 58 s;
  '(ss, s) ← fixed_digits 2 s 0%Z;
  s ← expect 90 s;
  match s with
  | EmptyString =>
      Some ((((days_from_civil y m d * 24 + hh) * 60 + mm) * 60 + ss) * 1000)%Z
  | String _ _ => None
  end.

Definition segments (p : string) : list string :=
  filter (fun x => nonempty x = true) (split "/" p).

Definition extname (p : string) : string :=
  let name := default "" (last (segments p)) in
  match reverse (split "." name) with
  | ext :: _ :: _ =>
      if String.eqb (String.substring 0 (String.length name - String.length ext - 1) name) ""
      then "" else "." +:+ ext
  | _ => ""
  end.

Definition basename (p ext : string) : string :=
  let name := default "" (last (segments p)) in
  if nonempty ext && endsWith name ext && (String.length ext <? String.length name)
  then String.substring 0 (String.length name - String.length ext) name
  else name.

Definition dirname (p : string) : string :=
  let parts := segments p in
  "/" +:+ String.concat "/" (take (length parts - 1) parts).

Definition relative (from to : string) : string :=
  if startsWith to (from +:+ "/")
  then String.substring (S (String.length from))
                        (String.length to - S (String.length from)) to
  else to.

Definition dirs (p : Provider) : string :=
  match p with
  | claude => "/home/u/.claude/projects"
  | codex => "/home/u/.codex/sessions"
  | gemini => "/home/u/.gemini/tmp"
  end.

#[export] Instance runtime : Runtime := {|
  JSON_parse := json_read;
  Date_getTime := iso_time;
  path_sep := "/"%char;
  path_basename := basename;
  path_dirname := dirname;
  path_extname := extname;
  path_relative := relative;
  SESSION_DIRS := dirs;
|}.

(** A file of the examples: its path, its modification time and its text.
    Its size is the length of the text. *)
Definition File : Type := string * (Z * string).

Definition lookup_file (disk : list File) (p : string) : option (Z * string) :=
  assoc p disk.

(** The file system that holds the files [disk], and the directories
    [folders]. *)
Definition file_system (folders : list string) (disk : list File)
  : FileSystem :=
  {| existsSync := fun p =>
       existsb (String.eqb p) folders || bool_decide (is_Some (lookup_file disk p));
     statSync := fun p =>
       f ← lookup_file disk p;
       Some (fst f, Z.of_nat (String.length (snd f)));
     readFileSync := fun p => snd <$> lookup_file disk p;
     readLines := fun p => split "010" ∘ snd <$> lookup_file disk p;
     sessionFiles := fun dir =>
       filter (fun p => startsWith p (dir +:+ "/") = true
                        ∧ (endsWith p ".jsonl" || endsWith p ".json") = true)
              (fst <$> disk) |}.

(** The files of the examples. *)

Definition claude_file : string :=
  "/home/u/.claude/projects/-home-u-work-app/s1.jsonl".

(** Three usage-bearing lines: 10/5, 20/8 and 5/2 tokens. *)
Definition claude_log : string := q
"{'type':'user','timestamp':'2024-01-01T00:00:00Z','message':{'role':'user','usage':{'input_tokens':10,'output_tokens':5}}}
{'type':'assistant','timestamp':'2024-01-01T00:00:30Z','message':{'role':'assistant','model':'claude-3-5-sonnet-20241022','usage':{'input_tokens':20,'output_tokens':8},'content':[{'type':'tool_use'}]}}
{'type':'assistant','timestamp':'2024-01-01T00:01:00Z','message':{'role':'assistant','usage':{'input_tokens':5,'output_tokens':2}}}
".

Definition codex_file : string := "/home/u/.codex/sessions/rollout-1.jsonl".

(** Three token_count events with the running totals 100/50, 250/120 and
    400/200; the events are five seconds apart in all. *)
Definition codex_log : string := q
"{'timestamp':'2024-01-01T00:00:00Z','type':'session_meta','payload':{'cwd':'/home/u/work/app'}}
{'timestamp':'2024-01-01T00:00:01Z','type':'event_msg','payload':{'type':'user_message'}}
{'timestamp':'2024-01-01T00:00:02Z','type':'event_msg','payload':{'type':'token_count','info':{'total_token_usage':{'input_tokens':100,'output_tokens':50}}}}
{'timestamp':'2024-01-01T00:00:03Z','type':'event_msg','payload':{'type':'token_count','info':{'total_token_usage':{'input_tokens':250,'output_tokens':120}}}}
{'timestamp':'2024-01-01T00:00:04Z','type':'turn_context','payload':{'model':'gpt-4o'}}
{'timestamp':'2024-01-01T00:00:05Z','type':'event_msg','payload':{'type':'token_count','info':{'total_token_usage':{'input_tokens':400,'output_tokens':200}}}}
".

(** A Codex session kept as one JSON array. *)
Definition legacy_file : string := "/home/u/.codex/sessions/legacy.json".

Definition legacy_log : string := q
"[{'role':'user','content':'hi'},{'role':'assistant','content':'hello'},{'role':'user','content':'bye'}]".

(** A Codex file with no event. *)
Definition empty_file : string := "/home/u/.codex/sessions/empty.jsonl".

Definition empty_log : string := "
".

Definition gemini_file : string := "/home/u/.gemini/tmp/chat.jsonl".

(** Two time-stamped events, nine seconds apart. *)
Definition gemini_log : string := q
"{'role':'user','timestamp':'2024-01-01T00:00:00Z'}
{'role':'model','timestamp':'2024-01-01T00:00:09Z','usageMetadata':{'promptTokenCount':7,'candidatesTokenCount':3}}
".

Definition folders : list string := dirs <$> [claude; codex; gemini].

Definition disk : list File :=
  [ (claude_file, (1704067260000%Z, claude_log));
    (codex_file, (1704067205000%Z, codex_log));
    (empty_file, (1700000000001%Z, empty_log));
    (gemini_file, (1704067209000%Z, gemini_log)) ].

Definition files : FileSystem := file_system folders disk.

(** The same home directory with the array file beside the others. *)
Definition archive : FileSystem :=
  file_system folders ((legacy_file, (1700000000000%Z, legacy_log)) :: disk).

Definition claude_lines : list string :=
  Eval vm_compute in split "010" claude_log.

Definition clock (filePath : string) : Z := 1704067300000%Z.

Definition empty_store : Db.Database := {| Db.files := []; Db.sessions := [] |}.

(** The store after [syncProvider] for [p]. *)
Definition synced (p : Provider) (d : Db.Database) : Db.Database :=
  match syncProvider files clock p d with
  | Some (_, d') => d'
  | None => d
  end.

(** The store after the three passes of [syncAll] on an empty store. *)
Definition store : Db.Database :=
  Eval vm_compute in synced gemini (synced codex (synced claude empty_store)).

(** A home directory that has lost its session folders, and a parser that
    still holds [store], with no snapshot. *)
Definition empty_disk : FileSystem := file_system [] [].

Definition cold_parser : SessionParser :=
  {| cache := ∅; db := store; lastSyncTime := 0 |}.







(** A parser whose snapshot of Codex is empty, taken before any file was
    written. *)
Definition early_parser : SessionParser :=
  {| cache := {[ cacheKey codex := [] ]}; db := empty_store; lastSyncTime := 0 |}.

(** [toISOString().split('T')[0]] on the time stamps [iso_time] reads: they
    are in UTC, the day is their first ten characters. *)
Definition iso_date (s : string) : option string :=
  _ ← iso_time s; Some (String.substring 0 10 s).

End Example.

(** Closes a goal between closed terms by running both sides. *)
Ltac run := vm_compute; reflexivity.

(** Replaces a closed term of the goal by its value. *)
Ltac evaluate t :=
  let v := eval vm_compute in t in
  let E := fresh "E" in
  assert (t = v) as E by (vm_compute; reflexivity); rewrite E; clear E.

(** * Properties *)

Section Properties.
Context {rt : Runtime} (fs : FileSystem).

(** ** The change detector *)

Lemma getFileRecord_None (d : Db.Database) (filePath : string) :
  Db.getFileRecord d filePath = None <->
  forall r, r ∈ Db.files d -> Db.file_path r <> filePath.
Proof.
  unfold Db.getFileRecord. induction (Db.files d) as [|x l IH]; simpl.
  - split; [intros _ r Hr; inversion Hr | done].
  - destruct (String.eqb_spec (Db.file_path x) filePath) as [Heq|Hne].
    + split; [done|]. intros H. exfalso. apply (H x); [left | done].
    + rewrite IH. split.
      * intros H r Hr. apply elem_of_cons in Hr as [->|Hr]; auto.
      * intros H r Hr. apply H. by right.
Qed.

Lemma getFileRecord_Some (d : Db.Database) (filePath : string)
    (record : Db.FileRecord) :
  Db.getFileRecord d filePath = Some record ->
  record ∈ Db.files d /\ Db.file_path record = filePath.
Proof.
  unfold Db.getFileRecord. intros H. apply find_some in H as [Hin Heq].
  split; [by apply list_elem_of_In | by apply String.eqb_eq].
Qed.

(** C3.  [needsUpdate(path, currentMtime, currentSize)] is true exactly when
    the files table has no row for the path, or the stored row (the first
    one of that path) differs from the current values in its mtime or in its
    size.  In particular a file whose row has the current mtime and size is
    skipped by the sync loop whatever the file holds: the loop state is the
    same for every file system that reports this mtime and size. *)
Theorem needsUpdate_iff (d : Db.Database) (filePath : string)
    (currentMtime currentSize : Z) :
  (Db.needsUpdate d filePath currentMtime currentSize = true <->
     (forall r, r ∈ Db.files d -> Db.file_path r <> filePath) \/
     exists record, Db.getFileRecord d filePath = Some record /\
       (Db.file_mtime record <> currentMtime \/
        Db.file_size record <> currentSize))
  /\ (forall (record : Db.FileRecord) (disk : FileSystem)
             (clock : string -> Z) (p : Provider) (st : SyncLoop),
        loop_db st = d ->
        Db.getFileRecord d filePath = Some record ->
        Db.file_mtime record = currentMtime ->
        Db.file_size record = currentSize ->
        statSync disk filePath = Some (currentMtime, currentSize) ->
        syncFile disk clock p st filePath = Some st).
Proof.
  split.
  - rewrite <- getFileRecord_None. unfold Db.needsUpdate.
    destruct (Db.getFileRecord d filePath) as [record|] eqn:Hrec.
    + rewrite orb_true_iff, !negb_true_iff, !Z.eqb_neq. split.
      * intros H. right. eauto.
      * intros [H|(r & Hr & H)]; [done|]. by inversion Hr; subst.
    + split; auto.
  - intros record disk clock p st <- Hrec <- <- Hstat. unfold syncFile.
    rewrite Hstat. unfold Db.needsUpdate. rewrite Hrec, !Z.eqb_refl. done.
Qed.

(** ** Provider A: additive counters *)

Lemma count_role_totals u a st : same_totals (count_role u a st) st.
Proof. unfold count_role. by destruct u, a. Qed.

Lemma count_role_marks u a st : same_marks (count_role u a st) st.
Proof. unfold count_role. by destruct u, a. Qed.

Lemma text_of_nonempty v t : text_of v = Some t -> present (Some t) = true.
Proof.
  unfold text_of. destruct (truthy v) eqn:Hv; [|done].
  destruct v as [[]|]; simpl; try done. by intros [= <-].
Qed.

Lemma track_timestamp_totals ts st st' :
  track_timestamp ts st = Some st' -> same_totals st' st.
Proof.
  unfold track_timestamp. intros H.
  destruct (truthy ts); simplify_option_eq; [|done].
  by destruct (present (firstMessage st)).
Qed.

Lemma track_timestamp_marks ts st st' :
  track_timestamp ts st = Some st' ->
  model st' = model st /\ duration st' = duration st
  /\ lastMessage st' = from_option Some (lastMessage st) (text_of ts)
  /\ firstMessage st' =
       (if present (firstMessage st) then firstMessage st
        else from_option Some (firstMessage st) (text_of ts)).
Proof.
  unfold track_timestamp, text_of. intros H.
  destruct (truthy ts).
  - apply bind_Some in H as (t & -> & [= <-]). simpl.
    by destruct (present (firstMessage st)).
  - injection H as <-. simpl. by destruct (present (firstMessage st)).
Qed.

Lemma track_model_totals m st st' :
  track_model m st = Some st' -> same_totals st' st.
Proof.
  unfold track_model. intros H. destruct (truthy m); by simplify_option_eq.
Qed.

Lemma track_model_marks m st st' :
  track_model m st = Some st' ->
  model st' = from_option Some (model st) (text_of m)
  /\ firstMessage st' = firstMessage st /\ lastMessage st' = lastMessage st
  /\ duration st' = duration st.
Proof.
  unfold track_model, text_of. intros H. destruct (truthy m).
  - by apply bind_Some in H as (t & -> & [= <-]).
  - by injection H as <-.
Qed.

Lemma inc_toolUses_totals st st' :
  inc_toolUses_checked st = Some st' -> same_totals st' st /\ same_marks st' st.
Proof. unfold inc_toolUses_checked. intros H. by simplify_option_eq. Qed.

Lemma add_if_truthy_number (acc : Q) (v : option json) (r : Q) :
  add_if_truthy acc v = Some r -> (r == acc + number_of v)%Q.
Proof.
  unfold add_if_truthy, plus_assign.
  destruct v as [[| [] | q | s | l | l]|]; simpl; intros H;
    try discriminate; try (injection H as <-; ring).
  - destruct (Qeq_bool q 0) eqn:Hq; simpl in H; injection H as <-.
    + apply Qeq_bool_iff in Hq. rewrite Hq. ring.
    + reflexivity.
  - destruct (String.eqb s ""); simpl in H; [injection H as <-; ring | done].
Qed.

Lemma claude_accumulate_spec ev st st' :
  claude_accumulate ev st = Some st' -> accumulated ev st st'.
Proof.
  unfold claude_accumulate. intros H.
  destruct (add_if_truthy (inputTokens st) _) as [i|] eqn:Hi; [|done].
  simpl in H.
  destruct (add_if_truthy (outputTokens st) _) as [o|] eqn:Ho; [|done].
  simpl in H.
  destruct (add_cache (cacheReadTokens st) _) as [cr|]; [|done]. simpl in H.
  destruct (add_cache (cacheCreationTokens st) _) as [cc|]; [|done].
  simpl in H.
  destruct (add_if_truthy (costUsd st) _) as [c|] eqn:Hc; [|done].
  simpl in H.
  destruct (track_timestamp _ _) as [st1|] eqn:Hts; [|done]. simpl in H.
  pose proof (track_model_totals _ _ _ H) as (Ti & To & Tc).
  apply track_model_marks in H as (Mm & Mf & Ml & Md).
  pose proof (track_timestamp_totals _ _ _ Hts) as (Si & So & Sc).
  apply track_timestamp_marks in Hts as (Nm & Nd & Nl & Nf).
  simpl in *. split.
  - rewrite Ti, Si. by apply add_if_truthy_number.
  - rewrite To, So. by apply add_if_truthy_number.
  - rewrite Tc, Sc. by apply add_if_truthy_number.
  - by rewrite Mm, Nm.
  - by rewrite Ml, Nl.
  - by rewrite Mf, Nf.
  - by rewrite Md, Nd.
Qed.

Lemma line_effect_skip line st st' :
  claude_parsed line = None -> same_totals st' st -> same_marks st' st ->
  line_effect line st st'.
Proof.
  intros Hp (Hi & Ho & Hc) (Hm & Hf & Hl & Hd).
  split; unfold usage_of, cost_of, model_of, timestamp_of; rewrite ?Hp; simpl;
    rewrite ?Hi, ?Ho, ?Hc; try ring; try done.
  by destruct (present (firstMessage st)).
Qed.

Lemma claudeLine_effect st line st' :
  claudeLine st line = Some st' -> line_effect line st st'.
Proof.
  unfold claudeLine. intros H.
  destruct (blank line) eqn:Hblank.
  { injection H as <-. apply line_effect_skip; [|done..].
    unfold claude_parsed. by rewrite Hblank. }
  destruct (JSON_parse line) as [event|] eqn:Hparse.
  2: { injection H as <-. apply line_effect_skip; [|done..].
       unfold claude_parsed. by rewrite Hblank, Hparse. }
  unfold claudeEvent in H.
  destruct (nullish (Some event)) eqn:Hnull.
  { injection H as <-. apply line_effect_skip; [|done..].
    unfold claude_parsed. by rewrite Hblank, Hparse, Hnull. }
  unfold claude_roles in H.
  match type of H with context [count_role ?u ?a ?s] =>
    pose proof (count_role_totals u a s) as Rt;
    pose proof (count_role_marks u a s) as Rm;
    set (st0 := count_role u a s) in *
  end.
  destruct (claude_tool_use (Some event)) as [tool|] eqn:Htool.
  2: { injection H as <-. apply line_effect_skip; [|done..].
       unfold claude_parsed. by rewrite Hblank, Hparse, Hnull, Htool. }
  apply bind_Some in H as (st1 & Hinc & H).
  assert (same_totals st1 st /\ same_marks st1 st) as [(Ei & Eo & Ec) (Em & Ef & El & Ed)].
  { destruct tool.
    - apply inc_toolUses_totals in Hinc as [? ?].
      unfold same_totals, same_marks in *. simpl in *. intuition congruence.
    - injection Hinc as <-. done. }
  apply claude_accumulate_spec in H as [Ai Ao Ac Am Al Af Ad].
  rewrite Ei in Ai. rewrite Eo in Ao. rewrite Ec in Ac. rewrite Em in Am.
  rewrite El in Al. rewrite Ef in Af. rewrite Ed in Ad.
  split; unfold usage_of, cost_of, model_of, timestamp_of, claude_parsed;
    rewrite ?Hblank, ?Hparse, ?Hnull, ?Htool; done.
Qed.

Lemma usage_sum_cons k line lines :
  usage_sum k (line :: lines) = (usage_of k line + usage_sum k lines)%Q.
Proof. reflexivity. Qed.

Lemma embedded_cost_cons line lines :
  embedded_cost (line :: lines) = (cost_of line + embedded_cost lines)%Q.
Proof. reflexivity. Qed.

Lemma omap_cons_eq {A B : Type} (f : A -> option B) (x : A) (l : list A) :
  omap f (x :: l) = match f x with
                    | Some y => y :: omap f l
                    | None => omap f l
                    end.
Proof. reflexivity. Qed.


Lemma foldM_claudeLine_effect lines st st' :
  foldM claudeLine lines st = Some st' -> file_effect lines st st'.
Proof.
  revert st. induction lines as [|line lines IH]; intros st.
  - intros [= <-]. split; try done.
    + change (usage_sum "input_tokens" []) with 0%Q. ring.
    + change (usage_sum "output_tokens" []) with 0%Q. ring.
    + change (embedded_cost []) with 0%Q. ring.
    + simpl. by destruct (present (firstMessage st)).
  - intros H. apply bind_Some in H as (st1 & Hline & H).
    apply claudeLine_effect in Hline as [Hi Ho Hc Hm Hl Hf Hd].
    apply IH in H as [Ii Io Ic Im Il If Id].
    split.
    + rewrite usage_sum_cons, Ii, Hi. ring.
    + rewrite usage_sum_cons, Io, Ho. ring.
    + rewrite embedded_cost_cons, Ic, Hc. ring.
    + rewrite Im, Hm. unfold last_seen_model. rewrite omap_cons_eq.
      destruct (model_of line); simpl; [|done].
      rewrite last_cons. by destruct (last (omap model_of lines)).
    + rewrite Il, Hl. rewrite omap_cons_eq.
      destruct (timestamp_of line); simpl; [|done].
      rewrite last_cons. by destruct (last (omap timestamp_of lines)).
    + rewrite If, Hf. rewrite omap_cons_eq.
      destruct (present (firstMessage st)) eqn:Hp; [by rewrite Hp|].
      destruct (timestamp_of line) as [t|] eqn:Ht; simpl.
      * unfold timestamp_of in Ht. apply bind_Some in Ht as (e & _ & Ht).
        apply text_of_nonempty in Ht. simpl in Ht. by rewrite Ht.
      * by rewrite Hp.
    + congruence.
Qed.


Lemma price_tokens_fields guard st st' :
  price_tokens guard st = Some st' ->
  inputTokens st' = inputTokens st /\ outputTokens st' = outputTokens st
  /\ messages st' = messages st /\ userMessages st' = userMessages st
  /\ assistantMessages st' = assistantMessages st /\ same_marks st' st.
Proof.
  unfold price_tokens. intros H.
  destruct (guard && _); by simplify_option_eq.
Qed.

Lemma compute_duration_fields st st' :
  compute_duration st = Some st' ->
  same_totals st' st /\ model st' = model st
  /\ firstMessage st' = firstMessage st /\ lastMessage st' = lastMessage st.
Proof.
  unfold compute_duration. intros H.
  destruct (present _ && _); by simplify_option_eq.
Qed.

(** The three stages of [parseClaudeSession] on a readable file. *)
Lemma parseClaudeSession_stages (filePath : string) (lines : list string)
    (r : SessionStats) :
  readLines fs filePath = Some lines ->
  parseClaudeSession fs filePath = Some r ->
  exists st1 st2,
    file_effect lines (claude_initial filePath) st1
    /\ price_tokens (Qeq_bool (costUsd st1) 0) st1 = Some st2
    /\ compute_duration st2 = Some r.
Proof.
  intros Hread H. unfold parseClaudeSession in H. rewrite Hread in H.
  apply bind_Some in H as (st1 & Hfold & H).
  apply bind_Some in H as (st2 & Hprice & H).
  exists st1, st2. auto using foldM_claudeLine_effect.
Qed.

(** When the tool-use test raises, [message.content] is an array that holds
    a [null]. *)
Lemma some_tool_use_raises (content : list json) :
  some_tool_use content = None -> JNull ∈ content.
Proof.
  induction content as [|c content IH]; [done|].
  cbn [some_tool_use]. destruct (nullish (Some c)) eqn:Hnull.
  { intros _. destruct c; try discriminate. by left. }
  destruct (str_is _ _); [done|]. intros H. right. by apply IH.
Qed.

Lemma claude_tool_use_raises (ev : option json) :
  claude_tool_use ev = None ->
  exists content,
    prop "content" (prop "message" ev) = Some (JArr content)
    /\ JNull ∈ content.
Proof.
  unfold claude_tool_use. destruct (str_is _ _); [done|].
  destruct (truthy _); [done|].
  destruct (prop "content" _) as [[| | | |content|]|]; try done.
  intros H. exists content. split; [done|]. by apply some_tool_use_raises.
Qed.

(** The lines that [JSON.parse] accepts and that are still not successfully
    parsed: the [null] document, and an event whose [message.content] holds
    a [null]. *)
Lemma claude_parsed_or_malformed (line : string) (event : json) :
  blank line = false ->
  JSON_parse line = Some event ->
  claude_parsed line = Some event
  \/ event = JNull
  \/ exists content,
       prop "content" (prop "message" (Some event)) = Some (JArr content)
       /\ JNull ∈ content.
Proof.
  intros Hblank Hparse. unfold claude_parsed. rewrite Hblank, Hparse.
  destruct (nullish (Some event)) eqn:Hnull.
  { right. left. by destruct event. }
  destruct (claude_tool_use (Some event)) eqn:Htool; [by left|].
  right. right. by apply claude_tool_use_raises.
Qed.

(** C2.  Provider A counts tokens additively.  For a file that can be read
    and is parsed to a record [r], the input tokens of [r] are the sum of the
    [input_tokens] usage fields over the successfully parsed lines of the
    file, and the output tokens the sum of the [output_tokens] fields (a line
    is successfully parsed when the body of its [try] completes, see
    [claude_parsed]). *)
Theorem claude_tokens_additive (filePath : string) (lines : list string)
    (r : SessionStats) :
  readLines fs filePath = Some lines ->
  parseClaudeSession fs filePath = Some r ->
  (inputTokens r == usage_sum "input_tokens" lines)%Q
  /\ (outputTokens r == usage_sum "output_tokens" lines)%Q.
Proof.
  intros Hread H.
  destruct (parseClaudeSession_stages _ _ _ Hread H)
    as (st1 & st2 & [Hi Ho _ _ _ _ _] & Hprice & Hdur).
  apply compute_duration_fields in Hdur as ((-> & -> & _) & _).
  apply price_tokens_fields in Hprice as (-> & -> & _).
  simpl in Hi, Ho. rewrite Hi, Ho. split; ring.
Qed.

Lemma Qgtb_false (x : Q) : Qgtb x 0 = false -> (x <= 0)%Q.
Proof.
  unfold Qgtb. intros H. apply negb_false_iff in H. by apply Qle_bool_iff.
Qed.

(** C8.  The cost fallback of Provider A.  When the embedded costs of the
    lines sum to 0 and the summed token counts (counts: not negative) are not
    both 0, the cost of the record is
    [inputTokens / 1e6 * input + outputTokens / 1e6 * output], at the prices
    [getModelPricing] gives for the last-seen model of the file, which is the
    model of the record. *)
Theorem claude_cost_fallback (filePath : string) (lines : list string)
    (r : SessionStats) :
  readLines fs filePath = Some lines ->
  parseClaudeSession fs filePath = Some r ->
  (embedded_cost lines == 0)%Q ->
  (0 <= usage_sum "input_tokens" lines)%Q ->
  (0 <= usage_sum "output_tokens" lines)%Q ->
  ~ ((usage_sum "input_tokens" lines == 0)%Q
     /\ (usage_sum "output_tokens" lines == 0)%Q) ->
  model r = last_seen_model lines
  /\ exists pricing,
       getModelPricing (last_seen_model lines) = Some pricing
       /\ costUsd r = (inputTokens r / 1000000 * input pricing
                       + outputTokens r / 1000000 * output pricing)%Q.
Proof.
  intros Hread H Hcost Hin Hout Hsome.
  destruct (parseClaudeSession_stages _ _ _ Hread H)
    as (st1 & st2 & [Hi Ho Hc Hm _ _ _] & Hprice & Hdur).
  simpl in Hi, Ho, Hc, Hm.
  apply compute_duration_fields in Hdur as ((-> & -> & ->) & -> & _).
  unfold price_tokens in Hprice.
  assert (Qeq_bool (costUsd st1) 0 = true) as G1.
  { apply Qeq_bool_iff. rewrite Hc, Hcost. ring. }
  assert (Qgtb (inputTokens st1) 0 || Qgtb (outputTokens st1) 0 = true) as G2.
  { destruct (Qgtb (inputTokens st1) 0) eqn:Gi; [done|].
    destruct (Qgtb (outputTokens st1) 0) eqn:Go; [done|].
    apply Qgtb_false in Gi, Go. rewrite Hi in Gi. rewrite Ho in Go.
    rewrite Qplus_0_l in Gi, Go. exfalso. apply Hsome.
    split; by apply Qle_antisym. }
  rewrite G1, G2 in Hprice. simpl in Hprice. apply bind_Some in Hprice as (c & Hcalc & [= <-]).
  unfold calculateCost in Hcalc.
  apply bind_Some in Hcalc as (pricing & Hpricing & [= <-]). simpl.
  assert (model st1 = last_seen_model lines) as Hmodel.
  { rewrite Hm. by destruct (last_seen_model lines). }
  split; [done|]. exists pricing. by rewrite <- Hmodel.
Qed.

Lemma head_omap_Some {A B : Type} (f : A -> option B) (l : list A) (y : B) :
  head (omap f l) = Some y -> exists x, f x = Some y.
Proof.
  induction l as [|x l IH]; [done|]. rewrite omap_cons_eq.
  destruct (f x) as [y'|] eqn:Hx; [|done]. intros [= <-]. eauto.
Qed.

Lemma head_last_present {A : Type} (l : list A) x :
  head l = Some x -> is_Some (last l).
Proof. destruct l; [done|]. intros _. rewrite last_cons. by destruct (last l). Qed.

Lemma last_omap_Some {A B : Type} (f : A -> option B) (l : list A) (y : B) :
  last (omap f l) = Some y -> exists x, f x = Some y.
Proof.
  induction l as [|x l IH]; [done|]. rewrite omap_cons_eq.
  destruct (f x) as [y'|] eqn:Hx; [|done]. rewrite last_cons.
  destruct (last (omap f l)); [done|]. intros [= <-]. eauto.
Qed.

Lemma timestamp_of_present line t :
  timestamp_of line = Some t -> present (Some t) = true.
Proof.
  unfold timestamp_of. intros H. apply bind_Some in H as (e & _ & H).
  by apply text_of_nonempty in H.
Qed.

(** X17.  Provider A takes its time span from the order of the file, not
    from the order of the dates: [firstMessage] is the first time stamp of
    the file, [lastMessage] the last one, and [duration] is their difference
    in milliseconds, 0 when the last one is the earlier date. *)
Lemma claude_duration (filePath : string) (lines : list string)
    (r : SessionStats) (first final : string) :
  readLines fs filePath = Some lines ->
  parseClaudeSession fs filePath = Some r ->
  head (omap timestamp_of lines) = Some first ->
  last (omap timestamp_of lines) = Some final ->
  firstMessage r = Some first /\ lastMessage r = Some final
  /\ exists start finish,
       Date_getTime first = Some start /\ Date_getTime final = Some finish
       /\ duration r = Z.max 0 (finish - start).
Proof.
  intros Hread H Hfirst Hlast.
  destruct (parseClaudeSession_stages _ _ _ Hread H)
    as (st1 & st2 & [_ _ _ _ Hl Hf _] & Hprice & Hdur).
  simpl in Hl, Hf. rewrite Hfirst in Hf. rewrite Hlast in Hl. simpl in Hl, Hf.
  apply price_tokens_fields in Hprice as (_ & _ & _ & _ & _ & _ & F & L & _).
  rewrite Hf in F. rewrite Hl in L.
  destruct (head_omap_Some _ _ _ Hfirst) as (l1 & P1%timestamp_of_present).
  destruct (last_omap_Some _ _ _ Hlast) as (l2 & P2%timestamp_of_present).
  unfold compute_duration in Hdur. rewrite F, L, P1, P2 in Hdur. simpl in Hdur.
  apply bind_Some in Hdur as (start & Hs & Hdur).
  apply bind_Some in Hdur as (finish & He & [= <-]). simpl.
  rewrite F, L. eauto 10.
Qed.

(** ** Provider B: cumulative counters *)

Lemma as_number_carries (field : option json) (n : Q) :
  as_number (js_or field (Some (JNum 0))) = Some n -> carries field n.
Proof.
  unfold js_or, carries. destruct (truthy field).
  - destruct field as [[]|]; simpl; congruence.
  - simpl. congruence.
Qed.

Lemma is_token_count_not_meta (ev : option json) :
  is_token_count ev = true -> str_is (prop "type" ev) "session_meta" = false.
Proof.
  unfold is_token_count. intros H.
  destruct (str_is (prop "type" ev) "event_msg") eqn:Ht; [|done].
  unfold str_is in *. destruct (prop "type" ev) as [[]|]; try done.
  apply String.eqb_eq in Ht as ->. reflexivity.
Qed.

Lemma is_token_count_not_null (ev : option json) :
  is_token_count ev = true -> nullish ev = false.
Proof.
  unfold is_token_count. destruct ev as [[]|]; simpl; done.
Qed.

Lemma codex_accumulate_totals ev st st' :
  codex_accumulate ev st = Some st' ->
  if is_token_count ev
  then carries (prop "input_tokens" (total_token_usage ev)) (lastTotalInput st')
       /\ carries (prop "output_tokens" (total_token_usage ev))
                  (lastTotalOutput st')
  else same_running_totals st' st.
Proof.
  unfold codex_accumulate, codex_totals. intros H.
  apply bind_Some in H as ([i o] & Htotals & H).
  apply bind_Some in H as (s1 & _ & H).
  apply bind_Some in H as (s2 & _ & H). injection H as <-. simpl.
  destruct (is_token_count ev).
  - apply bind_Some in Htotals as (i' & Hi & Htotals).
    apply bind_Some in Htotals as (o' & Ho & Htotals).
    injection Htotals as <- <-. auto using as_number_carries.
  - by injection Htotals as <- <-.
Qed.

Lemma codexLine_totals st line st' :
  codexLine st line = Some st' ->
  match JSON_parse line with
  | Some e =>
      if is_token_count (Some e)
      then carries (prop "input_tokens" (total_token_usage (Some e)))
                   (lastTotalInput st')
           /\ carries (prop "output_tokens" (total_token_usage (Some e)))
                      (lastTotalOutput st')
      else same_running_totals st' st
  | None => same_running_totals st' st
  end.
Proof.
  unfold codexLine. destruct (JSON_parse line) as [e|]; [|by intros [= <-]].
  unfold codexEvent.
  destruct (is_token_count (Some e)) eqn:Htc.
  - rewrite (is_token_count_not_null _ Htc). unfold codex_project.
    rewrite (is_token_count_not_meta _ Htc). simpl. intros H.
    apply codex_accumulate_totals in H. by rewrite Htc in H.
  - destruct (nullish (Some e)); [by intros [= <-]|].
    destruct (codex_project _ _); [|by intros [= <-]].
    intros H. apply codex_accumulate_totals in H. by rewrite Htc in H.
Qed.


Lemma foldM_codexLine_totals lines st st' :
  foldM codexLine lines st = Some st' ->
  match last_token_count (omap JSON_parse lines) with
  | Some e =>
      carries (prop "input_tokens" (total_token_usage (Some e)))
              (lastTotalInput st')
      /\ carries (prop "output_tokens" (total_token_usage (Some e)))
                 (lastTotalOutput st')
  | None => same_running_totals st' st
  end.
Proof.
  unfold last_token_count.
  revert st. induction lines as [|line lines IH]; intros st.
  - by intros [= <-].
  - intros H. apply bind_Some in H as (st1 & Hline & H).
    apply codexLine_totals in Hline. apply IH in H.
    rewrite omap_cons_eq.
    destruct (JSON_parse line) as [e|].
    + rewrite filter_cons.
      destruct (decide (is_token_count (Some e) = true)) as [Htc|Htc].
      * rewrite last_cons. rewrite Htc in Hline.
        destruct (last (filter _ (omap JSON_parse lines))); [done|].
        by destruct H as [-> ->].
      * apply not_true_is_false in Htc. rewrite Htc in Hline.
        destruct (last (filter _ (omap JSON_parse lines))); [done|].
        unfold same_running_totals in *. intuition congruence.
    + destruct (last (filter _ (omap JSON_parse lines))); [done|].
      unfold same_running_totals in *. intuition congruence.
Qed.


(** C1.  Provider B counts tokens cumulatively.  For a [.jsonl] file that
    can be read and is parsed to a record [r], the input and output tokens of
    [r] are the values that the last token_count event of the file carries
    (a field that is absent counts as 0), not a sum over the events; without
    such an event both are 0. *)
Theorem codex_tokens_last_wins (filePath content : string) (r : SessionStats) :
  endsWith filePath ".jsonl" = true ->
  readFileSync fs filePath = Some content ->
  parseCodexSession fs filePath = Some r ->
  match last_token_count (events_of content) with
  | Some e =>
      carries (prop "input_tokens" (total_token_usage (Some e))) (inputTokens r)
      /\ carries (prop "output_tokens" (total_token_usage (Some e)))
                 (outputTokens r)
  | None => inputTokens r = 0%Q /\ outputTokens r = 0%Q
  end.
Proof.
  intros Hext Hread H. unfold parseCodexSession in H.
  rewrite Hread, Hext in H. apply bind_Some in H as (st & Hfold & H).
  apply price_tokens_fields in H as (-> & -> & _). simpl.
  apply foldM_codexLine_totals in Hfold. unfold events_of.
  destruct (last_token_count _); [done|]. by destruct Hfold as [-> ->].
Qed.

Lemma foldM_invariant {A B : Type} (f : B -> A -> option B) (P : B -> Prop)
    (l : list A) (acc acc' : B) :
  (forall a x a', P a -> f a x = Some a' -> P a') ->
  P acc -> foldM f l acc = Some acc' -> P acc'.
Proof.
  intros Hstep. revert acc. induction l as [|x l IH]; intros acc Hacc.
  - by intros [= <-].
  - intros H. apply bind_Some in H as (a1 & Hx & H). eauto.
Qed.

Lemma codex_roles_duration ev st :
  duration (codex_roles ev st) = duration st.
Proof.
  unfold codex_roles.
  repeat case_match;
    rewrite ?(proj2 (proj2 (proj2 (count_role_marks _ _ _)))); done.
Qed.

Lemma codex_model_duration ev st st' :
  codex_model ev st = Some st' -> duration st' = duration st.
Proof.
  unfold codex_model. intros H. destruct (_ && _); by simplify_option_eq.
Qed.

Lemma codexLine_duration st line st' :
  codexLine st line = Some st' ->
  duration (cl_stats st') = duration (cl_stats st).
Proof.
  unfold codexLine. destruct (JSON_parse line) as [e|]; [|by intros [= <-]].
  unfold codexEvent. destruct (nullish (Some e)); [by intros [= <-]|].
  destruct (codex_project _ _) as [s0|] eqn:Hproject; [|by intros [= <-]].
  assert (duration s0 = duration (cl_stats st)) as <-.
  { unfold codex_project in Hproject.
    destruct (_ && _); [|by injection Hproject as <-].
    destruct (prop "cwd" _) as [[]|]; try done. by injection Hproject as <-. }
  unfold codex_accumulate. intros H.
  apply bind_Some in H as (totals & _ & H).
  apply bind_Some in H as (s1 & Hmodel & H).
  apply bind_Some in H as (s2 & Hts & [= <-]). simpl.
  apply track_timestamp_marks in Hts as (_ & -> & _).
  apply codex_model_duration in Hmodel as ->. apply codex_roles_duration.
Qed.

Lemma with_role_cons (role : string) (msg : json) (data : list json) :
  with_role role (msg :: data)
  = (if str_is (prop "role" (Some msg)) role then 1 else 0)
    + with_role role data.
Proof.
  unfold with_role. rewrite filter_cons.
  destruct (str_is (prop "role" (Some msg)) role);
    [by rewrite decide_True | by rewrite decide_False].
Qed.

Lemma count_role_counts (u a : bool) (st : SessionStats) :
  userMessages (count_role u a st)
    = userMessages st + (if u then 1 else 0)
  /\ assistantMessages (count_role u a st)
       = assistantMessages st + (if u then 0 else if a then 1 else 0)
  /\ messages (count_role u a st) = messages st.
Proof. unfold count_role. destruct u, a; simpl; lia. Qed.

Lemma str_is_user_not_assistant (v : option json) :
  str_is v "user" = true -> str_is v "assistant" = false.
Proof.
  unfold str_is. destruct v as [[]|]; try done.
  intros ->%String.eqb_eq. reflexivity.
Qed.

Lemma codexArray_spec (data : list json) (st : SessionStats) :
  userMessages (codexArray data st).1
    = userMessages st + with_role "user" (scanned data)
  /\ assistantMessages (codexArray data st).1
       = assistantMessages st + with_role "assistant" (scanned data)
  /\ messages (codexArray data st).1 = messages st
  /\ same_totals (codexArray data st).1 st
  /\ same_marks (codexArray data st).1 st.
Proof.
  revert st. induction data as [|msg data IH]; intros st;
    cbn [codexArray scanned].
  - unfold with_role, same_totals, same_marks. simpl. split_and!; (lia || done).
  - destruct (nullish (Some msg)) eqn:Hnull.
    { unfold with_role, same_totals, same_marks. simpl.
      split_and!; (lia || done). }
    set (u := str_is (prop "role" (Some msg)) "user").
    set (a := str_is (prop "role" (Some msg)) "assistant").
    destruct (IH (count_role u a st)) as (-> & -> & -> & Ht & Hm).
    destruct (count_role_counts u a st) as (-> & -> & ->).
    rewrite !with_role_cons. fold u a.
    pose proof (str_is_user_not_assistant (prop "role" (Some msg))) as Hx.
    fold u a in Hx.
    pose proof (count_role_totals u a st). pose proof (count_role_marks u a st).
    unfold same_totals, same_marks in *.
    split_and!; try (intuition congruence).
    + lia.
    + destruct u; [rewrite Hx by done|]; lia.
Qed.

Lemma scanned_all (data : list json) :
  Forall (fun msg => msg <> JNull) data -> scanned data = data.
Proof.
  induction 1 as [|msg data Hmsg _ IH]; [done|]. simpl.
  destruct msg; simpl; by rewrite ?IH.
Qed.

(** C10.  The whole-file array format of Provider B.  For a path that does
    not end in [.jsonl] and a content that [JSON.parse] reads as an array,
    the parser returns a record whose [messages] is the length of the array
    and whose user and assistant counts are the numbers of elements with role
    [user] and [assistant] among the elements the loop reads (all of them
    when no element is [null]); its tokens and cost are 0 and its model and
    both time stamps are [null]. *)
Theorem codex_array_file (filePath content : string) (data : list json) :
  endsWith filePath ".jsonl" = false ->
  readFileSync fs filePath = Some content ->
  JSON_parse content = Some (JArr data) ->
  exists r,
    parseCodexSession fs filePath = Some r
    /\ messages r = length data
    /\ userMessages r = with_role "user" (scanned data)
    /\ assistantMessages r = with_role "assistant" (scanned data)
    /\ (Forall (fun msg => msg <> JNull) data -> scanned data = data)
    /\ inputTokens r = 0%Q /\ outputTokens r = 0%Q /\ costUsd r = 0%Q
    /\ model r = None /\ firstMessage r = None /\ lastMessage r = None.
Proof.
  intros Hext Hread Hparse. unfold parseCodexSession.
  rewrite Hread, Hext, Hparse.
  pose proof (codexArray_spec data
                (set_messages (length data) (codex_initial filePath)))
    as (Hu & Ha & Hn & (Hi & Ho & Hc) & (Hm & Hf & Hl & Hd)).
  destruct (codexArray data _) as [st thrown]. simpl in *.
  assert (price_tokens true st = Some st) as Hprice.
  { unfold price_tokens. by rewrite Hi, Ho. }
  exists st. split; [by destruct thrown|].
  split_and!; auto using scanned_all.
Qed.

(** Provider B leaves the duration at 0: no statement of
    [parseCodexSession] assigns it. *)
Lemma codex_duration_zero (filePath : string) (r : SessionStats) :
  parseCodexSession fs filePath = Some r -> duration r = 0%Z.
Proof.
  unfold parseCodexSession. intros H.
  destruct (readFileSync fs filePath) as [content|]; [|by injection H as <-].
  destruct (endsWith filePath ".jsonl").
  - apply bind_Some in H as (st & Hfold & H).
    apply price_tokens_fields in H as (_ & _ & _ & _ & _ & _ & _ & _ & ->).
    simpl.
    apply (foldM_invariant codexLine
             (fun st => duration (cl_stats st) = 0%Z)) in Hfold; [done| |done].
    intros a x a' Ha Hx. apply codexLine_duration in Hx. congruence.
  - destruct (JSON_parse content) as [[| | | |data|]|];
      try (apply price_tokens_fields in H
             as (_ & _ & _ & _ & _ & _ & _ & _ & ->); done);
      try (by injection H as <-).
    pose proof (codexArray_spec data
                  (set_messages (length data) (codex_initial filePath)))
      as (_ & _ & _ & _ & (_ & _ & _ & Hd)).
    destruct (codexArray data _) as [st [|]]; simpl in *.
    + injection H as <-. done.
    + apply price_tokens_fields in H
        as (_ & _ & _ & _ & _ & _ & _ & _ & ->). done.
Qed.

Lemma geminiLine_marks st line st' :
  geminiLine st line = Some st' ->
  firstMessage st' = firstMessage st /\ lastMessage st' = lastMessage st
  /\ duration st' = duration st.
Proof.
  unfold geminiLine. destruct (JSON_parse line) as [e|]; [|by intros [= <-]].
  unfold geminiEvent. destruct (nullish (Some e)); [by intros [= <-]|].
  intros H. apply bind_Some in H as (s1 & Husage & H).
  apply track_model_marks in H as (_ & -> & -> & ->).
  destruct (count_role_marks (str_is (prop "role" (Some e)) "user")
              (str_is (prop "role" (Some e)) "model") (inc_messages st))
    as (_ & Hf & Hl & Hd).
  destruct (truthy _); [|injection Husage as <-; simpl in *; done].
  apply bind_Some in Husage as (i & _ & Husage).
  apply bind_Some in Husage as (o & _ & [= <-]). simpl in *. done.
Qed.

(** Provider C reads no time stamp: both stay [null] and the duration stays
    0. *)
Lemma gemini_no_timestamps (filePath : string) (r : SessionStats) :
  parseGeminiSession fs filePath = Some r ->
  firstMessage r = None /\ lastMessage r = None /\ duration r = 0%Z.
Proof.
  unfold parseGeminiSession. intros H.
  destruct (readFileSync fs filePath) as [content|]; [|by injection H as <-].
  apply bind_Some in H as (st & Hfold & H).
  apply price_tokens_fields in H as (_ & _ & _ & _ & _ & _ & -> & -> & ->).
  apply (foldM_invariant geminiLine
           (fun st => firstMessage st = None /\ lastMessage st = None
                      /\ duration st = 0%Z)) in Hfold; [done| |done].
  intros a x a' (Hf & Hl & Hd) Hx.
  apply geminiLine_marks in Hx as (-> & -> & ->). done.
Qed.

(** ** The sync orchestrator *)

(** C6.  A candidate file whose record has no message is not stored:
    processing it leaves the store (both tables, hence the session and file
    counts and every record) and the two counters of the loop as they
    were. *)
Theorem zero_messages_not_stored (clock : string -> Z) (p : Provider)
    (st : SyncLoop) (filePath : string) (session : SessionStats) :
  parseSession fs p filePath = Some session ->
  messages session = 0 ->
  syncFile fs clock p st filePath = Some st.
Proof.
  intros Hparse Hzero. unfold syncFile.
  destruct (statSync fs filePath) as [[mtime size]|]; [|done].
  destruct (Db.needsUpdate _ _ _ _); [|done].
  rewrite Hparse. simpl. by rewrite Hzero.
Qed.

(** *** Rows of the files table *)

Lemma find_update (g f : string) (u : Db.FileRecord -> Db.FileRecord)
    (l : list Db.FileRecord) :
  (forall r, Db.file_path (u r) = Db.file_path r) ->
  find (fun r => String.eqb (Db.file_path r) g)
       ((fun r => if String.eqb (Db.file_path r) f then u r else r) <$> l)
  = if String.eqb g f
    then u <$> find (fun r => String.eqb (Db.file_path r) g) l
    else find (fun r => String.eqb (Db.file_path r) g) l.
Proof.
  intros Hu. induction l as [|r l IH].
  - simpl. by destruct (String.eqb g f).
  - rewrite fmap_cons. cbn [find].
    destruct (String.eqb_spec (Db.file_path r) f) as [Hf|Hf].
    + rewrite Hu. destruct (String.eqb_spec (Db.file_path r) g) as [Hg|Hg].
      * rewrite <- Hg, Hf, String.eqb_refl. done.
      * rewrite IH. done.
    + destruct (String.eqb_spec (Db.file_path r) g) as [Hg|Hg].
      * subst g. by apply String.eqb_neq in Hf as ->.
      * rewrite IH. done.
Qed.

Lemma find_app_new (g : string) (l : list Db.FileRecord) (r : Db.FileRecord) :
  find (fun r => String.eqb (Db.file_path r) g) (l ++ [r])
  = match find (fun r => String.eqb (Db.file_path r) g) l with
    | Some x => Some x
    | None => if String.eqb (Db.file_path r) g then Some r else None
    end.
Proof.
  induction l as [|x l IH]; simpl; [done|].
  by destruct (String.eqb (Db.file_path x) g).
Qed.

Lemma existsb_find (g : string) (l : list Db.FileRecord) :
  existsb (fun r => String.eqb (Db.file_path r) g) l
  = match find (fun r => String.eqb (Db.file_path r) g) l with
    | Some _ => true
    | None => false
    end.
Proof.
  induction l as [|x l IH]; simpl; [done|].
  by destruct (String.eqb (Db.file_path x) g).
Qed.

Lemma needsUpdate_upsertSession d session g m s :
  Db.needsUpdate (Db.upsertSession d session) g m s = Db.needsUpdate d g m s.
Proof. reflexivity. Qed.

Lemma needsUpdate_upsertFileRecord_same d f p m s now :
  Db.needsUpdate (Db.upsertFileRecord d f p m s now) f m s = false.
Proof.
  unfold Db.needsUpdate, Db.getFileRecord, Db.upsertFileRecord. simpl.
  rewrite existsb_find.
  destruct (find _ (Db.files d)) as [r|] eqn:Hfind.
  - rewrite find_update by done. rewrite String.eqb_refl, Hfind. simpl.
    by rewrite !Z.eqb_refl.
  - rewrite find_app_new, Hfind. simpl. rewrite String.eqb_refl. simpl.
    by rewrite !Z.eqb_refl.
Qed.

Lemma needsUpdate_upsertFileRecord_other d f g p m s now m' s' :
  g <> f ->
  Db.needsUpdate (Db.upsertFileRecord d f p m s now) g m' s'
  = Db.needsUpdate d g m' s'.
Proof.
  intros Hne.
  unfold Db.needsUpdate, Db.getFileRecord, Db.upsertFileRecord. simpl.
  destruct (existsb _ (Db.files d)).
  - rewrite find_update by done. by apply String.eqb_neq in Hne as ->.
  - rewrite find_app_new. simpl.
    destruct (find _ (Db.files d)); [done|].
    assert (String.eqb f g = false) as ->; [|done].
    apply String.eqb_neq. congruence.
Qed.

Lemma find_delete_other (g h : string) (l : list Db.FileRecord) :
  g <> h ->
  find (fun r => String.eqb (Db.file_path r) g)
       (filter (fun r => String.eqb (Db.file_path r) h = false) l)
  = find (fun r => String.eqb (Db.file_path r) g) l.
Proof.
  intros Hne. induction l as [|r l IH]; [done|]. rewrite filter_cons.
  destruct (decide (String.eqb (Db.file_path r) h = false)) as [Hh|Hh]; simpl.
  - by rewrite IH.
  - apply not_false_is_true, String.eqb_eq in Hh. rewrite IH.
    assert (String.eqb (Db.file_path r) g = false) as ->; [|done].
    apply String.eqb_neq. congruence.
Qed.

Lemma needsUpdate_deleteFile_other d g h m s :
  g <> h -> Db.needsUpdate (Db.deleteFile d h) g m s = Db.needsUpdate d g m s.
Proof.
  intros Hne. unfold Db.needsUpdate, Db.getFileRecord, Db.deleteFile. simpl.
  by rewrite find_delete_other.
Qed.

(** *** The deletion pass *)

Lemma cleanup_loop_kept existing acc paths :
  Forall (fun h => h ∈ existing) paths -> Db.cleanup_loop existing acc paths = acc.
Proof.
  intros H. revert acc. induction H as [|h paths Hh _ IH]; intros acc; [done|].
  simpl. rewrite bool_decide_eq_true_2 by done. apply IH.
Qed.

Lemma cleanup_loop_needsUpdate existing acc paths g m s :
  g ∈ existing ->
  Db.needsUpdate (Db.cleanup_loop existing acc paths).2 g m s
  = Db.needsUpdate acc.2 g m s.
Proof.
  intros Hg. revert acc. induction paths as [|h paths IH]; intros acc; [done|].
  simpl. destruct (decide (h ∈ existing)) as [Hh|Hh].
  - rewrite bool_decide_eq_true_2 by done. apply IH.
  - rewrite bool_decide_eq_false_2 by done.
    change (foldl _ ?a paths) with (Db.cleanup_loop existing a paths).
    rewrite IH. simpl. apply needsUpdate_deleteFile_other. congruence.
Qed.

Lemma deleteFile_files d h r :
  r ∈ Db.files (Db.deleteFile d h) <->
  r ∈ Db.files d /\ Db.file_path r <> h.
Proof.
  unfold Db.deleteFile. simpl. rewrite list_elem_of_filter.
  rewrite String.eqb_neq. tauto.
Qed.

Lemma cleanup_loop_files existing acc paths r :
  r ∈ Db.files (Db.cleanup_loop existing acc paths).2 <->
  r ∈ Db.files acc.2
  /\ forall h, h ∈ paths -> h ∉ existing -> Db.file_path r <> h.
Proof.
  revert acc. induction paths as [|h paths IH]; intros acc.
  - simpl. split; [|tauto]. intros H. split; [done|]. by intros h Hh%elem_of_nil.
  - simpl. change (foldl _ ?a paths) with (Db.cleanup_loop existing a paths).
    rewrite IH. destruct (decide (h ∈ existing)) as [Hh|Hh].
    + rewrite bool_decide_eq_true_2 by done. split.
      * intros [H1 H2]. split; [done|]. intros h' [->|Hh']%elem_of_cons; auto.
      * intros [H1 H2]. split; [done|]. intros h' Hh'. apply H2. by right.
    + rewrite bool_decide_eq_false_2 by done. cbn [fst snd].
      rewrite deleteFile_files. split.
      * intros [[H1 H3] H2]. split; [done|].
        intros h' [->|Hh']%elem_of_cons; auto.
      * intros [H1 H2]. split_and!; [done| |].
        -- apply H2; [by left | done].
        -- intros h' Hh'. apply H2. by right.
Qed.

Lemma getTrackedFiles_elem d p h :
  h ∈ Db.getTrackedFiles d p <->
  exists r, r ∈ Db.files d /\ Db.file_provider r = p /\ Db.file_path r = h.
Proof.
  unfold Db.getTrackedFiles. rewrite list_elem_of_fmap. split.
  - intros (r & -> & Hr%list_elem_of_filter). exists r.
    destruct Hr as [Hp Hr]. split_and!; [done| |done].
    by destruct (Db.file_provider r), p.
  - intros (r & Hr & <- & <-). exists r. split; [done|].
    apply list_elem_of_filter. split; [|done]. by destruct (Db.file_provider r).
Qed.

(** A second deletion pass over the same files finds nothing to delete. *)
Lemma cleanupDeletedFiles_idempotent d p existing :
  Db.cleanupDeletedFiles (Db.cleanupDeletedFiles d p existing).2 p existing
  = (0, (Db.cleanupDeletedFiles d p existing).2).
Proof.
  unfold Db.cleanupDeletedFiles at 1.
  apply cleanup_loop_kept. apply Forall_forall. intros h Hh.
  apply getTrackedFiles_elem in Hh as (r & Hr & Hp & Hpath).
  unfold Db.cleanupDeletedFiles in Hr.
  apply cleanup_loop_files in Hr as [Hr Hkept]. simpl in Hr.
  destruct (decide (h ∈ existing)) as [|Hout]; [done|].
  exfalso. apply (Hkept h); [|done..].
  apply getTrackedFiles_elem. eauto.
Qed.


(** *** The sync loop *)

Lemma syncFile_up_to_date clock p st f st' g :
  syncFile fs clock p st f = Some st' ->
  up_to_date fs (loop_db st) g -> up_to_date fs (loop_db st') g.
Proof.
  unfold syncFile, up_to_date. intros H Hg.
  destruct (statSync fs f) as [[mtime size]|] eqn:Hstat;
    [|by injection H as <-].
  destruct (Db.needsUpdate (loop_db st) f mtime size); [|by injection H as <-].
  apply bind_Some in H as (session & _ & H).
  destruct (0 <? messages session); [|by injection H as <-].
  injection H as <-. simpl.
  destruct (decide (g = f)) as [->|Hne].
  - rewrite Hstat. apply needsUpdate_upsertFileRecord_same.
  - destruct (statSync fs g) as [[m s]|]; [|done].
    by rewrite needsUpdate_upsertFileRecord_other, needsUpdate_upsertSession.
Qed.

Lemma syncFile_settles clock p st f st' :
  syncFile fs clock p st f = Some st' -> settled fs p (loop_db st') f.
Proof.
  unfold syncFile, settled, up_to_date. intros H.
  destruct (statSync fs f) as [[mtime size]|] eqn:Hstat; [|by left].
  destruct (Db.needsUpdate (loop_db st) f mtime size) eqn:Hneeds.
  2: { injection H as <-. by left. }
  apply bind_Some in H as (session & Hparse & H).
  destruct (0 <? messages session) eqn:Hmessages.
  - injection H as <-. left. simpl. apply needsUpdate_upsertFileRecord_same.
  - injection H as <-. right. exists session. split; [done|].
    apply Nat.ltb_ge in Hmessages. lia.
Qed.

Lemma syncFile_settled clock p st f :
  settled fs p (loop_db st) f -> syncFile fs clock p st f = Some st.
Proof.
  unfold syncFile, settled, up_to_date. intros H.
  destruct (statSync fs f) as [[mtime size]|]; [|done].
  destruct H as [->|(session & Hparse & Hzero)]; [done|].
  destruct (Db.needsUpdate _ _ _ _); [|done].
  rewrite Hparse. simpl. by rewrite Hzero.
Qed.

Lemma foldM_syncFile_up_to_date clock p files st st' g :
  foldM (syncFile fs clock p) files st = Some st' ->
  up_to_date fs (loop_db st) g -> up_to_date fs (loop_db st') g.
Proof.
  revert st. induction files as [|f files IH]; intros st.
  - by intros [= <-].
  - intros H Hg. apply bind_Some in H as (st1 & Hf & H).
    eauto using syncFile_up_to_date.
Qed.

Lemma foldM_syncFile_settles clock p files st st' :
  foldM (syncFile fs clock p) files st = Some st' ->
  Forall (settled fs p (loop_db st')) files.
Proof.
  revert st. induction files as [|f files IH]; intros st.
  - by intros [= <-].
  - intros H. apply bind_Some in H as (st1 & Hf & H). constructor; [|eauto].
    destruct (syncFile_settles _ _ _ _ _ Hf) as [Hup|Hzero]; [|by right].
    left. eauto using foldM_syncFile_up_to_date.
Qed.

Lemma foldM_syncFile_settled clock p files st :
  Forall (settled fs p (loop_db st)) files ->
  foldM (syncFile fs clock p) files st = Some st.
Proof.
  induction 1 as [|f files Hf _ IH]; [done|]. simpl.
  by rewrite syncFile_settled.
Qed.

Lemma cleanup_settled p d existing f :
  f ∈ existing -> settled fs p d f ->
  settled fs p (Db.cleanupDeletedFiles d p existing).2 f.
Proof.
  intros Hf [Hup|Hzero]; [left | by right].
  unfold up_to_date in *. destruct (statSync fs f) as [[m s]|]; [|done].
  unfold Db.cleanupDeletedFiles. by rewrite cleanup_loop_needsUpdate.
Qed.

(** C4.  Resync is idempotent.  When [syncProvider] has run on a store
    and a file system, a second run on the store it left, with the same file
    system (whatever the clock shows by then), returns
    [{added: 0, updated: 0, deleted: 0}] and leaves that store as it is. *)
Theorem syncProvider_idempotent (clock clock' : string -> Z) (p : Provider)
    (d d1 : Db.Database) (counts : SyncCounts) :
  syncProvider fs clock p d = Some (counts, d1) ->
  syncProvider fs clock' p d1
  = Some ({| added := 0; updated := 0; deleted := 0 |}, d1).
Proof.
  unfold syncProvider.
  destruct (negb (nonempty (SESSION_DIRS p))
            || negb (existsSync fs (SESSION_DIRS p))); [by intros [= _ <-]|].
  intros H. apply bind_Some in H as (st & Hfold & [= _ <-]).
  set (files := sessionFiles fs (SESSION_DIRS p)) in *.
  set (existing := list_to_set files : gset string).
  set (d1 := (Db.cleanupDeletedFiles (loop_db st) p existing).2).
  assert (Forall (settled fs p d1) files) as Hsettled.
  { apply Forall_forall. intros f Hf. apply cleanup_settled.
    - by apply elem_of_list_to_set.
    - apply foldM_syncFile_settles in Hfold.
      by eapply Forall_forall in Hfold. }
  rewrite (foldM_syncFile_settled clock' p files
             {| loop_db := d1; loop_added := 0; loop_updated := 0 |})
    by done.
  simpl. unfold d1. by rewrite cleanupDeletedFiles_idempotent.
Qed.

(** ** The read path and the recent sessions *)

(** C9, amended.  [getSessions(provider)] has three cases.  When the cache
    holds a snapshot for the provider and the last [syncAll] is less than
    [syncInterval] old, it returns the snapshot and touches neither the
    store nor the cache.  Otherwise, when the provider's root directory is
    missing, it returns the empty list, runs no sync, reads nothing from the
    store and leaves the cache as it is.  Otherwise it runs [syncProvider],
    returns the provider's sessions read from the store and makes them the
    snapshot. *)
Theorem getSessions_cases (clock : string -> Z) (now : Z) (sp : SessionParser)
    (p : Provider) :
  (forall snapshot,
     cache sp !! cacheKey p = Some snapshot ->
     (now - lastSyncTime sp < syncInterval)%Z ->
     getSessions fs clock now sp p = Some (snapshot, sp))
  /\ (served_from_cache now sp p = None ->
      available fs p = false ->
      getSessions fs clock now sp p = Some ([], sp))
  /\ (served_from_cache now sp p = None ->
      available fs p = true ->
      forall counts d,
        syncProvider fs clock p (db sp) = Some (counts, d) ->
        getSessions fs clock now sp p
        = Some (Db.getSessions d p,
                {| cache := <[cacheKey p := Db.getSessions d p]> (cache sp);
                   db := d; lastSyncTime := lastSyncTime sp |})).
Proof.
  unfold getSessions, served_from_cache, available. split_and!.
  - intros snapshot -> Hrecent. apply Z.ltb_lt in Hrecent. by rewrite Hrecent.
  - intros Hmiss Hdir.
    assert (negb (nonempty (SESSION_DIRS p))
            || negb (existsSync fs (SESSION_DIRS p)) = true) as ->.
    { rewrite <- negb_andb. by rewrite Hdir. }
    destruct (cache sp !! cacheKey p); [|done]. simpl in Hmiss.
    by destruct (_ <? _)%Z.
  - intros Hmiss Hdir counts d Hsync.
    assert (negb (nonempty (SESSION_DIRS p))
            || negb (existsSync fs (SESSION_DIRS p)) = false) as ->.
    { rewrite <- negb_andb. by rewrite Hdir. }
    rewrite Hsync. simpl.
    destruct (cache sp !! cacheKey p); [|done]. simpl in Hmiss.
    by destruct (_ <? _)%Z.
Qed.

(** *** Sorting *)

Lemma insert_by_perm {A : Type} (cmp : A -> A -> Z) (x : A) (l : list A) :
  insert_by cmp x l ≡ₚ x :: l.
Proof.
  induction l as [|y l IH]; simpl; [done|].
  destruct (cmp x y <=? 0)%Z; [done|]. rewrite IH. apply Permutation_swap.
Qed.

Lemma sort_by_perm {A : Type} (cmp : A -> A -> Z) (l : list A) :
  sort_by cmp l ≡ₚ l.
Proof.
  induction l as [|x l IH]; simpl; [done|].
  unfold sort_by in *. simpl. by rewrite insert_by_perm, IH.
Qed.





(** *** The recent sessions *)


End Properties.

(** * The properties on the files of the examples *)

Import Example.

(** Three token_count events with the totals 100/50, 250/120 and 400/200:
    the record holds 400 and 200. *)
Lemma codex_tokens_last_wins_example :
  exists r, parseCodexSession files codex_file = Some r
            /\ inputTokens r = 400%Q /\ outputTokens r = 200%Q.
Proof.
  destruct (parseCodexSession files codex_file) as [r|] eqn:Hr;
    [|vm_compute in Hr; discriminate].
  exists r. split; [reflexivity|].
  assert (endsWith codex_file ".jsonl" = true) as Hext by run.
  assert (readFileSync files codex_file = Some codex_log) as Hread by run.
  pose proof (codex_tokens_last_wins files codex_file codex_log r
                Hext Hread Hr) as H.
  vm_compute in H. destruct H as [Hi Ho].
  injection Hi as Hi. injection Ho as Ho.
  split; symmetry; [exact Hi | exact Ho].
Defined.

(** Three lines with the usage 10/5, 20/8 and 5/2: the record holds 35 and
    15. *)
Lemma claude_tokens_additive_example :
  exists r, parseClaudeSession files claude_file = Some r
            /\ (inputTokens r == 35)%Q /\ (outputTokens r == 15)%Q.
Proof.
  destruct (parseClaudeSession files claude_file) as [r|] eqn:Hr;
    [|vm_compute in Hr; discriminate].
  exists r. split; [reflexivity|].
  assert (readLines files claude_file = Some claude_lines) as Hread by run.
  pose proof (claude_tokens_additive files claude_file claude_lines r
                Hread Hr) as [Hi Ho].
  assert (usage_sum "input_tokens" claude_lines = 35%Q) as Ei by run.
  assert (usage_sum "output_tokens" claude_lines = 15%Q) as Eo by run.
  rewrite Ei in Hi. rewrite Eo in Ho. split; assumption.
Defined.

(** The same file carries no cost: the record is priced at 3 and 15 dollars
    per million tokens, the prices of its model. *)
Lemma claude_cost_fallback_example :
  exists r, parseClaudeSession files claude_file = Some r
            /\ model r = Some "claude-3-5-sonnet-20241022"%string
            /\ costUsd r = (inputTokens r / 1000000 * 3.0
                            + outputTokens r / 1000000 * 15.0)%Q.
Proof.
  destruct (parseClaudeSession files claude_file) as [r|] eqn:Hr;
    [|vm_compute in Hr; discriminate].
  exists r. split; [reflexivity|].
  assert (readLines files claude_file = Some claude_lines) as Hread by run.
  destruct (claude_cost_fallback files claude_file claude_lines r Hread Hr)
    as (Hmodel & pricing & Hpricing & Hcost).
  - run.
  - vm_compute. discriminate.
  - vm_compute. discriminate.
  - intros [H _]. vm_compute in H. discriminate.
  - assert (last_seen_model claude_lines
            = Some "claude-3-5-sonnet-20241022"%string) as E by run.
    rewrite E in Hmodel, Hpricing. vm_compute in Hpricing.
    injection Hpricing as <-. split; assumption.
Defined.

(** A file without the .jsonl extension that holds an array of two user
    messages and one assistant message. *)
Lemma codex_array_file_example :
  exists r, parseCodexSession archive legacy_file = Some r
            /\ messages r = 3 /\ userMessages r = 2 /\ assistantMessages r = 1
            /\ inputTokens r = 0%Q /\ outputTokens r = 0%Q /\ costUsd r = 0%Q
            /\ model r = None /\ firstMessage r = None /\ lastMessage r = None.
Proof.
  edestruct (codex_array_file archive legacy_file legacy_log)
    as (r & Hr & Hn & Hu & Ha & _ & Hrest); [run | run | run |].
  exists r. vm_compute in Hn, Hu, Ha. auto.
Defined.

(** A file of blank lines leaves the store and the counters alone. *)
Lemma zero_messages_not_stored_example :
  syncFile files clock codex
    {| loop_db := store; loop_added := 0; loop_updated := 0 |} empty_file
  = Some {| loop_db := store; loop_added := 0; loop_updated := 0 |}.
Proof.
  eapply zero_messages_not_stored; [run | reflexivity].
Defined.

(** The first pass adds the two Codex files that hold messages; the second
    pass changes nothing. *)
Lemma syncProvider_idempotent_example :
  exists counts d1,
    syncProvider archive clock codex empty_store = Some (counts, d1)
    /\ added counts = 2
    /\ syncProvider archive clock codex d1
       = Some ({| added := 0; updated := 0; deleted := 0 |}, d1).
Proof.
  destruct (syncProvider archive clock codex empty_store) as [[counts d1]|]
    eqn:H; [|vm_compute in H; discriminate].
  exists counts, d1. split; [reflexivity|]. split.
  - vm_compute in H. injection H as <- _. reflexivity.
  - exact (syncProvider_idempotent archive clock clock codex _ _ _ H).
Defined.

(** The three cases of [getSessions]: a missing folder, and a fresh pass
    over the Codex folder that becomes the snapshot. *)
Lemma getSessions_cases_example :
  getSessions empty_disk clock 10000 cold_parser claude
  = Some ([], cold_parser)
  /\ exists sessions,
       path <$> sessions = [codex_file]
       /\ getSessions files clock 10000
            {| cache := ∅; db := empty_store; lastSyncTime := 0 |} codex
          = Some (sessions,
                  {| cache := <[cacheKey codex := sessions]> ∅;
                     db := synced codex empty_store; lastSyncTime := 0 |}).
Proof.
  destruct (getSessions_cases empty_disk clock 10000 cold_parser claude)
    as (_ & Hmissing & _).
  destruct (getSessions_cases files clock 10000
              {| cache := ∅; db := empty_store; lastSyncTime := 0 |} codex)
    as (_ & _ & Hfresh).
  split; [apply Hmissing; run|].
  exists (Db.getSessions (synced codex empty_store) codex). split; [run|].
  destruct (syncProvider files clock codex empty_store) as [[counts d]|] eqn:H;
    [|vm_compute in H; discriminate].
  assert (synced codex empty_store = d) as ->
    by (unfold synced; by rewrite H).
  apply (Hfresh eq_refl) with counts; [run|exact H].
Defined.

(** C9 as worded fails when the folder of the provider is missing.  The
    parser holds no snapshot and its store holds a Claude session; the call
    returns the empty list and leaves the cache empty, where the claim asks
    for the session of the store, returned and made the snapshot. *)
Lemma getSessions_missing_directory :
  served_from_cache 10000 cold_parser claude = None
  /\ path <$> Db.getSessions store claude = [claude_file]
  /\ getSessions empty_disk clock 10000 cold_parser claude
     = Some ([], cold_parser)
  /\ ~ refreshed_when_not_served empty_disk clock 10000 cold_parser claude.
Proof.
  assert (served_from_cache 10000 cold_parser claude = None) as Hmiss by run.
  split_and!; [done | run | run |].
  intros H.
  assert (syncProvider empty_disk clock claude (db cold_parser)
          = Some ({| added := 0; updated := 0; deleted := 0 |}, store))
    as Hsync by run.
  specialize (H Hmiss _ _ Hsync). vm_compute in H. discriminate.
Qed.

(** C5.  The duration is not computed for Provider B.  The Codex file of
    the examples has its first time stamp at 00:00:00 and its last one at
    00:00:05: the record keeps both, the duration the specification asks for
    is 5000 ms, and the duration of the record is 0. *)
Lemma codex_duration_not_computed :
  exists r, parseCodexSession files codex_file = Some r
            /\ claimed_duration r = Some 5000%Z /\ duration r = 0%Z.
Proof. eexists. split; [run|]. split; run. Qed.

(** Nor for Provider C, whose parser reads no time stamp. *)
Lemma gemini_duration_not_computed :
  exists r, parseGeminiSession files gemini_file = Some r
            /\ firstMessage r = None /\ lastMessage r = None
            /\ duration r = 0%Z.
Proof. eexists. split; [run|]. split_and!; reflexivity. Qed.

(** Provider A computes it: one minute between the first and the last
    line. *)
Lemma claude_duration_example :
  exists r, parseClaudeSession files claude_file = Some r
            /\ claimed_duration r = Some 60000%Z /\ duration r = 60000%Z.
Proof. eexists. split; [run|]. split; run. Qed.

(** * Further properties of the code *)

(** ** Pricing *)

Lemma prefix_includes (s p : string) : String.prefix p s = true -> includes s p = true.
Proof. destruct s; simpl; intros ->; done. Qed.

Lemma prefix_app (p q s : string) :
  String.prefix (p +:+ q) s = true -> String.prefix p s = true.
Proof.
  revert s. induction p as [|c p IH]; intros s; [by destruct s|].
  destruct s as [|c' s]; [done|]. simpl.
  destruct (Ascii.ascii_dec c c'); [apply IH|done].
Qed.

Lemma includes_app (s p q : string) :
  includes s (p +:+ q) = true -> includes s p = true.
Proof.
  induction s as [|c s IH]; cbn [includes].
  - rewrite !orb_false_r. apply prefix_app.
  - intros [H|H]%orb_true_iff; apply orb_true_iff; [left|right; auto].
    revert H. apply prefix_app.
Qed.

Lemma includes_trans_prefix (s key p : string) :
  String.prefix p key = true -> includes s key = true -> includes s p = true.
Proof.
  intros Hp. assert (exists q, key = p +:+ q) as [q ->].
  { clear s. revert key Hp. induction p as [|c p IH]; intros key Hp.
    - by exists key.
    - destruct key as [|c' key]; [done|]. simpl in Hp.
      destruct (Ascii.ascii_dec c c') as [->|]; [|done].
      destruct (IH _ Hp) as [q ->]. by exists q. }
  apply includes_app.
Qed.

Lemma assoc_Some_elem {A} (k : string) (l : list (string * A)) v :
  assoc k l = Some v -> (k, v) ∈ l.
Proof.
  induction l as [|[k' v'] l IH]; [done|]. simpl.
  destruct (String.eqb_spec k k') as [->|]; [intros [= ->]; by left|].
  intros H. right. auto.
Qed.

(** X1.  [getModelPricing] returns the entry of the table for a model that
    is one of its keys: the exact match comes before the search for a key
    contained in the name, so that [gpt-4o-mini] is not priced as [gpt-4o],
    the earlier key it contains. *)
Theorem getModelPricing_exact_key (key : string) (pricing : ModelPricing) :
  (key, pricing) ∈ PRICING -> getModelPricing (Some key) = Some pricing.
Proof.
  unfold PRICING. rewrite !elem_of_cons, elem_of_nil.
  intros H. repeat (destruct H as [[= -> ->]|H]; [reflexivity|]). done.
Qed.

(** X2.  A model whose name contains [gpt-4o-mini] without being that key
    (a dated variant), and that does not contain [claude], is priced as
    [gpt-4o]: the loop over the keys reaches [gpt-4o] first, and the rule of
    the gpt-4o-mini family that follows the loop is never reached. *)
Theorem dated_mini_priced_as_gpt_4o (m : string) :
  includes m "gpt-4o-mini" = true ->
  m <> "gpt-4o-mini" ->
  includes m "claude" = false ->
  getModelPricing (Some m) = Some {| input := 2.5; output := 10.0 |}.
Proof.
  intros Hmini Hne Hclaude.
  assert (includes m "gpt-4o" = true) as H4o.
  { by apply (includes_app m "gpt-4o" "-mini"). }
  assert (forall key, String.prefix "claude" key = true ->
                      startsWith m key || includes m key = false) as Hno.
  { intros key Hk. destruct (includes m key) eqn:Hi.
    - apply (includes_trans_prefix m key "claude") in Hi; congruence.
    - rewrite orb_false_r. unfold startsWith.
      destruct (String.prefix key m) eqn:Hp; [|done].
      apply prefix_includes in Hp. congruence. }
  assert (m <> "") as Hnonempty by (intros ->; discriminate).
  unfold getModelPricing.
  assert (present (Some m) = true) as ->.
  { simpl. unfold nonempty. by destruct (String.eqb_spec m ""). }
  cbn [negb]. change (default "" (Some m)) with m.
  destruct (assoc m PRICING) as [p|] eqn:Hassoc.
  { exfalso. apply assoc_Some_elem in Hassoc. unfold PRICING in Hassoc.
    rewrite !elem_of_cons, elem_of_nil in Hassoc.
    repeat (destruct Hassoc as [[= -> ->]|Hassoc];
            [first [done | vm_compute in Hmini; discriminate]|]).
    done. }
  destruct (existsb (String.eqb m) inherited_names) eqn:Hinh.
  { exfalso. apply existsb_exists in Hinh as (x & Hx & Heq).
    apply String.eqb_eq in Heq. subst x. unfold inherited_names in Hx.
    simpl in Hx. repeat (destruct Hx as [<-|Hx];
                         [vm_compute in Hmini; discriminate|]). done. }
  unfold PRICING. cbn [find fst snd].
  rewrite !Hno by reflexivity. by rewrite H4o, orb_true_r.
Qed.


(** Every pricing [getModelPricing] returns is an entry of the table. *)
Lemma getModelPricing_elem (model : option string) (pricing : ModelPricing) :
  getModelPricing model = Some pricing ->
  exists key, (key, pricing) ∈ PRICING.
Proof.
  unfold getModelPricing.
  repeat match goal with
         | |- context [if ?b then _ else _] => destruct b
         | |- context [match assoc ?k ?l with _ => _ end] =>
             let H := fresh "H" in destruct (assoc k l) eqn:H
         | |- context [match find ?f ?l with _ => _ end] =>
             let H := fresh "H" in destruct (find f l) as [[??]|] eqn:H
         end;
    intros Hp; simplify_eq; eauto using assoc_Some_elem.
  all: match goal with
       | H : find _ _ = Some _ |- _ =>
           apply find_some in H as [Hin _]; apply list_elem_of_In in Hin; eauto
       end.
Qed.

Lemma PRICING_positive (key : string) (pricing : ModelPricing) :
  (key, pricing) ∈ PRICING -> (0 < input pricing)%Q /\ (0 < output pricing)%Q.
Proof.
  unfold PRICING. rewrite !elem_of_cons, elem_of_nil. intros H.
  repeat (destruct H as [[= -> ->]|H]; [by split|]). done.
Qed.

Lemma scaled_nonneg (i a : Q) : (0 <= i -> 0 < a -> 0 <= i / 1000000 * a)%Q.
Proof.
  intros Hi Ha. apply Qmult_le_0_compat; [|by apply Qlt_le_weak].
  apply Qmult_le_0_compat; [done|]. by apply Qinv_le_0_compat.
Qed.

Lemma scaled_zero (i a : Q) : (0 < a -> i / 1000000 * a == 0 -> i == 0)%Q.
Proof.
  intros Ha H. apply Qmult_integral in H as [H|H]; [|lra].
  apply Qmult_integral in H as [H|H]; [done|]. discriminate H.
Qed.

(** X3.  For token counts that are not negative the cost [calculateCost]
    returns is not negative, and it is 0 only when both counts are 0: every
    price of the table is positive. *)
Theorem calculateCost_nonnegative (inTok outTok : Q) (model : option string)
    (cost : Q) :
  calculateCost inTok outTok model = Some cost ->
  (0 <= inTok)%Q -> (0 <= outTok)%Q ->
  (0 <= cost)%Q /\ ((cost == 0)%Q <-> (inTok == 0)%Q /\ (outTok == 0)%Q).
Proof.
  unfold calculateCost. intros H Hi Ho.
  apply bind_Some in H as (pricing & Hp & [= <-]).
  apply getModelPricing_elem in Hp as [key Hp].
  apply PRICING_positive in Hp as [Ha Hb].
  pose proof (scaled_nonneg _ _ Hi Ha) as Hx.
  pose proof (scaled_nonneg _ _ Ho Hb) as Hy.
  split; [lra|]. split.
  - intros H. split; [apply (scaled_zero _ _ Ha) | apply (scaled_zero _ _ Hb)];
      lra.
  - intros [-> ->]. field.
Qed.


(** ** Project names *)

Lemma split_not_nil (sep : ascii) (s : string) : split sep s <> [].
Proof.
  destruct s as [|c s]; [done|]. simpl.
  destruct (Ascii.eqb c sep); [done|]. by destruct (split sep s).
Qed.

Lemma split_cons_char (sep c : ascii) (s : string) :
  Ascii.eqb c sep = false ->
  exists w ws, split sep s = w :: ws /\ split sep (String c s) = String c w :: ws.
Proof.
  intros Hc. simpl. rewrite Hc.
  destruct (split sep s) as [|w ws] eqn:Hs; [by apply split_not_nil in Hs|].
  eauto.
Qed.

(** Splitting at a separator that joins two strings. *)
Lemma split_app_sep (sep : ascii) (s t : string) :
  split sep (s +:+ String sep t) = (split sep s ++ split sep t)%list.
Proof.
  induction s as [|c s IH].
  - simpl. by rewrite Ascii.eqb_refl.
  - change (String c s +:+ String sep t) with (String c (s +:+ String sep t)).
    destruct (Ascii.eqb c sep) eqn:Hc.
    + simpl. rewrite Hc. by rewrite IH.
    + destruct (split_cons_char sep c s Hc) as (w & ws & Hs & ->).
      destruct (split_cons_char sep c (s +:+ String sep t) Hc)
        as (w' & ws' & Hs' & ->).
      rewrite IH, Hs in Hs'. by simplify_eq/=.
Qed.

(** A string that does not hold the separator is one segment. *)
Lemma split_no_sep (sep : ascii) (s : string) :
  includes s (String sep "") = false -> split sep s = [s].
Proof.
  induction s as [|c s IH]; [done|]. cbn [includes].
  intros [Hp Hs]%orb_false_iff. simpl in Hp.
  assert (Ascii.eqb c sep = false) as Hc.
  { destruct (Ascii.eqb_spec c sep) as [->|]; [|done].
    destruct (Ascii.ascii_dec sep sep); [|done]. by destruct s. }
  simpl. rewrite Hc, (IH Hs). done.
Qed.

Lemma last_two_snoc (parts : list string) (a b : string) :
  last_two (parts ++ [a; b])%list = a +:+ "/" +:+ b.
Proof.
  unfold last_two. rewrite length_app. simpl.
  replace (length parts + 2 - 2) with (length parts) by lia.
  by rewrite drop_app_length.
Qed.

Lemma nonempty_true (s : string) : nonempty s = true <-> s <> "".
Proof. unfold nonempty. by destruct (String.eqb_spec s ""). Qed.

(** The non-empty segments of a path that ends in [a], a separator and
    [b]. *)
Lemma segments_last_two (sep : ascii) (pre a b : string) :
  a <> "" -> b <> "" ->
  includes a (String sep "") = false -> includes b (String sep "") = false ->
  filter (fun p => nonempty p = true)
         (split sep (pre +:+ String sep (a +:+ String sep b)))
  = (filter (fun p => nonempty p = true) (split sep pre) ++ [a; b])%list.
Proof.
  intros Ha Hb Hsa Hsb. rewrite !split_app_sep, !filter_app.
  rewrite (split_no_sep _ _ Hsa), (split_no_sep _ _ Hsb).
  rewrite !filter_cons_True by by apply nonempty_true.
  by rewrite !filter_nil.
Qed.

Section Project_names.
Context {rt : Runtime}.

(** X5.  For a working directory that ends in two segments [a] and [b],
    [extractProjectFromPath] returns [a/b], whatever comes before them. *)
Theorem extractProjectFromPath_last_two (pre a b : string) :
  a <> "" -> b <> "" ->
  includes a (String path_sep "") = false ->
  includes b (String path_sep "") = false ->
  extractProjectFromPath (pre +:+ String path_sep (a +:+ String path_sep b))
  = a +:+ "/" +:+ b.
Proof.
  intros Ha Hb Hsa Hsb. unfold extractProjectFromPath.
  rewrite segments_last_two by done. rewrite last_two_snoc.
  destruct (2 <=? _) eqn:Hlen; [done|]. apply Nat.leb_gt in Hlen.
  rewrite length_app in Hlen. simpl in Hlen. lia.
Qed.

Lemma filter_nonempty_last (parts : list string) (x : string) :
  last (filter (fun p => nonempty p = true) parts) = Some x -> x <> "".
Proof.
  intros H%last_Some_elem_of. apply list_elem_of_filter in H as [H _].
  by apply nonempty_true.
Qed.

Lemma last_two_nonempty (parts : list string) :
  2 <= length parts -> last_two parts <> "".
Proof.
  intros Hlen.
  destruct (decide (parts = [])) as [->|Hne]; [simpl in Hlen; lia|].
  assert (exists l a b, parts = (l ++ [a; b])%list) as (l & a & b & ->).
  { destruct (exists_last Hne) as (l1 & b & ->).
    destruct l1 as [|x l1 _] using rev_ind.
    - simpl in Hlen. lia.
    - exists l1, x, b. by rewrite <- app_assoc. }
  rewrite last_two_snoc. by destruct a.
Qed.

(** X6.  [extractProjectFromPath] never returns the empty string (a path
    without a segment gives ['Unknown']), and a trailing separator changes
    nothing. *)
Theorem extractProjectFromPath_never_empty (cwdPath : string) :
  extractProjectFromPath cwdPath <> ""
  /\ extractProjectFromPath (cwdPath +:+ String path_sep "")
     = extractProjectFromPath cwdPath.
Proof.
  split.
  - unfold extractProjectFromPath.
    destruct (2 <=? length _) eqn:Hlen.
    + apply last_two_nonempty. by apply Nat.leb_le.
    + destruct (last _) as [x|] eqn:Hlast; [|done].
      simpl. by apply filter_nonempty_last in Hlast.
  - unfold extractProjectFromPath. rewrite split_app_sep, filter_app.
    simpl. rewrite filter_cons_False, filter_nil, app_nil_r; done.
Qed.

Lemma dashes_to_slashes_app (s t : string) :
  dashes_to_slashes (s +:+ t) = dashes_to_slashes s +:+ dashes_to_slashes t.
Proof. induction s as [|c s IH]; [done|]. simpl. by rewrite IH. Qed.

Lemma dashes_to_slashes_id (s : string) :
  includes s "-" = false -> dashes_to_slashes s = s.
Proof.
  induction s as [|c s IH]; [done|]. cbn [includes].
  intros [Hp Hs]%orb_false_iff. simpl in Hp. simpl.
  destruct (Ascii.eqb_spec c "-") as [->|]; [by destruct s|].
  by rewrite IH.
Qed.

(** X7.  [extractClaudeProjectName] decodes every dash of the folder name
    as a path separator: for a folder that starts with a dash and ends in
    [-a-b], the project is [a/b], also when [a-b] was the hyphenated name of
    one directory. *)
Theorem extractClaudeProjectName_last_two (filePath baseDir : string)
    (pre a b : string) (rest : list string) :
  split path_sep (path_relative baseDir filePath)
  = (pre +:+ "-" +:+ a +:+ "-" +:+ b) :: rest ->
  startsWith (pre +:+ "-" +:+ a +:+ "-" +:+ b) "-" = true ->
  a <> "" -> b <> "" ->
  includes a "-" = false -> includes a "/" = false ->
  includes b "-" = false -> includes b "/" = false ->
  extractClaudeProjectName filePath baseDir = a +:+ "/" +:+ b.
Proof.
  intros Hsplit Hstart Ha Hb Hda Hsa Hdb Hsb.
  unfold extractClaudeProjectName. rewrite Hsplit, Hstart.
  rewrite !dashes_to_slashes_app.
  rewrite (dashes_to_slashes_id a), (dashes_to_slashes_id b) by done.
  change (dashes_to_slashes "-") with "/".
  change ("/" +:+ a +:+ "/" +:+ b) with (String "/" (a +:+ String "/" b)).
  rewrite segments_last_two by done. rewrite last_two_snoc.
  destruct (2 <=? _) eqn:Hlen; [done|]. apply Nat.leb_gt in Hlen.
  rewrite length_app in Hlen. simpl in Hlen. lia.
Qed.

End Project_names.


(** ** The store *)

(** *** Keyed rows *)

Section Keyed_rows.
Context {A : Type} (key : A -> string).

Lemma find_key_update (g f : string) (u : A -> A) (l : list A) :
  (forall r, key (u r) = key r) ->
  find (fun r => String.eqb (key r) g)
       ((fun r => if String.eqb (key r) f then u r else r) <$> l)
  = if String.eqb g f
    then u <$> find (fun r => String.eqb (key r) g) l
    else find (fun r => String.eqb (key r) g) l.
Proof.
  intros Hu. induction l as [|r l IH].
  - simpl. by destruct (String.eqb g f).
  - rewrite fmap_cons. cbn [find].
    destruct (String.eqb_spec (key r) f) as [Hf|Hf].
    + rewrite Hu. destruct (String.eqb_spec (key r) g) as [Hg|Hg].
      * rewrite <- Hg, Hf, String.eqb_refl. done.
      * rewrite IH. done.
    + destruct (String.eqb_spec (key r) g) as [Hg|Hg].
      * subst g. by apply String.eqb_neq in Hf as ->.
      * rewrite IH. done.
Qed.

Lemma find_key_app (g : string) (l : list A) (r : A) :
  find (fun r => String.eqb (key r) g) (l ++ [r])
  = match find (fun r => String.eqb (key r) g) l with
    | Some x => Some x
    | None => if String.eqb (key r) g then Some r else None
    end.
Proof.
  induction l as [|x l IH]; simpl; [done|].
  by destruct (String.eqb (key x) g).
Qed.

Lemma existsb_key_find (g : string) (l : list A) :
  existsb (fun r => String.eqb (key r) g) l
  = match find (fun r => String.eqb (key r) g) l with
    | Some _ => true
    | None => false
    end.
Proof.
  induction l as [|x l IH]; simpl; [done|].
  by destruct (String.eqb (key x) g).
Qed.

(** The rows of an upsert: the new row, and the old rows of the other
    keys. *)
Lemma elem_of_upsert (f : string) (new : A) (l : list A) (x : A) :
  key new = f ->
  x ∈ (if existsb (fun r => String.eqb (key r) f) l
       then (fun r => if String.eqb (key r) f then new else r) <$> l
       else (l ++ [new])%list)
  <-> x = new \/ (x ∈ l /\ key x <> f).
Proof.
  intros Hnew. destruct (existsb _ l) eqn:Hex.
  - rewrite list_elem_of_fmap. split.
    + intros (r & -> & Hr).
      destruct (String.eqb_spec (key r) f); [by left | right; done].
    + intros [->|[Hx Hne]].
      * apply existsb_exists in Hex as (r & Hr & Heq). exists r.
        rewrite Heq. split; [done|]. by apply list_elem_of_In.
      * exists x. split; [|done]. by apply String.eqb_neq in Hne as ->.
  - rewrite elem_of_app, list_elem_of_singleton. split.
    + intros [Hx| ->]; [right|by left]. split; [done|]. intros Hk.
      apply not_true_iff_false in Hex. apply Hex, existsb_exists.
      exists x. split; [by apply list_elem_of_In | by apply String.eqb_eq].
    + intros [->|[Hx _]]; auto.
Qed.

End Keyed_rows.

(** *** Settings *)

(** X8.  [getSetting] after [saveSetting]: the saved value for the saved
    key, whether the key was new or not, and what it was before for every
    other key, the default included. *)
Theorem saveSetting_getSetting (settings : list Db.Setting)
    (key value : string) (now : Z) (key' defaultValue : string) :
  Db.getSetting (Db.saveSetting settings key value now) key' defaultValue
  = if String.eqb key' key then value
    else Db.getSetting settings key' defaultValue.
Proof.
  unfold Db.getSetting, Db.saveSetting.
  rewrite (existsb_key_find Db.setting_key).
  destruct (find _ settings) as [row|] eqn:Hrow.
  - rewrite (find_key_update Db.setting_key
               key' key (fun r => {| Db.setting_key := Db.setting_key r;
                                     Db.setting_value := value;
                                     Db.updated_at := now |})) by done.
    destruct (String.eqb_spec key' key) as [->|]; [|done].
    by rewrite Hrow.
  - rewrite (find_key_app Db.setting_key). simpl.
    destruct (String.eqb_spec key' key) as [->|Hne].
    + by rewrite Hrow, String.eqb_refl.
    + assert (String.eqb key key' = false) as ->
        by (apply String.eqb_neq; congruence).
      by destruct (find (fun r => String.eqb (Db.setting_key r) key') settings).
Qed.

(** *** Sessions *)

Section Rows.

Lemma session_row_path s : path (Db.session_row s) = path s.
Proof. done. Qed.
Lemma session_row_provider s : provider (Db.session_row s) = provider s.
Proof. done. Qed.

Lemma upsertSession_sessions d s x :
  x ∈ Db.sessions (Db.upsertSession d s)
  <-> x = Db.session_row s \/ (x ∈ Db.sessions d /\ path x <> path s).
Proof.
  unfold Db.upsertSession. cbn [Db.sessions].
  apply (elem_of_upsert path). done.
Qed.

Lemma Provider_eqb_eq p q : Provider_eqb p q = true <-> p = q.
Proof. by destruct p, q. Qed.

Lemma getSessions_elem d p x :
  x ∈ Db.getSessions d p <-> x ∈ Db.sessions d /\ provider x = p.
Proof.
  unfold Db.getSessions. rewrite sort_by_perm, list_elem_of_filter.
  rewrite Provider_eqb_eq. tauto.
Qed.

(** X9.  [getSessions] after [upsertSession]: the list of a provider holds
    the row of the upserted session when that is its provider, and the rows
    it held before at other paths; the row that was at the path of the
    session is gone. *)
Theorem upsertSession_getSessions (d : Db.Database) (s : SessionStats)
    (p : Provider) (x : SessionStats) :
  x ∈ Db.getSessions (Db.upsertSession d s) p
  <-> (x = Db.session_row s /\ provider s = p)
      \/ (x ∈ Db.getSessions d p /\ path x <> path s).
Proof.
  rewrite !getSessions_elem, upsertSession_sessions. split.
  - intros [[->|[Hx Hne]] Hp]; [left|right]; done.
  - intros [[-> Hp]|[[Hx Hp] Hne]]; split; auto.
Qed.

(** *** File rows *)

(** X10.  [needsUpdate] after [upsertFileRecord]: for the recorded path it
    is false exactly at the recorded mtime and size, and for every other
    path it is what it was. *)
Theorem upsertFileRecord_needsUpdate (d : Db.Database) (f : string)
    (p : Provider) (mtime size now : Z) (g : string) (mtime' size' : Z) :
  Db.needsUpdate (Db.upsertFileRecord d f p mtime size now) g mtime' size'
  = if String.eqb g f
    then negb (mtime =? mtime')%Z || negb (size =? size')%Z
    else Db.needsUpdate d g mtime' size'.
Proof.
  unfold Db.needsUpdate, Db.getFileRecord, Db.upsertFileRecord.
  cbn [Db.files]. rewrite (existsb_key_find Db.file_path).
  destruct (find _ (Db.files d)) as [row|] eqn:Hrow.
  - rewrite (find_key_update Db.file_path g f
               (fun r => {| Db.file_path := Db.file_path r;
                            Db.file_provider := Db.file_provider r;
                            Db.file_mtime := mtime; Db.file_size := size;
                            Db.last_parsed := now |})) by done.
    destruct (String.eqb_spec g f) as [->|]; [|done]. by rewrite Hrow.
  - rewrite (find_key_app Db.file_path). cbn [Db.file_path].
    destruct (String.eqb_spec g f) as [->|Hne].
    + by rewrite Hrow, String.eqb_refl.
    + assert (String.eqb f g = false) as ->
        by (apply String.eqb_neq; congruence).
      by destruct (find (fun r => String.eqb (Db.file_path r) g) (Db.files d)).
Qed.

End Rows.

(** *** The deletion pass *)

Lemma deleteFile_sessions d h s :
  s ∈ Db.sessions (Db.deleteFile d h) <->
  s ∈ Db.sessions d /\ path s <> h.
Proof.
  unfold Db.deleteFile. simpl. rewrite list_elem_of_filter.
  rewrite String.eqb_neq. tauto.
Qed.

Lemma cleanup_loop_sessions existing acc paths s :
  s ∈ Db.sessions (Db.cleanup_loop existing acc paths).2 <->
  s ∈ Db.sessions acc.2
  /\ forall h, h ∈ paths -> h ∉ existing -> path s <> h.
Proof.
  revert acc. induction paths as [|h paths IH]; intros acc.
  - simpl. split; [|tauto]. intros H. split; [done|]. by intros h Hh%elem_of_nil.
  - simpl. change (foldl _ ?a paths) with (Db.cleanup_loop existing a paths).
    rewrite IH. destruct (decide (h ∈ existing)) as [Hh|Hh].
    + rewrite bool_decide_eq_true_2 by done. split.
      * intros [H1 H2]. split; [done|]. intros h' [->|Hh']%elem_of_cons; auto.
      * intros [H1 H2]. split; [done|]. intros h' Hh'. apply H2. by right.
    + rewrite bool_decide_eq_false_2 by done. cbn [fst snd].
      rewrite deleteFile_sessions. split.
      * intros [[H1 H3] H2]. split; [done|].
        intros h' [->|Hh']%elem_of_cons; auto.
      * intros [H1 H2]. split_and!; [done| |].
        -- apply H2; [by left | done].
        -- intros h' Hh'. apply H2. by right.
Qed.

Lemma cleanup_loop_count (existing : gset string) acc paths :
  (Db.cleanup_loop existing acc paths).1
  = acc.1 + length (filter (fun h => h ∉ existing) paths).
Proof.
  revert acc. induction paths as [|h paths IH]; intros acc; [simpl; lia|].
  simpl. change (foldl _ ?a paths) with (Db.cleanup_loop existing a paths).
  rewrite IH, filter_cons. destruct (decide (h ∈ existing)) as [Hh|Hh].
  - rewrite bool_decide_eq_true_2 by done.
    by rewrite decide_False by (intros H; by apply H).
  - rewrite bool_decide_eq_false_2 by done. rewrite decide_True by done.
    simpl. lia.
Qed.

(** X11.  [cleanupDeletedFiles] returns the number of tracked paths of the
    provider that are not among the existing files, removes the file rows and
    the session rows of exactly those paths, and leaves the provider with
    tracked paths that all exist. *)
Theorem cleanupDeletedFiles_removes (d : Db.Database) (p : Provider)
    (existing : gset string) :
  let gone := filter (fun h => h ∉ existing) (Db.getTrackedFiles d p) in
  let cleaned := Db.cleanupDeletedFiles d p existing in
  cleaned.1 = length gone
  /\ (forall r, r ∈ Db.files cleaned.2 <->
                r ∈ Db.files d /\ Db.file_path r ∉ gone)
  /\ (forall s, s ∈ Db.sessions cleaned.2 <->
                s ∈ Db.sessions d /\ path s ∉ gone)
  /\ (forall h, h ∈ Db.getTrackedFiles cleaned.2 p -> h ∈ existing).
Proof.
  intros gone cleaned. unfold cleaned, gone, Db.cleanupDeletedFiles.
  assert (forall h, h ∉ filter (fun h => h ∉ existing) (Db.getTrackedFiles d p)
                    <-> (forall h', h' ∈ Db.getTrackedFiles d p ->
                                    h' ∉ existing -> h <> h')) as Hgone.
  { intros h. rewrite list_elem_of_filter. split.
    - intros H h' Hh' Hout ->. apply H. done.
    - intros H [Hout Hh]. by apply (H h). }
  split_and!.
  - by rewrite cleanup_loop_count.
  - intros r. rewrite cleanup_loop_files, Hgone. done.
  - intros s. rewrite cleanup_loop_sessions, Hgone. done.
  - intros h (r & Hr & Hp & <-)%getTrackedFiles_elem.
    apply cleanup_loop_files in Hr as [Hr Hkept]. simpl in Hr.
    destruct (decide (Db.file_path r ∈ existing)) as [|Hout]; [done|].
    exfalso. apply (Hkept (Db.file_path r)); [|done..].
    apply getTrackedFiles_elem. eauto.
Qed.

(** *** The order of the rows *)

Lemma ascii_compare_spec (a c : ascii) :
  CompareSpec (N_of_ascii a = N_of_ascii c) (N_of_ascii a < N_of_ascii c)%N
              (N_of_ascii c < N_of_ascii a)%N (Ascii.compare a c).
Proof. apply N.compare_spec. Qed.

Lemma string_compare_trans (s t u : string) :
  String.compare s t <> Gt -> String.compare t u <> Gt ->
  String.compare s u <> Gt.
Proof.
  revert t u. induction s as [|a s IH]; intros [|b t] [|c u]; simpl; try done.
  destruct (ascii_compare_spec a b), (ascii_compare_spec b c),
    (ascii_compare_spec a c); try done; try lia.
  apply IH.
Qed.

Lemma compare_text_trans (a b c : option string) :
  Db.compare_text a b <> Gt -> Db.compare_text b c <> Gt ->
  Db.compare_text a c <> Gt.
Proof.
  destruct a, b, c; simpl; try done. apply string_compare_trans.
Qed.

Lemma compare_text_antisym (a b : option string) :
  Db.compare_text a b = CompOpp (Db.compare_text b a).
Proof. destruct a, b; simpl; try done. apply String.compare_antisym. Qed.

Lemma last_message_desc_le (a c : SessionStats) :
  (Db.last_message_desc a c <= 0)%Z
  <-> Db.compare_text (lastMessage c) (lastMessage a) <> Gt.
Proof. unfold Db.last_message_desc. destruct (Db.compare_text _ _); split; (done || lia). Qed.

Lemma insert_by_sorted_total {A : Type} (cmp : A -> A -> Z) (x : A)
    (l : list A) :
  (forall a c, (0 < cmp a c -> cmp c a <= 0)%Z) ->
  Transitive (fun a c => (cmp a c <= 0)%Z) ->
  StronglySorted (fun a c => (cmp a c <= 0)%Z) l ->
  StronglySorted (fun a c => (cmp a c <= 0)%Z) (insert_by cmp x l).
Proof.
  intros Htotal Htrans Hl. induction Hl as [|y l Hl IH Hy]; simpl.
  - repeat constructor.
  - destruct (cmp x y <=? 0)%Z eqn:Hle.
    + apply Z.leb_le in Hle. constructor; [by constructor|].
      constructor; [done|]. eapply Forall_impl; [exact Hy|].
      intros c Hc. simpl in Hc. exact (Htrans x y c Hle Hc).
    + apply Z.leb_gt in Hle. constructor; [done|].
      rewrite insert_by_perm. constructor; [|done]. by apply Htotal.
Qed.

Lemma sort_by_sorted_total {A : Type} (cmp : A -> A -> Z) (l : list A) :
  (forall a c, (0 < cmp a c -> cmp c a <= 0)%Z) ->
  Transitive (fun a c => (cmp a c <= 0)%Z) ->
  StronglySorted (fun a c => (cmp a c <= 0)%Z) (sort_by cmp l).
Proof.
  intros Htotal Htrans. induction l as [|x l IH]; [constructor|].
  unfold sort_by in *. simpl. by apply insert_by_sorted_total.
Qed.

Lemma StronglySorted_weaken {A : Type} (R S : relation A) (l : list A) :
  (forall a c, R a c -> S a c) -> StronglySorted R l -> StronglySorted S l.
Proof.
  intros HRS. induction 1 as [|x l Hl IH Hx]; constructor; [done|].
  eapply Forall_impl; [exact Hx|]. auto.
Qed.

Lemma StronglySorted_lookup {A : Type} (R : relation A) (l : list A)
    (i j : nat) (a c : A) :
  StronglySorted R l -> i < j -> l !! i = Some a -> l !! j = Some c -> R a c.
Proof.
  intros Hs Hij Ha Hc. rewrite <- (take_drop j l) in Hs.
  eapply StronglySorted_app_1_elem_of; [done| |].
  - apply list_elem_of_lookup. exists i. by rewrite lookup_take_lt.
  - apply list_elem_of_lookup. exists 0. by rewrite lookup_drop, Nat.add_0_r.
Qed.

(** X12.  [getSessions] of the store returns the rows of the provider,
    each once, ordered by [last_message] descending in the order of SQLite's
    text comparison; rows without [last_message] come last. *)
Theorem getSessions_latest_first (d : Db.Database) (p : Provider) :
  Db.getSessions d p
    ≡ₚ filter (fun r => Provider_eqb (provider r) p = true) (Db.sessions d)
  /\ StronglySorted
       (fun a c => Db.compare_text (lastMessage c) (lastMessage a) <> Gt)
       (Db.getSessions d p)
  /\ (forall i j a c,
        i < j ->
        Db.getSessions d p !! i = Some a -> Db.getSessions d p !! j = Some c ->
        lastMessage a = None -> lastMessage c = None).
Proof.
  assert (StronglySorted
            (fun a c => Db.compare_text (lastMessage c) (lastMessage a) <> Gt)
            (Db.getSessions d p)) as Hsorted.
  { eapply StronglySorted_weaken; [|apply sort_by_sorted_total].
    - intros a c. apply last_message_desc_le.
    - intros a c. unfold Db.last_message_desc.
      rewrite (compare_text_antisym (lastMessage a)).
      destruct (Db.compare_text _ _); simpl; lia.
    - intros a b c. rewrite !last_message_desc_le. intros H1 H2.
      by apply (compare_text_trans _ (lastMessage b)). }
  split_and!; [apply sort_by_perm | done |].
  intros i j a c Hij Ha Hc Hnone.
  pose proof (StronglySorted_lookup _ _ _ _ _ _ Hsorted Hij Ha Hc) as H.
  simpl in H.
  rewrite Hnone in H. by destruct (lastMessage c).
Qed.

(** ** Counters of the parsers *)


Ltac advance :=
  unfold advances, inc_userMessages, inc_assistantMessages, inc_messages in *;
  simpl in *; intuition (try lia; try congruence).

Section Counters.
Context {rt : Runtime} (fs : FileSystem).

Lemma advances_refl st : advances 0 st st.
Proof. advance. Qed.

Lemma advances_trans n m a b c :
  advances n a b -> advances m b c -> advances (n + m) a c.
Proof. advance. Qed.

Lemma count_role_advances_1 u a st :
  advances 1 st (count_role u a (inc_messages st)).
Proof. unfold count_role. destruct u, a; advance. Qed.

Lemma track_timestamp_advances ts st st' :
  track_timestamp ts st = Some st' -> advances 0 st st'.
Proof.
  unfold track_timestamp. intros H.
  destruct (truthy ts); [|injection H as <-; advance].
  apply bind_Some in H as (t & _ & [= <-]).
  destruct (present (firstMessage st)); advance.
Qed.

Lemma track_model_advances m st st' :
  track_model m st = Some st' -> advances 0 st st'.
Proof.
  unfold track_model. intros H.
  destruct (truthy m); [|injection H as <-; advance].
  apply bind_Some in H as (t & _ & [= <-]). advance.
Qed.

Lemma price_tokens_advances guard st st' :
  price_tokens guard st = Some st' -> advances 0 st st'.
Proof.
  unfold price_tokens. intros H.
  destruct (guard && _); [|injection H as <-; advance].
  apply bind_Some in H as (t & _ & [= <-]). advance.
Qed.

Lemma compute_duration_advances st st' :
  compute_duration st = Some st' -> advances 0 st st'.
Proof.
  unfold compute_duration. intros H.
  destruct (_ && _); [|injection H as <-; advance].
  apply bind_Some in H as (t & _ & H).
  apply bind_Some in H as (t' & _ & [= <-]). advance.
Qed.

Lemma claude_accumulate_advances ev st st' :
  claude_accumulate ev st = Some st' -> advances 0 st st'.
Proof.
  unfold claude_accumulate. intros H.
  apply bind_Some in H as (i & _ & H). apply bind_Some in H as (o & _ & H).
  apply bind_Some in H as (cr & _ & H). apply bind_Some in H as (cc & _ & H).
  apply bind_Some in H as (c & _ & H). apply bind_Some in H as (s1 & H1 & H).
  apply track_timestamp_advances in H1. apply track_model_advances in H.
  advance.
Qed.

Lemma claudeEvent_advances st event st' :
  claudeEvent st event = Some st' -> advances 1 st st'.
Proof.
  unfold claudeEvent. intros H.
  destruct (nullish (Some event)); [injection H as <-; advance|].
  pose proof (count_role_advances_1
                (str_is (js_or (prop "type" (Some event)) (Some (JStr ""))) "user"
                 || str_is (js_or (js_or (prop "role" (prop "message" (Some event)))
                                         (prop "role" (Some event)))
                                  (Some (JStr ""))) "user")
                (str_is (js_or (prop "type" (Some event)) (Some (JStr "")))
                        "assistant"
                 || str_is (js_or (js_or (prop "role" (prop "message" (Some event)))
                                         (prop "role" (Some event)))
                                  (Some (JStr ""))) "assistant") st) as Hrole.
  fold (claude_roles (Some event) (inc_messages st)) in Hrole.
  destruct (claude_tool_use (Some event)) as [tool|];
    [|injection H as <-; advance].
  apply bind_Some in H as (s1 & Htooluse & H).
  apply claude_accumulate_advances in H.
  destruct tool.
  - unfold inc_toolUses_checked in Htooluse.
    apply bind_Some in Htooluse as (n & Hn & [= <-]).
    assert (toolUses st = Some n) as Hst.
    { rewrite <- Hn. unfold claude_roles, count_role. by repeat case_match. }
    unfold advances in *. simpl in *. rewrite Hn, Hst in *. simpl in *.
    intuition (try lia; try congruence).
  - injection Htooluse as <-. advance.
Qed.

Lemma documents_cons (line : string) (lines : list string) :
  documents (line :: lines) = (documents [line] ++ documents lines)%list.
Proof.
  unfold documents. rewrite !filter_cons.
  destruct (decide (blank line = false)); [|done].
  rewrite !omap_cons_eq. simpl. by destruct (JSON_parse line).
Qed.

Lemma claudeLine_advances st line st' :
  claudeLine st line = Some st' ->
  advances (length (documents [line])) st st'.
Proof.
  unfold claudeLine, documents. rewrite filter_cons.
  destruct (blank line) eqn:Hblank.
  { intros [= <-]. rewrite decide_False by done. apply advances_refl. }
  rewrite decide_True by done. rewrite omap_cons_eq.
  destruct (JSON_parse line) as [event|].
  - apply claudeEvent_advances.
  - intros [= <-]. apply advances_refl.
Qed.

Lemma foldM_claudeLine_advances lines st st' :
  foldM claudeLine lines st = Some st' ->
  advances (length (documents lines)) st st'.
Proof.
  revert st. induction lines as [|line lines IH]; intros st.
  - intros [= <-]. apply advances_refl.
  - intros H. apply bind_Some in H as (s1 & Hline & H).
    rewrite documents_cons, length_app.
    eauto using advances_trans, claudeLine_advances.
Qed.

Lemma parseClaudeSession_advances filePath lines r :
  readLines fs filePath = Some lines ->
  parseClaudeSession fs filePath = Some r ->
  advances (length (documents lines)) (claude_initial filePath) r.
Proof.
  intros Hread H. unfold parseClaudeSession in H. rewrite Hread in H.
  apply bind_Some in H as (s1 & Hfold & H).
  apply bind_Some in H as (s2 & Hprice & H).
  apply foldM_claudeLine_advances in Hfold.
  apply price_tokens_advances in Hprice.
  apply compute_duration_advances in H.
  replace (length (documents lines)) with (length (documents lines) + 0 + 0) by lia.
  eauto using advances_trans.
Qed.

(** *** Provider B *)

Lemma str_is_unique (v : option json) (s t : string) :
  str_is v s = true -> s <> t -> str_is v t = false.
Proof.
  unfold str_is. destruct v as [[]|]; try done.
  intros ->%String.eqb_eq Hne. by apply String.eqb_neq.
Qed.

Lemma codex_roles_advances_1 ev st :
  advances 1 st (codex_roles ev (inc_messages st)).
Proof.
  unfold codex_roles.
  destruct (str_is (prop "type" (prop "payload" ev)) "message") eqn:Hm.
  - rewrite (str_is_unique _ _ "user_message" Hm) by done.
    rewrite (str_is_unique _ _ "agent_message" Hm) by done.
    unfold count_role. repeat case_match; advance.
  - unfold count_role. repeat case_match; advance.
Qed.

Lemma codex_project_advances ev st st' :
  codex_project ev st = Some st' -> advances 0 st st'.
Proof.
  unfold codex_project. intros H.
  destruct (_ && _); [|injection H as <-; advance].
  destruct (prop "cwd" _) as [[]|]; try done. injection H as <-. advance.
Qed.

Lemma codex_model_advances ev st st' :
  codex_model ev st = Some st' -> advances 0 st st'.
Proof.
  unfold codex_model. intros H.
  destruct (_ && _); [|injection H as <-; advance].
  apply bind_Some in H as (name & _ & [= <-]). advance.
Qed.

Lemma codexEvent_advances st event st' :
  codexEvent st event = Some st' -> advances 1 (cl_stats st) (cl_stats st').
Proof.
  unfold codexEvent. intros H.
  destruct (nullish (Some event)); [injection H as <-; advance|].
  destruct (codex_project _ _) as [s0|] eqn:Hproject;
    [|injection H as <-; advance].
  unfold codex_accumulate in H. cbn [cl_stats] in H.
  apply bind_Some in H as (totals & _ & H).
  apply bind_Some in H as (s1 & Hmodel & H).
  apply bind_Some in H as (s2 & Hts & [= <-]). cbn [cl_stats].
  apply codex_model_advances in Hmodel.
  apply track_timestamp_advances in Hts.
  assert (exists base, s0 = match base with
                              | Some v => set_project v (inc_messages (cl_stats st))
                              | None => inc_messages (cl_stats st)
                              end) as [base ->].
  { unfold codex_project in Hproject. destruct (_ && _).
    - destruct (prop "cwd" _) as [[]|]; try done. injection Hproject as <-.
      by eexists (Some _).
    - injection Hproject as <-. by exists None. }
  pose proof (codex_roles_advances_1 (Some event)
                match base with
                | Some v => set_project v (cl_stats st)
                | None => cl_stats st
                end) as Hroles.
  destruct base as [v|]; [|advance].
  change (inc_messages (set_project v (cl_stats st)))
    with (set_project v (inc_messages (cl_stats st))) in Hroles.
  advance.
Qed.

Lemma codexLine_advances st line st' :
  codexLine st line = Some st' ->
  advances (length (omap JSON_parse [line])) (cl_stats st) (cl_stats st').
Proof.
  unfold codexLine. rewrite omap_cons_eq.
  destruct (JSON_parse line) as [event|].
  - apply codexEvent_advances.
  - intros [= <-]. apply advances_refl.
Qed.

Lemma omap_length_cons {A B} (f : A -> option B) x l :
  length (omap f (x :: l)) = length (omap f [x]) + length (omap f l).
Proof. rewrite !omap_cons_eq. simpl. by destruct (f x). Qed.

Lemma foldM_codexLine_advances lines st st' :
  foldM codexLine lines st = Some st' ->
  advances (length (omap JSON_parse lines)) (cl_stats st) (cl_stats st').
Proof.
  revert st. induction lines as [|line lines IH]; intros st.
  - intros [= <-]. apply advances_refl.
  - intros H. apply bind_Some in H as (s1 & Hline & H).
    rewrite omap_length_cons.
    eauto using advances_trans, codexLine_advances.
Qed.

Lemma codexArray_advances data st :
  path (codexArray data st).1 = path st
  /\ provider (codexArray data st).1 = provider st
  /\ messages (codexArray data st).1 = messages st
  /\ toolUses (codexArray data st).1 = toolUses st
  /\ userMessages (codexArray data st).1 + assistantMessages (codexArray data st).1
     <= userMessages st + assistantMessages st + length data.
Proof.
  revert st. induction data as [|msg data IH]; intros st; cbn [codexArray].
  - simpl. split_and!; (done || lia).
  - destruct (nullish (Some msg)); [simpl; split_and!; (done || lia)|].
    destruct (IH (count_role (str_is (prop "role" (Some msg)) "user")
                    (str_is (prop "role" (Some msg)) "assistant") st))
      as (-> & -> & -> & -> & Hle).
    unfold count_role in *. repeat case_match; simpl in *; split_and!; (done || lia).
Qed.

(** *** Provider C *)

Lemma geminiEvent_advances st event st' :
  geminiEvent st event = Some st' -> advances 1 st st'.
Proof.
  unfold geminiEvent. intros H.
  destruct (nullish (Some event)); [injection H as <-; advance|].
  apply bind_Some in H as (s1 & Husage & H).
  apply track_model_advances in H.
  pose proof (count_role_advances_1 (str_is (prop "role" (Some event)) "user")
                (str_is (prop "role" (Some event)) "model") st) as Hrole.
  destruct (truthy _).
  - apply bind_Some in Husage as (i & _ & Husage).
    apply bind_Some in Husage as (o & _ & [= <-]). advance.
  - injection Husage as <-. advance.
Qed.

Lemma foldM_geminiLine_advances lines st st' :
  foldM geminiLine lines st = Some st' ->
  advances (length (omap JSON_parse lines)) st st'.
Proof.
  revert st. induction lines as [|line lines IH]; intros st.
  - intros [= <-]. apply advances_refl.
  - intros H. apply bind_Some in H as (s1 & Hline & H).
    rewrite omap_length_cons. eapply advances_trans; [|eauto].
    unfold geminiLine in Hline. rewrite omap_cons_eq.
    destruct (JSON_parse line) as [event|].
    + by apply (geminiEvent_advances _ event).
    + injection Hline as <-. apply advances_refl.
Qed.

(** *** The three parsers *)

Lemma parseSession_fields (p : Provider) (filePath : string) (r : SessionStats) :
  parseSession fs p filePath = Some r ->
  path r = filePath /\ provider r = p
  /\ userMessages r + assistantMessages r <= messages r
  /\ default 0 (toolUses r) <= messages r.
Proof.
  destruct p; simpl.
  - intros H. destruct (readLines fs filePath) as [lines|] eqn:Hread.
    + pose proof (parseClaudeSession_advances _ _ _ Hread H). advance.
    + unfold parseClaudeSession in H. rewrite Hread in H.
      injection H as <-. simpl. split_and!; (done || lia).
  - unfold parseCodexSession. intros H.
    destruct (readFileSync fs filePath) as [content|];
      [|injection H as <-; simpl; split_and!; (done || lia)].
    destruct (endsWith filePath ".jsonl").
    + apply bind_Some in H as (st & Hfold & H).
      apply foldM_codexLine_advances in Hfold.
      apply price_tokens_advances in H. advance.
    + destruct (JSON_parse content) as [[| | | |data|]|];
        try (apply price_tokens_advances in H; advance);
        try (injection H as <-; simpl; split_and!; (done || lia)).
      pose proof (codexArray_advances data
                    (set_messages (length data) (codex_initial filePath)))
        as (Hp & Hq & Hm & Ht & Hle).
      destruct (codexArray data _) as [st [|]]; simpl in *.
      * injection H as <-. rewrite Ht, Hm. simpl. split_and!; (done || lia).
      * apply price_tokens_advances in H.
        destruct H as (-> & -> & -> & H1 & H2). rewrite Ht in H2.
        rewrite Hm. simpl in *. split_and!; (done || lia).
  - unfold parseGeminiSession. intros H.
    destruct (readFileSync fs filePath) as [content|];
      [|injection H as <-; simpl; split_and!; (done || lia)].
    apply bind_Some in H as (st & Hfold & H).
    apply foldM_geminiLine_advances in Hfold.
    apply price_tokens_advances in H. advance.
Qed.

(** X13.  Every record a parser returns carries the path of its file and
    its provider, and its counters are consistent: user and assistant
    messages together, and tool uses, are at most [messages]. *)
Theorem parser_counts (p : Provider) (filePath : string) (r : SessionStats) :
  parseSession fs p filePath = Some r ->
  path r = filePath /\ provider r = p
  /\ userMessages r + assistantMessages r <= messages r
  /\ default 0 (toolUses r) <= messages r.
Proof. apply parseSession_fields. Qed.

(** X14.  [messages] counts the JSON documents of the file: for each of the
    three line-delimited parsers it is the number of lines that are not blank
    and that [JSON.parse] accepts, whatever their shape is (the increment is
    the first statement after the parse).  Lines that are not JSON are left
    out without any other effect on the count. *)
Theorem messages_count_documents :
  (forall filePath lines r,
     readLines fs filePath = Some lines ->
     parseClaudeSession fs filePath = Some r ->
     messages r = length (documents lines))
  /\ (forall filePath content r,
        endsWith filePath ".jsonl" = true ->
        readFileSync fs filePath = Some content ->
        parseCodexSession fs filePath = Some r ->
        messages r = length (events_of content))
  /\ (forall filePath content r,
        readFileSync fs filePath = Some content ->
        parseGeminiSession fs filePath = Some r ->
        messages r = length (events_of content)).
Proof.
  split_and!.
  - intros filePath lines r Hread H.
    pose proof (parseClaudeSession_advances _ _ _ Hread H). advance.
  - intros filePath content r Hext Hread H. unfold parseCodexSession in H.
    rewrite Hread, Hext in H. apply bind_Some in H as (st & Hfold & H).
    apply foldM_codexLine_advances in Hfold.
    apply price_tokens_advances in H. unfold events_of. advance.
  - intros filePath content r Hread H. unfold parseGeminiSession in H.
    rewrite Hread in H. apply bind_Some in H as (st & Hfold & H).
    apply foldM_geminiLine_advances in Hfold.
    apply price_tokens_advances in H. unfold events_of. advance.
Qed.

End Counters.

(** *** Provider C, and the cost of a record *)

Section Token_totals.
Context {rt : Runtime} (fs : FileSystem).

Lemma add_or_zero_number (acc : Q) (v : option json) (r : Q) :
  add_or_zero acc v = Some r -> (r == acc + number_of v)%Q.
Proof.
  unfold add_or_zero, js_or, plus_assign.
  destruct v as [[| [] | q | s | l | l]|]; simpl; intros H;
    try discriminate; try (injection H as <-; ring).
  - destruct (Qeq_bool q 0) eqn:Hq; simpl in H; injection H as <-.
    + apply Qeq_bool_iff in Hq. rewrite Hq. ring.
    + reflexivity.
  - destruct (String.eqb s ""); simpl in H; [injection H as <-; ring | done].
Qed.

Lemma sumQ_cons (x : Q) (l : list Q) : sumQ (x :: l) = (x + sumQ l)%Q.
Proof. reflexivity. Qed.

Lemma geminiEvent_effect st event st' :
  geminiEvent st event = Some st' ->
  (inputTokens st' == inputTokens st + gemini_tokens "promptTokenCount" event)%Q
  /\ (outputTokens st'
      == outputTokens st + gemini_tokens "candidatesTokenCount" event)%Q
  /\ model st' = from_option Some (model st) (gemini_model event)
  /\ costUsd st' = costUsd st.
Proof.
  unfold geminiEvent, gemini_tokens, gemini_model. intros H.
  destruct (nullish (Some event)) eqn:Hnull.
  { injection H as <-. destruct event; try done. simpl. split_and!; (ring || done). }
  apply bind_Some in H as (s1 & Husage & H).
  pose proof (track_model_totals _ _ _ H) as (Hi & Ho & Hc).
  apply track_model_marks in H as (Hm & _).
  rewrite Hi, Ho, Hc, Hm. clear Hi Ho Hc Hm.
  destruct (truthy (prop "usageMetadata" (Some event))) eqn:Hu.
  - apply bind_Some in Husage as (i & Hin & Husage).
    apply bind_Some in Husage as (o & Hout & [= <-]).
    apply add_or_zero_number in Hin, Hout. simpl in *.
    unfold count_role in *.
    repeat case_match; simpl in *; split_and!; done.
  - injection Husage as <-.
    assert (forall k, number_of (prop k (prop "usageMetadata" (Some event))) = 0%Q)
      as Hzero.
    { intros k. destruct (prop "usageMetadata" (Some event)) as [[]|]; done. }
    rewrite !Hzero. unfold count_role.
    repeat case_match; simpl; split_and!; (ring || done).
Qed.

Lemma foldM_geminiLine_effect lines st st' :
  foldM geminiLine lines st = Some st' ->
  (inputTokens st'
   == inputTokens st
      + sumQ (gemini_tokens "promptTokenCount" <$> omap JSON_parse lines))%Q
  /\ (outputTokens st'
      == outputTokens st
         + sumQ (gemini_tokens "candidatesTokenCount"
                   <$> omap JSON_parse lines))%Q
  /\ model st'
     = from_option Some (model st)
         (last (omap gemini_model (omap JSON_parse lines)))
  /\ costUsd st' = costUsd st.
Proof.
  revert st. induction lines as [|line lines IH]; intros st.
  - intros [= <-]. unfold sumQ. simpl. split_and!; (ring || done).
  - intros H. apply bind_Some in H as (s1 & Hline & H).
    apply IH in H as (Hi & Ho & Hm & Hc). rewrite Hi, Ho, Hm, Hc. clear IH.
    unfold geminiLine in Hline. rewrite (omap_cons_eq JSON_parse).
    destruct (JSON_parse line) as [event|].
    + apply geminiEvent_effect in Hline as (Hi1 & Ho1 & Hm1 & Hc1).
      rewrite Hi1, Ho1, Hm1, Hc1. rewrite !fmap_cons, (omap_cons_eq gemini_model).
      rewrite !sumQ_cons. split_and!; [ring | ring | | done].
      destruct (gemini_model event) as [m|]; [|done].
      rewrite last_cons. by destruct (last _).
    + injection Hline as <-. done.
Qed.

(** X15.  Provider C counts tokens additively: the input and output tokens
    of a Gemini record are the sums of [usageMetadata.promptTokenCount] and
    [usageMetadata.candidatesTokenCount] over the events of the file, and its
    model is the last one an event names, ['gemini-2.0-flash'] when none
    does. *)
Theorem gemini_tokens_additive (filePath content : string) (r : SessionStats) :
  readFileSync fs filePath = Some content ->
  parseGeminiSession fs filePath = Some r ->
  (inputTokens r
   == sumQ (gemini_tokens "promptTokenCount" <$> events_of content))%Q
  /\ (outputTokens r
      == sumQ (gemini_tokens "candidatesTokenCount" <$> events_of content))%Q
  /\ model r
     = Some (default "gemini-2.0-flash"
               (last (omap gemini_model (events_of content)))).
Proof.
  intros Hread H. unfold parseGeminiSession in H. rewrite Hread in H.
  apply bind_Some in H as (st & Hfold & H).
  apply foldM_geminiLine_effect in Hfold as (Hi & Ho & Hm & _).
  pose proof (price_tokens_fields _ _ _ H) as (-> & -> & _ & _ & _ & -> & _).
  simpl in *. rewrite Hi, Ho, Hm. unfold events_of.
  split_and!; [ring | ring |]. by destruct (last _).
Qed.

(** *** The cost of a Codex or Gemini record *)

Lemma price_tokens_cost st st' :
  price_tokens true st = Some st' ->
  costUsd st = 0%Q ->
  if Qgtb (inputTokens st') 0 || Qgtb (outputTokens st') 0
  then calculateCost (inputTokens st') (outputTokens st') (model st')
       = Some (costUsd st')
  else costUsd st' = 0%Q.
Proof.
  unfold price_tokens. simpl. intros H Hzero.
  destruct (Qgtb (inputTokens st) 0 || Qgtb (outputTokens st) 0) eqn:Hpos.
  - apply bind_Some in H as (c & Hc & [= <-]). simpl. by rewrite Hpos.
  - injection H as <-. by rewrite Hpos.
Qed.

Lemma codex_roles_cost ev st : costUsd (codex_roles ev st) = costUsd st.
Proof. unfold codex_roles, count_role. by repeat case_match. Qed.

Lemma codexLine_cost st line st' :
  codexLine st line = Some st' ->
  costUsd (cl_stats st') = costUsd (cl_stats st).
Proof.
  unfold codexLine. destruct (JSON_parse line) as [e|]; [|by intros [= <-]].
  unfold codexEvent. destruct (nullish (Some e)); [by intros [= <-]|].
  destruct (codex_project _ _) as [s0|] eqn:Hproject; [|by intros [= <-]].
  assert (costUsd s0 = costUsd (cl_stats st)) as <-.
  { unfold codex_project in Hproject.
    destruct (_ && _); [|by injection Hproject as <-].
    destruct (prop "cwd" _) as [[]|]; try done. by injection Hproject as <-. }
  unfold codex_accumulate. cbn [cl_stats]. intros H.
  apply bind_Some in H as (totals & _ & H).
  apply bind_Some in H as (s1 & Hmodel & H).
  apply bind_Some in H as (s2 & Hts & [= <-]). cbn [cl_stats].
  apply track_timestamp_totals in Hts as (_ & _ & ->).
  unfold codex_model in Hmodel. rewrite <- (codex_roles_cost (Some e) s0).
  destruct (_ && _); [|by injection Hmodel as <-].
  by apply bind_Some in Hmodel as (name & _ & [= <-]).
Qed.

(** X16.  The cost of a Codex or Gemini record is never read from the file:
    it is [calculateCost] of the tokens and the model of the record when one
    of the token counts is positive, and 0 otherwise. *)
Theorem cost_is_priced (p : Provider) (filePath : string) (r : SessionStats) :
  p <> claude ->
  parseSession fs p filePath = Some r ->
  if Qgtb (inputTokens r) 0 || Qgtb (outputTokens r) 0
  then calculateCost (inputTokens r) (outputTokens r) (model r)
       = Some (costUsd r)
  else costUsd r = 0%Q.
Proof.
  intros Hp. destruct p; [done| |]; simpl.
  - unfold parseCodexSession. intros H.
    destruct (readFileSync fs filePath) as [content|];
      [|by injection H as <-].
    destruct (endsWith filePath ".jsonl").
    + apply bind_Some in H as (st & Hfold & H).
      apply price_tokens_cost in H; [done|]. simpl.
      apply (foldM_invariant codexLine
               (fun st => costUsd (cl_stats st) = 0%Q)) in Hfold; [done| |done].
      intros a x a' Ha Hx. apply codexLine_cost in Hx. congruence.
    + destruct (JSON_parse content) as [[| | | |data|]|];
        try (by apply price_tokens_cost in H);
        try (by injection H as <-).
      pose proof (codexArray_spec data
                    (set_messages (length data) (codex_initial filePath)))
        as (_ & _ & _ & (Hi & Ho & Hc) & _).
      destruct (codexArray data _) as [st [|]]; simpl in *.
      * injection H as <-. by rewrite Hi, Ho.
      * by apply price_tokens_cost in H.
  - unfold parseGeminiSession. intros H.
    destruct (readFileSync fs filePath) as [content|];
      [|by injection H as <-].
    apply bind_Some in H as (st & Hfold & H).
    apply price_tokens_cost in H; [done|].
    by apply foldM_geminiLine_effect in Hfold as (_ & _ & _ & ->).
Qed.

End Token_totals.

(** ** The store across a pass *)

Section Keys.
Context {A : Type} (key : A -> string).

Lemma update_keys (f : string) (u : A -> A) (l : list A) :
  (forall r, key r = f -> key (u r) = key r) ->
  key <$> ((fun r => if String.eqb (key r) f then u r else r) <$> l)
  = key <$> l.
Proof.
  intros Hu. induction l as [|r l IH]; [done|]. rewrite !fmap_cons, IH.
  destruct (String.eqb_spec (key r) f); [|done]. by rewrite Hu.
Qed.

Lemma upsert_keys (f : string) (new : A) (l : list A) :
  key new = f ->
  key <$> (if existsb (fun r => String.eqb (key r) f) l
           then (fun r => if String.eqb (key r) f then new else r) <$> l
           else (l ++ [new])%list)
  = if existsb (fun r => String.eqb (key r) f) l
    then key <$> l else ((key <$> l) ++ [f])%list.
Proof.
  intros Hnew. destruct (existsb _ l).
  - apply (update_keys f (fun _ => new)). congruence.
  - by rewrite fmap_app, <- Hnew.
Qed.

Lemma existsb_key_elem (f : string) (l : list A) :
  existsb (fun r => String.eqb (key r) f) l = true <-> f ∈ key <$> l.
Proof.
  rewrite existsb_exists, list_elem_of_fmap. split.
  - intros (r & Hr & Heq%String.eqb_eq). exists r.
    split; [done | by apply list_elem_of_In].
  - intros (r & -> & Hr). exists r.
    split; [by apply list_elem_of_In | apply String.eqb_refl].
Qed.

Lemma upsert_NoDup (f : string) (new : A) (l : list A) :
  key new = f -> NoDup (key <$> l) ->
  NoDup (key <$> (if existsb (fun r => String.eqb (key r) f) l
                  then (fun r => if String.eqb (key r) f then new else r) <$> l
                  else (l ++ [new])%list)).
Proof.
  intros Hnew Hl. rewrite upsert_keys by done.
  destruct (existsb _ l) eqn:Hex; [done|].
  apply NoDup_app. split_and!; [done| |apply NoDup_singleton].
  intros x Hx ->%list_elem_of_singleton.
  apply existsb_key_elem in Hx. congruence.
Qed.

Lemma upsert_key_elem (f : string) (new : A) (l : list A) (g : string) :
  key new = f ->
  g ∈ key <$> (if existsb (fun r => String.eqb (key r) f) l
               then (fun r => if String.eqb (key r) f then new else r) <$> l
               else (l ++ [new])%list)
  <-> g = f \/ g ∈ key <$> l.
Proof.
  intros Hnew. rewrite upsert_keys by done.
  destruct (existsb _ l) eqn:Hex.
  - apply existsb_key_elem in Hex. split; [auto|]. by intros [->|].
  - rewrite elem_of_app, list_elem_of_singleton. tauto.
Qed.

End Keys.

Section Store_invariant.
Context {rt : Runtime} (fs : FileSystem).

Lemma parseSession_identity p f r :
  parseSession fs p f = Some r -> path r = f /\ provider r = p.
Proof. intros H. apply parseSession_fields in H. tauto. Qed.

(** *** One file *)

Lemma upsertFileRecord_paths d f p m s now g :
  g ∈ Db.file_path <$> Db.files (Db.upsertFileRecord d f p m s now)
  <-> g = f \/ g ∈ Db.file_path <$> Db.files d.
Proof.
  unfold Db.upsertFileRecord. cbn [Db.files].
  destruct (existsb _ (Db.files d)) eqn:Hex.
  - rewrite (update_keys Db.file_path) by done.
    apply (existsb_key_elem Db.file_path) in Hex. split; [auto|]. by intros [->|].
  - rewrite fmap_app, elem_of_app. simpl. rewrite list_elem_of_singleton. tauto.
Qed.

Lemma upsertFileRecord_NoDup d f p m s now :
  NoDup (Db.file_path <$> Db.files d) ->
  NoDup (Db.file_path <$> Db.files (Db.upsertFileRecord d f p m s now)).
Proof.
  unfold Db.upsertFileRecord. cbn [Db.files]. intros Hd.
  destruct (existsb _ (Db.files d)) eqn:Hex.
  - by rewrite (update_keys Db.file_path).
  - rewrite fmap_app. simpl.
    apply NoDup_app. split_and!; [done| |apply NoDup_singleton].
    intros x Hx ->%list_elem_of_singleton.
    apply (existsb_key_elem Db.file_path) in Hx. congruence.
Qed.

Lemma stored_sound d session f p m s now :
  path session = f -> 0 < messages session -> sound d ->
  sound (Db.upsertFileRecord (Db.upsertSession d session) f p m s now).
Proof.
  intros Hpath Hmessages [Hs Hf Hp Hm]. split.
  - cbn [Db.upsertFileRecord Db.sessions Db.upsertSession].
    by apply (upsert_NoDup path).
  - apply upsertFileRecord_NoDup. done.
  - intros g. rewrite upsertFileRecord_paths.
    cbn [Db.upsertFileRecord Db.sessions Db.upsertSession Db.files].
    rewrite (upsert_key_elem path) by done. rewrite Hpath, Hp. done.
  - cbn [Db.upsertFileRecord Db.sessions]. apply Forall_forall.
    intros x [->|[Hx _]]%upsertSession_sessions; [done|].
    by eapply Forall_forall in Hm.
Qed.

Lemma syncFile_sound clock p st f st' :
  syncFile fs clock p st f = Some st' ->
  sound (loop_db st) -> sound (loop_db st').
Proof.
  unfold syncFile. intros H Hsound.
  destruct (statSync fs f) as [[mtime size]|]; [|by injection H as <-].
  destruct (Db.needsUpdate _ _ _ _); [|by injection H as <-].
  apply bind_Some in H as (session & Hparse & H).
  destruct (0 <? messages session) eqn:Hm; [|by injection H as <-].
  injection H as <-. cbn [loop_db].
  apply parseSession_identity in Hparse as [Hpath _].
  apply stored_sound; [done| |done]. by apply Nat.ltb_lt.
Qed.

Lemma deleteFile_sound d h : sound d -> sound (Db.deleteFile d h).
Proof.
  intros [Hs Hf Hp Hm]. split.
  - unfold Db.deleteFile. cbn [Db.sessions].
    eapply sublist_NoDup; [exact Hs|]. apply fmap_sublist, sublist_filter.
  - unfold Db.deleteFile. cbn [Db.files].
    eapply sublist_NoDup; [exact Hf|]. apply fmap_sublist, sublist_filter.
  - intros g. rewrite !list_elem_of_fmap. split.
    + intros (x & -> & [Hx Hne]%deleteFile_sessions).
      assert (path x ∈ Db.file_path <$> Db.files d) as Hin.
      { apply Hp, list_elem_of_fmap. eauto. }
      apply list_elem_of_fmap in Hin as (r & Hr & Hin). exists r.
      split; [done|]. apply deleteFile_files. split; [done|]. congruence.
    + intros (r & -> & [Hr Hne]%deleteFile_files).
      assert (Db.file_path r ∈ path <$> Db.sessions d) as Hin.
      { apply Hp, list_elem_of_fmap. eauto. }
      apply list_elem_of_fmap in Hin as (x & Hx & Hin). exists x.
      split; [done|]. apply deleteFile_sessions. split; [done|]. congruence.
  - apply Forall_forall. intros x [Hx _]%deleteFile_sessions.
    by eapply Forall_forall in Hm.
Qed.

Lemma cleanup_loop_sound existing acc paths :
  sound acc.2 -> sound (Db.cleanup_loop existing acc paths).2.
Proof.
  revert acc. induction paths as [|h paths IH]; intros acc Hacc; [done|].
  simpl. change (foldl _ ?a paths) with (Db.cleanup_loop existing a paths).
  apply IH. destruct (bool_decide _); [done|]. by apply deleteFile_sound.
Qed.

Lemma sound_counts d : sound d -> Db.sessionCount d = Db.fileCount d.
Proof.
  intros [Hs Hf Hp _]. unfold Db.sessionCount, Db.fileCount.
  rewrite <- (length_fmap path), <- (length_fmap Db.file_path).
  apply Permutation_length. by apply NoDup_Permutation.
Qed.

Lemma syncProvider_keeps_sound (clock : string -> Z) (p : Provider)
    (d d1 : Db.Database) (counts : SyncCounts) :
  sound d -> syncProvider fs clock p d = Some (counts, d1) -> sound d1.
Proof.
  intros Hsound H. unfold syncProvider in H.
  destruct (negb _ || negb _); [by injection H as _ <-|].
  apply bind_Some in H as (st & Hfold & [= _ <-]).
  apply cleanup_loop_sound. simpl.
  apply (foldM_invariant (syncFile fs clock p) (fun st => sound (loop_db st)))
    in Hfold; [done| |done].
  intros a x a' Ha Hx. by eapply syncFile_sound.
Qed.

(** X18.  [syncProvider] keeps the store well formed: one row per path in
    each table, the same paths in both tables and no session without a
    message; hence [getStats] reports as many sessions as files. *)
Theorem syncProvider_sound (clock : string -> Z) (p : Provider)
    (d d1 : Db.Database) (counts : SyncCounts) :
  sound d ->
  syncProvider fs clock p d = Some (counts, d1) ->
  sound d1 /\ Db.sessionCount d1 = Db.fileCount d1.
Proof.
  intros Hsound H. assert (sound d1) by eauto using syncProvider_keeps_sound.
  auto using sound_counts.
Qed.

End Store_invariant.

Section Passes.
Context {rt : Runtime} (fs : FileSystem).


(** X19.  A candidate file that needs an update and whose record has a
    message is stored: its row is the only row of the provider at that path,
    the file is current afterwards, and exactly one of the two counters goes
    up, [added] when the file had no row. *)
Theorem changed_file_stored (clock : string -> Z) (p : Provider)
    (st : SyncLoop) (f : string) (mtime size : Z) (session : SessionStats) :
  statSync fs f = Some (mtime, size) ->
  Db.needsUpdate (loop_db st) f mtime size = true ->
  parseSession fs p f = Some session ->
  0 < messages session ->
  exists st',
    syncFile fs clock p st f = Some st'
    /\ (forall x, x ∈ Db.getSessions (loop_db st') p /\ path x = f
                  <-> x = Db.session_row session)
    /\ Db.needsUpdate (loop_db st') f mtime size = false
    /\ loop_added st' + loop_updated st' = S (loop_added st + loop_updated st)
    /\ (loop_added st' = S (loop_added st)
        <-> Db.getFileRecord (loop_db st) f = None).
Proof.
  intros Hstat Hneeds Hparse Hm. unfold syncFile.
  rewrite Hstat, Hneeds, Hparse. simpl.
  apply Nat.ltb_lt in Hm as Hm'. rewrite Hm'.
  apply parseSession_identity in Hparse as [Hpath Hprov].
  eexists. split; [reflexivity|]. cbn [loop_db loop_added loop_updated].
  split_and!.
  - intros x. rewrite getSessions_elem.
    cbn [Db.upsertFileRecord Db.sessions]. rewrite upsertSession_sessions.
    rewrite Hpath. split.
    + intros [[[->|[_ Hne]] _] Hx]; done.
    + intros ->. split_and!; [by left | done | done].
  - apply needsUpdate_upsertFileRecord_same.
  - destruct (Db.getFileRecord (loop_db st) f); simpl; lia.
  - destruct (Db.getFileRecord (loop_db st) f) as [r|]; simpl;
      split; intros; first [lia | done].
Qed.

(** *** What a pass leaves alone *)

Lemma upsertFileRecord_other d f p m s now r :
  Db.file_path r <> f ->
  r ∈ Db.files (Db.upsertFileRecord d f p m s now) <-> r ∈ Db.files d.
Proof.
  intros Hne. unfold Db.upsertFileRecord. cbn [Db.files].
  destruct (existsb _ (Db.files d)).
  - rewrite list_elem_of_fmap. split.
    + intros (x & -> & Hx). destruct (String.eqb_spec (Db.file_path x) f); [|done].
      simpl in Hne. congruence.
    + intros Hr. exists r. split; [|done].
      by apply String.eqb_neq in Hne as ->.
  - rewrite elem_of_app, list_elem_of_singleton. split; [|auto].
    intros [?| ->]; [done|]. simpl in Hne. congruence.
Qed.

Lemma syncFile_frame clock p st f st' g :
  syncFile fs clock p st f = Some st' -> g <> f ->
  (forall s, path s = g ->
             (s ∈ Db.sessions (loop_db st') <-> s ∈ Db.sessions (loop_db st)))
  /\ (forall r, Db.file_path r = g ->
                (r ∈ Db.files (loop_db st') <-> r ∈ Db.files (loop_db st))).
Proof.
  unfold syncFile. intros H Hne.
  destruct (statSync fs f) as [[mtime size]|]; [|by injection H as <-].
  destruct (Db.needsUpdate _ _ _ _); [|by injection H as <-].
  apply bind_Some in H as (session & Hparse & H).
  destruct (0 <? messages session); [|by injection H as <-].
  injection H as <-. cbn [loop_db].
  apply parseSession_identity in Hparse as [Hpath _]. split.
  - intros s Hs. cbn [Db.upsertFileRecord Db.sessions].
    rewrite upsertSession_sessions, Hpath. split.
    + intros [->|[? _]]; [|done]. simpl in Hs. congruence.
    + intros ?. right. split; [done|congruence].
  - intros r Hr. rewrite upsertFileRecord_other by congruence. done.
Qed.

Lemma syncFile_rows clock p st f st' s :
  f ∈ sessionFiles fs (SESSION_DIRS p) ->
  syncFile fs clock p st f = Some st' ->
  s ∈ Db.sessions (loop_db st') ->
  s ∈ Db.sessions (loop_db st) \/ fresh_row fs p s.
Proof.
  unfold syncFile. intros Hf H.
  destruct (statSync fs f) as [[mtime size]|]; [|injection H as <-; auto].
  destruct (Db.needsUpdate _ _ _ _); [|injection H as <-; auto].
  apply bind_Some in H as (session & Hparse & H).
  destruct (0 <? messages session) eqn:Hm; [|injection H as <-; auto].
  injection H as <-. cbn [loop_db Db.upsertFileRecord Db.sessions].
  intros [->|[? _]]%upsertSession_sessions; [right|by left].
  pose proof (parseSession_identity _ _ _ _ Hparse) as [Hpath _].
  exists session. rewrite session_row_path, Hpath.
  split_and!; [done | done | by apply Nat.ltb_lt | done].
Qed.

Lemma foldM_syncFile_frame clock p files st st' g :
  foldM (syncFile fs clock p) files st = Some st' -> g ∉ files ->
  (forall s, path s = g ->
             (s ∈ Db.sessions (loop_db st') <-> s ∈ Db.sessions (loop_db st)))
  /\ (forall r, Db.file_path r = g ->
                (r ∈ Db.files (loop_db st') <-> r ∈ Db.files (loop_db st))).
Proof.
  revert st. induction files as [|f files IH]; intros st.
  - by intros [= <-].
  - intros H Hg. apply bind_Some in H as (s1 & Hf & H).
    apply not_elem_of_cons in Hg as [Hne Hg].
    destruct (IH _ H Hg) as [IH1 IH2].
    destruct (syncFile_frame _ _ _ _ _ g Hf Hne) as [H1 H2]. split.
    + intros s Hs. by rewrite IH1, H1.
    + intros r Hr. by rewrite IH2, H2.
Qed.

Lemma foldM_syncFile_rows clock p files st st' s :
  (forall f, f ∈ files -> f ∈ sessionFiles fs (SESSION_DIRS p)) ->
  foldM (syncFile fs clock p) files st = Some st' ->
  s ∈ Db.sessions (loop_db st') ->
  s ∈ Db.sessions (loop_db st) \/ fresh_row fs p s.
Proof.
  revert st. induction files as [|f files IH]; intros st Hfiles.
  - intros [= <-]. auto.
  - intros H Hs. apply bind_Some in H as (s1 & Hf & H).
    destruct (IH s1) as [Hin|]; [by intros; apply Hfiles; right|done|done| |by right].
    eapply syncFile_rows; [|done..]. apply Hfiles. by left.
Qed.

(** X20.  [syncProvider] leaves every other path alone: the session rows
    and the file rows at a path that is neither a candidate file of the
    provider nor tracked for it are the same before and after. *)
Theorem syncProvider_frame (clock : string -> Z) (p : Provider)
    (d d1 : Db.Database) (counts : SyncCounts) (f : string) :
  syncProvider fs clock p d = Some (counts, d1) ->
  f ∉ sessionFiles fs (SESSION_DIRS p) ->
  f ∉ Db.getTrackedFiles d p ->
  (forall s, path s = f -> (s ∈ Db.sessions d1 <-> s ∈ Db.sessions d))
  /\ (forall r, Db.file_path r = f -> (r ∈ Db.files d1 <-> r ∈ Db.files d)).
Proof.
  unfold syncProvider. intros H Hcandidate Htracked.
  destruct (negb _ || negb _); [by injection H as _ <-|].
  apply bind_Some in H as (st & Hfold & [= _ <-]).
  destruct (foldM_syncFile_frame _ _ _ _ _ f Hfold Hcandidate) as [H1 H2].
  simpl in H1, H2.
  assert (f ∉ Db.getTrackedFiles (loop_db st) p) as Htracked'.
  { intros (r & Hr & Hp & Hpath)%getTrackedFiles_elem. apply Htracked.
    apply getTrackedFiles_elem. exists r. by rewrite <- H2. }
  unfold Db.cleanupDeletedFiles. split.
  - intros s Hs. rewrite cleanup_loop_sessions. simpl. rewrite H1 by done.
    split; [tauto|]. intros Hin. split; [done|]. intros h Hh _. congruence.
  - intros r Hr. rewrite cleanup_loop_files. simpl. rewrite H2 by done.
    split; [tauto|]. intros Hin. split; [done|]. intros h Hh _. congruence.
Qed.

Lemma syncProvider_rows clock p d d1 counts s :
  syncProvider fs clock p d = Some (counts, d1) ->
  s ∈ Db.sessions d1 -> s ∈ Db.sessions d \/ fresh_row fs p s.
Proof.
  unfold syncProvider. intros H.
  destruct (negb _ || negb _); [injection H as _ <-; auto|].
  apply bind_Some in H as (st & Hfold & [= _ <-]).
  unfold Db.cleanupDeletedFiles. intros [Hs _]%cleanup_loop_sessions.
  simpl in Hs.
  apply (foldM_syncFile_rows clock p _ _ _ s (fun f Hf => Hf) Hfold Hs).
Qed.

(** *** The cache after a full pass *)

Lemma syncAll_fields clock now sp c1 c2 c3 sp' :
  syncAll fs clock now sp = Some (c1, c2, c3, sp') ->
  cache sp' = cache sp /\ lastSyncTime sp' = now
  /\ exists d1 d2,
       syncProvider fs clock claude (db sp) = Some (c1, d1)
       /\ syncProvider fs clock codex d1 = Some (c2, d2)
       /\ syncProvider fs clock gemini d2 = Some (c3, db sp').
Proof.
  unfold syncAll. intros H.
  apply bind_Some in H as ([c1' d1] & H1 & H).
  apply bind_Some in H as ([c2' d2] & H2 & H).
  apply bind_Some in H as ([c3' d3] & H3 & H).
  simplify_eq. simpl. eauto 10.
Qed.

(** X22.  [syncAll] does not touch the snapshots: a [getSessions] that
    follows it within the debounce window returns the snapshot taken before
    the pass, whatever the pass wrote to the store. *)
Theorem snapshot_outlives_syncAll (clock clock' : string -> Z) (now now' : Z)
    (sp sp' : SessionParser) (c1 c2 c3 : SyncCounts) (p : Provider)
    (snapshot : list SessionStats) :
  syncAll fs clock now sp = Some (c1, c2, c3, sp') ->
  cache sp !! cacheKey p = Some snapshot ->
  (now' - now < syncInterval)%Z ->
  getSessions fs clock' now' sp' p = Some (snapshot, sp').
Proof.
  intros (Hcache & Htime & _)%syncAll_fields Hsnapshot Hrecent.
  unfold getSessions. rewrite Hcache, Hsnapshot, Htime.
  by apply Z.ltb_lt in Hrecent as ->.
Qed.

(** *** Rebuilding *)

Lemma sound_empty d : sound (Db.clearAll d).
Proof. split; simpl; [apply NoDup_nil_2 | apply NoDup_nil_2 | done | constructor]. Qed.

(** X23.  After [forceRebuild] the cache is empty, the store is well
    formed, and every session row is the record the parser gives now for a
    candidate file of some provider: nothing of the old store survives. *)
Theorem forceRebuild_fresh (clock : string -> Z) (now : Z)
    (sp sp' : SessionParser) :
  forceRebuild fs clock now sp = Some sp' ->
  cache sp' = ∅ /\ lastSyncTime sp' = now
  /\ sound (db sp')
  /\ forall s, s ∈ Db.sessions (db sp') -> exists p, fresh_row fs p s.
Proof.
  unfold forceRebuild. intros H.
  apply bind_Some in H as ([[[c1 c2] c3] sp1] & H & [= <-]).
  apply syncAll_fields in H as (Hcache & Htime & d1 & d2 & H1 & H2 & H3).
  simpl in *. split_and!; [done | done | |].
  - pose proof (sound_empty (db sp)) as H0.
    apply (syncProvider_keeps_sound fs _ _ _ _ _ H0) in H1.
    apply (syncProvider_keeps_sound fs _ _ _ _ _ H1) in H2.
    by apply (syncProvider_keeps_sound fs _ _ _ _ _ H2) in H3.
  - intros s Hs.
    eapply syncProvider_rows in Hs as [Hs|]; [|by eauto|done].
    eapply syncProvider_rows in Hs as [Hs|]; [|by eauto|done].
    eapply syncProvider_rows in Hs as [Hs|]; [|by eauto|done].
    by apply elem_of_nil in Hs.
Qed.

End Passes.

(** *** The counters of a pass *)

Section Accounting.
Context {rt : Runtime} (fs : FileSystem).

Lemma syncFile_accounting clock p st f st' :
  syncFile fs clock p st f = Some st' ->
  length (Db.files (loop_db st')) + loop_added st
  = length (Db.files (loop_db st)) + loop_added st'
  /\ loop_added st' + loop_updated st'
     <= S (loop_added st + loop_updated st)
  /\ loop_added st <= loop_added st'.
Proof.
  unfold syncFile. intros H.
  destruct (statSync fs f) as [[mtime size]|]; [|injection H as <-; lia].
  destruct (Db.needsUpdate _ _ _ _); [|injection H as <-; lia].
  apply bind_Some in H as (session & Hparse & H).
  destruct (0 <? messages session); [|injection H as <-; lia].
  injection H as <-. cbn [loop_db loop_added loop_updated].
  unfold Db.upsertFileRecord, Db.getFileRecord.
  cbn [Db.files Db.upsertSession]. rewrite (existsb_key_find Db.file_path).
  destruct (find _ (Db.files (loop_db st))); simpl.
  - rewrite length_fmap. lia.
  - rewrite length_app. simpl. lia.
Qed.

Lemma foldM_syncFile_accounting clock p files st st' :
  foldM (syncFile fs clock p) files st = Some st' ->
  length (Db.files (loop_db st')) + loop_added st
  = length (Db.files (loop_db st)) + loop_added st'
  /\ loop_added st' + loop_updated st'
     <= loop_added st + loop_updated st + length files
  /\ loop_added st <= loop_added st'.
Proof.
  revert st. induction files as [|f files IH]; intros st.
  - intros [= <-]. simpl. lia.
  - intros H. apply bind_Some in H as (s1 & Hf & H).
    apply syncFile_accounting in Hf. apply IH in H. simpl. lia.
Qed.

Lemma filter_keep_all {A : Type} (P : A -> Prop) `{!forall x, Decision (P x)}
    (l : list A) :
  (forall x, x ∈ l -> P x) -> filter P l = l.
Proof.
  induction l as [|x l IH]; [done|]. intros Hall. rewrite filter_cons.
  rewrite decide_True by (apply Hall; by left). f_equal. apply IH.
  intros y Hy. apply Hall. by right.
Qed.

Lemma delete_one {A : Type} (key : A -> string) (h : string) (l : list A) :
  NoDup (key <$> l) -> h ∈ key <$> l ->
  S (length (filter (fun r => String.eqb (key r) h = false) l)) = length l.
Proof.
  induction l as [|x l IH]; [by intros _ ?%elem_of_nil|].
  rewrite fmap_cons. intros [Hx Hl]%NoDup_cons Hh. rewrite filter_cons.
  destruct (String.eqb_spec (key x) h) as [Heq|Hne].
  - rewrite decide_False by done. simpl. f_equal. f_equal.
    apply filter_keep_all. intros y Hy. apply String.eqb_neq. intros Hy'.
    apply Hx. rewrite Heq, <- Hy'. by apply list_elem_of_fmap_2.
  - rewrite decide_True by done. simpl. f_equal. apply IH; [done|].
    apply elem_of_cons in Hh as [Hh|Hh]; [congruence|done].
Qed.

Lemma cleanup_loop_accounting existing acc paths :
  NoDup (Db.file_path <$> Db.files acc.2) ->
  NoDup paths ->
  (forall h, h ∈ paths -> h ∈ Db.file_path <$> Db.files acc.2) ->
  length (Db.files (Db.cleanup_loop existing acc paths).2)
  + (Db.cleanup_loop existing acc paths).1
  = length (Db.files acc.2) + acc.1.
Proof.
  revert acc. induction paths as [|h paths IH]; intros acc Hfiles Hpaths Hsub;
    [done|].
  simpl. change (foldl _ ?a paths) with (Db.cleanup_loop existing a paths).
  apply NoDup_cons in Hpaths as [Hh Hpaths].
  destruct (bool_decide (h ∈ existing)).
  - apply IH; [done..|]. intros h' Hh'. apply Hsub. by right.
  - rewrite IH; cbn [fst snd].
    + unfold Db.deleteFile. cbn [Db.files].
      rewrite <- (delete_one Db.file_path h (Db.files acc.2));
        [lia | done | apply Hsub; by left].
    + unfold Db.deleteFile. cbn [Db.files].
      eapply sublist_NoDup; [exact Hfiles|]. apply fmap_sublist, sublist_filter.
    + done.
    + intros h' Hh'. apply list_elem_of_fmap.
      assert (h' ∈ Db.file_path <$> Db.files acc.2) as Hin
        by (apply Hsub; by right).
      apply list_elem_of_fmap in Hin as (r & -> & Hr). exists r.
      split; [done|]. apply deleteFile_files. split; [done|].
      intros Heq. apply Hh. by rewrite <- Heq.
Qed.

Lemma foldM_syncFile_sound clock p files st st' :
  foldM (syncFile fs clock p) files st = Some st' ->
  sound (loop_db st) -> sound (loop_db st').
Proof.
  intros Hfold Hs.
  apply (foldM_invariant (syncFile fs clock p) (fun st => sound (loop_db st)))
    in Hfold; [done| |done].
  intros a x a' Ha Hx. by eapply syncFile_sound.
Qed.

(** X21.  The counters [syncProvider] returns account for the rows: on a
    well-formed store the number of files, and of sessions, goes up by
    [added] and down by [deleted], and [added + updated] is at most the
    number of candidate files. *)
Theorem syncProvider_accounting (clock : string -> Z) (p : Provider)
    (d d1 : Db.Database) (counts : SyncCounts) :
  sound d ->
  syncProvider fs clock p d = Some (counts, d1) ->
  Db.fileCount d1 + deleted counts = Db.fileCount d + added counts
  /\ Db.sessionCount d1 + deleted counts = Db.sessionCount d + added counts
  /\ added counts + updated counts
     <= length (sessionFiles fs (SESSION_DIRS p)).
Proof.
  intros Hsound H.
  assert (Db.fileCount d1 + deleted counts = Db.fileCount d + added counts
          /\ added counts + updated counts
             <= length (sessionFiles fs (SESSION_DIRS p))) as [H1 H2].
  { unfold syncProvider in H.
    destruct (negb _ || negb _); [injection H as <- <-; simpl; lia|].
    apply bind_Some in H as (st & Hfold & [= <- <-]).
    cbn [added updated deleted].
    pose proof (foldM_syncFile_sound _ _ _ _ _ Hfold Hsound) as [_ Hnd _ _].
    apply foldM_syncFile_accounting in Hfold as (Hlen & Hle & _).
    simpl in Hlen, Hle. split; [|lia].
    unfold Db.cleanupDeletedFiles, Db.fileCount.
    rewrite cleanup_loop_accounting; cbn [fst snd]; [lia | done | |].
    - unfold Db.getTrackedFiles.
      eapply sublist_NoDup; [exact Hnd|]. apply fmap_sublist, sublist_filter.
    - intros h (r & Hr & _ & <-)%getTrackedFiles_elem.
      by apply list_elem_of_fmap_2. }
  split_and!; [done| |done].
  rewrite (sound_counts d) by done.
  rewrite (sound_counts d1); [done|].
  by apply (syncProvider_keeps_sound fs _ _ _ _ _ Hsound H).
Qed.

End Accounting.


(** ** Aggregation *)

Lemma foldM_app {A B : Type} (f : B -> A -> option B) (l1 l2 : list A) (acc : B) :
  foldM f (l1 ++ l2) acc = (acc' ← foldM f l1 acc; foldM f l2 acc').
Proof.
  revert acc. induction l1 as [|x l1 IH]; intros acc; [done|]. simpl.
  destruct (f acc x) as [a|]; [apply IH|done].
Qed.

Section Keyed_tally.
Context {I V : Type} (step : I -> gmap string V -> option (gmap string V)).
Context (key : I -> option string) (zero : I -> V) (add : V -> I -> V).
Hypothesis step_spec :
  forall i m m', step i m = Some m' ->
    m' = match key i with
         | None => m
         | Some k => <[k := add (default (zero i) (m !! k)) i]> m
         end.

Lemma keyed_tally (l : list I) (m m' : gmap string V) :
  foldM (fun m i => step i m) l m = Some m' ->
  forall k,
    m' !! k = match filter (fun i => key i = Some k) l with
              | [] => m !! k
              | i :: rest =>
                  Some (foldl add (default (zero i) (m !! k)) (i :: rest))
              end.
Proof.
  revert m. induction l as [|i l IH]; intros m.
  - by intros [= <-] k.
  - intros H k. apply bind_Some in H as (m1 & Hstep & H).
    apply step_spec in Hstep. rewrite (IH _ H k). rewrite filter_cons.
    destruct (decide (key i = Some k)) as [Hk|Hk].
    + rewrite Hk in Hstep. subst m1. rewrite lookup_insert_eq. simpl.
      by destruct (filter _ l).
    + assert (m1 !! k = m !! k) as ->; [|done]. subst m1.
      destruct (key i) as [k'|]; [|done].
      apply lookup_insert_ne. congruence.
Qed.

End Keyed_tally.

Section Aggregation.
Context {rt : Runtime} (fs : FileSystem).
Variable Date_toISODate : string -> option string.

Lemma sumQ_app (l1 l2 : list Q) : (sumQ (l1 ++ l2) == sumQ l1 + sumQ l2)%Q.
Proof.
  induction l1 as [|x l1 IH].
  - unfold sumQ. simpl. ring.
  - rewrite <- app_comm_cons, !sumQ_cons, IH. ring.
Qed.

Lemma sumQ_perm (l1 l2 : list Q) : l1 ≡ₚ l2 -> (sumQ l1 == sumQ l2)%Q.
Proof.
  induction 1 as [|x l1 l2 _ IH|x y l|l1 l2 l3 _ IH1 _ IH2].
  - reflexivity.
  - rewrite !sumQ_cons, IH. reflexivity.
  - rewrite !sumQ_cons. ring.
  - by rewrite IH1.
Qed.

(** *** Provider statistics and totals *)

Lemma foldM_tally_session p l acc acc' :
  foldM (tally_session Date_toISODate p) l acc = Some acc' ->
  ps_sessions (tally_stats acc') = ps_sessions (tally_stats acc)
  /\ ps_available (tally_stats acc') = ps_available (tally_stats acc)
  /\ ps_messages (tally_stats acc')
     = ps_messages (tally_stats acc) + sum_list (messages <$> l)
  /\ (ps_inputTokens (tally_stats acc')
      == ps_inputTokens (tally_stats acc) + sumQ (inputTokens <$> l))%Q
  /\ (ps_outputTokens (tally_stats acc')
      == ps_outputTokens (tally_stats acc) + sumQ (outputTokens <$> l))%Q
  /\ (ps_costUsd (tally_stats acc')
      == ps_costUsd (tally_stats acc) + sumQ (costUsd <$> l))%Q
  /\ foldM (fun m s => tally_model s m) l (tally_byModel acc)
     = Some (tally_byModel acc')
  /\ foldM (fun m s => tally_date Date_toISODate s m) l (tally_byDate acc)
     = Some (tally_byDate acc')
  /\ foldM (fun m s => tally_project p s m) l (tally_byProject acc)
     = Some (tally_byProject acc').
Proof.
  revert acc. induction l as [|s l IH]; intros acc.
  - intros [= <-]. unfold sumQ. simpl. split_and!; (done || lia || ring).
  - intros H. apply bind_Some in H as (a1 & Hs & H).
    apply IH in H as (H1 & H2 & H3 & H4 & H5 & H6 & H7 & H8 & H9).
    unfold tally_session in Hs.
    apply bind_Some in Hs as (bm & Hbm & Hs).
    apply bind_Some in Hs as (bd & Hbd & Hs).
    apply bind_Some in Hs as (bp & Hbp & [= <-]).
    cbn [tally_stats tally_byModel tally_byDate tally_byProject ps_sessions
         ps_available ps_messages ps_inputTokens ps_outputTokens ps_costUsd]
      in *.
    cbn [foldM]. rewrite Hbm, Hbd, Hbp. cbn [mbind option_bind].
    rewrite !fmap_cons, !sumQ_cons, H1, H2, H3, H4, H5, H6.
    split_and!; first [done | simpl; lia | ring].
Qed.

Lemma tally_provider_spec d usage p usage' :
  tally_provider fs Date_toISODate d usage p = Some usage' ->
  let l := Db.getSessions d p in
  (exists stats,
     providers usage' = (providers usage ++ [(p, stats)])%list
     /\ ps_sessions stats = length l
     /\ ps_available stats = existsSync fs (SESSION_DIRS p)
     /\ ps_messages stats = sum_list (messages <$> l)
     /\ (ps_inputTokens stats == sumQ (inputTokens <$> l))%Q
     /\ (ps_outputTokens stats == sumQ (outputTokens <$> l))%Q
     /\ (ps_costUsd stats == sumQ (costUsd <$> l))%Q)
  /\ t_sessions (totals usage') = t_sessions (totals usage) + length l
  /\ t_messages (totals usage')
     = t_messages (totals usage) + sum_list (messages <$> l)
  /\ (t_inputTokens (totals usage')
      == t_inputTokens (totals usage) + sumQ (inputTokens <$> l))%Q
  /\ (t_outputTokens (totals usage')
      == t_outputTokens (totals usage) + sumQ (outputTokens <$> l))%Q
  /\ (t_costUsd (totals usage')
      == t_costUsd (totals usage) + sumQ (costUsd <$> l))%Q
  /\ usage_recentSessions usage'
     = (usage_recentSessions usage ++ take 10 l)%list
  /\ foldM (fun m s => tally_model s m) l (byModel usage)
     = Some (byModel usage')
  /\ foldM (fun m s => tally_date Date_toISODate s m) l (byDate usage)
     = Some (byDate usage')
  /\ foldM (fun m s => tally_project p s m) l (byProject usage)
     = Some (byProject usage').
Proof.
  intros H l. unfold tally_provider in H.
  apply bind_Some in H as (acc & Hfold & [= <-]).
  apply foldM_tally_session in Hfold
    as (H1 & H2 & H3 & H4 & H5 & H6 & H7 & H8 & H9).
  cbn [tally_stats tally_byModel tally_byDate tally_byProject ps_sessions
       ps_available ps_messages ps_inputTokens ps_outputTokens ps_costUsd
       providers totals byModel byDate byProject usage_recentSessions
       t_sessions t_messages t_inputTokens t_outputTokens t_costUsd] in *.
  fold l in H3, H4, H5, H6, H7, H8, H9, H1.
  rewrite Qplus_0_l in H4, H5, H6.
  split_and!; try done.
  - exists (tally_stats acc). split_and!; done.
  - by rewrite H1.
  - by rewrite H3.
  - by rewrite H4.
  - by rewrite H5.
  - by rewrite H6.
Qed.

Lemma providers_partition (l : list SessionStats) :
  (p ← [claude; codex; gemini];
   filter (fun r => Provider_eqb (provider r) p = true) l) ≡ₚ l.
Proof.
  simpl. rewrite app_nil_r. induction l as [|x l IH]; [done|].
  rewrite !filter_cons. destruct (provider x); simpl.
  - by rewrite IH.
  - rewrite <- Permutation_middle. by rewrite IH.
  - rewrite app_assoc, <- Permutation_middle, <- app_assoc. by rewrite IH.
Qed.

Lemma visited_perm d : visited d ≡ₚ Db.sessions d.
Proof.
  rewrite <- (providers_partition (Db.sessions d)). unfold visited. simpl.
  unfold Db.getSessions. by rewrite !sort_by_perm.
Qed.

Lemma aggregate_stages d usage :
  aggregate fs Date_toISODate d = Some usage ->
  exists u0 u1 u2 u3,
    u0 = {| providers := [];
            totals := {| t_sessions := 0; t_messages := 0;
                         t_inputTokens := 0; t_outputTokens := 0;
                         t_totalTokens := 0; t_costUsd := 0 |};
            byModel := ∅; byDate := ∅; byProject := ∅;
            usage_recentSessions := [] |}
    /\ tally_provider fs Date_toISODate d u0 claude = Some u1
    /\ tally_provider fs Date_toISODate d u1 codex = Some u2
    /\ tally_provider fs Date_toISODate d u2 gemini = Some u3
    /\ providers usage = providers u3
    /\ t_sessions (totals usage) = t_sessions (totals u3)
    /\ t_messages (totals usage) = t_messages (totals u3)
    /\ t_inputTokens (totals usage) = t_inputTokens (totals u3)
    /\ t_outputTokens (totals usage) = t_outputTokens (totals u3)
    /\ t_costUsd (totals usage) = t_costUsd (totals u3)
    /\ t_totalTokens (totals usage)
       = (t_inputTokens (totals usage) + t_outputTokens (totals usage))%Q
    /\ byModel usage = byModel u3 /\ byDate usage = byDate u3
    /\ byProject usage = byProject u3
    /\ usage_recentSessions usage
       = take 20 (sort_by by_recent (usage_recentSessions u3)).
Proof.
  unfold aggregate. intros H. apply bind_Some in H as (u3 & H & [= <-]).
  cbn [foldM] in H.
  apply bind_Some in H as (u1 & H1 & H).
  apply bind_Some in H as (u2 & H2 & H).
  apply bind_Some in H as (u3' & H3 & [= <-]).
  eexists _, u1, u2, u3'. split_and!; try done.
Qed.

(** X24.  The totals of [getAllUsage] cover the whole store: the number
    of sessions is the number of session rows, messages, tokens and cost are
    the sums over all rows, [totalTokens] is input plus output, and the
    recent sessions are [recentSessions] of the store. *)
Theorem aggregate_totals (d : Db.Database) (usage : UsageData) :
  aggregate fs Date_toISODate d = Some usage ->
  t_sessions (totals usage) = Db.sessionCount d
  /\ t_messages (totals usage) = sum_list (messages <$> Db.sessions d)
  /\ (t_inputTokens (totals usage) == sumQ (inputTokens <$> Db.sessions d))%Q
  /\ (t_outputTokens (totals usage)
      == sumQ (outputTokens <$> Db.sessions d))%Q
  /\ (t_costUsd (totals usage) == sumQ (costUsd <$> Db.sessions d))%Q
  /\ t_totalTokens (totals usage)
     = (t_inputTokens (totals usage) + t_outputTokens (totals usage))%Q
  /\ usage_recentSessions usage = recentSessions d.
Proof.
  intros (u0 & u1 & u2 & u3 & -> & H1 & H2 & H3 & _ & E1 & E2 & E3 & E4 & E5
          & E6 & _ & _ & _ & E7)%aggregate_stages.
  apply tally_provider_spec in H1
    as (_ & A1 & A2 & A3 & A4 & A5 & A6 & _).
  apply tally_provider_spec in H2
    as (_ & B1 & B2 & B3 & B4 & B5 & B6 & _).
  apply tally_provider_spec in H3
    as (_ & C1 & C2 & C3 & C4 & C5 & C6 & _).
  cbn [totals t_sessions t_messages t_inputTokens t_outputTokens t_costUsd
       usage_recentSessions] in *.
  pose proof (visited_perm d) as Hperm. unfold visited in Hperm.
  simpl in Hperm. rewrite app_nil_r in Hperm.
  split_and!.
  - rewrite E1, C1, B1, A1. unfold Db.sessionCount.
    rewrite <- (Permutation_length Hperm), !length_app. lia.
  - rewrite E2, C2, B2, A2. rewrite <- Hperm, !fmap_app, !sum_list_with_app. lia.
  - rewrite E3, C3, B3, A3. rewrite <- (sumQ_perm _ _ (fmap_Permutation _ _ _ Hperm)).
    rewrite !fmap_app, !sumQ_app. ring.
  - rewrite E4, C4, B4, A4. rewrite <- (sumQ_perm _ _ (fmap_Permutation _ _ _ Hperm)).
    rewrite !fmap_app, !sumQ_app. ring.
  - rewrite E5, C5, B5, A5. rewrite <- (sumQ_perm _ _ (fmap_Permutation _ _ _ Hperm)).
    rewrite !fmap_app, !sumQ_app. ring.
  - done.
  - rewrite E7, C6, B6, A6. unfold recentSessions, recent_pool. simpl.
    by rewrite app_nil_r, <- app_assoc.
Qed.

End Aggregation.


Section Groups.
Context {rt : Runtime} (fs : FileSystem).
Variable Date_toISODate : string -> option string.

Lemma foldM_ext {A B : Type} (f g : B -> A -> option B) (l : list A) (acc : B) :
  (forall a x, x ∈ l -> f a x = g a x) -> foldM f l acc = foldM g l acc.
Proof.
  revert acc. induction l as [|x l IH]; intros acc H; [done|]. simpl.
  rewrite H by (by left). destruct (g acc x); [|done].
  apply IH. intros a y Hy. apply H. by right.
Qed.

(** The three maps are folds over the visited sessions. *)
Lemma aggregate_maps d usage :
  aggregate fs Date_toISODate d = Some usage ->
  foldM (fun m s => tally_model s m) (visited d) ∅ = Some (byModel usage)
  /\ foldM (fun m s => tally_date Date_toISODate s m) (visited d) ∅
     = Some (byDate usage)
  /\ foldM (fun m s => tally_project (provider s) s m) (visited d) ∅
     = Some (byProject usage).
Proof.
  intros (u0 & u1 & u2 & u3 & -> & H1 & H2 & H3 & _ & _ & _ & _ & _ & _ & _
          & -> & -> & -> & _)%aggregate_stages.
  apply tally_provider_spec in H1 as (_ & _ & _ & _ & _ & _ & _ & A1 & A2 & A3).
  apply tally_provider_spec in H2 as (_ & _ & _ & _ & _ & _ & _ & B1 & B2 & B3).
  apply tally_provider_spec in H3 as (_ & _ & _ & _ & _ & _ & _ & C1 & C2 & C3).
  cbn [byModel byDate byProject] in *.
  assert (forall p m, foldM (fun m s => tally_project (provider s) s m)
                        (Db.getSessions d p) m
                      = foldM (fun m s => tally_project p s m)
                          (Db.getSessions d p) m) as Hp.
  { intros p m. apply foldM_ext. intros a x [_ ->]%getSessions_elem. done. }
  assert (visited d = (Db.getSessions d claude ++ Db.getSessions d codex
                       ++ Db.getSessions d gemini)%list) as ->
    by (unfold visited; simpl; by rewrite app_nil_r).
  rewrite !foldM_app, !Hp.
  rewrite A1, A2, A3.
  repeat match goal with
         | |- context [Some ?x ≫= ?f] =>
             change (Some x ≫= f) with (f x); cbv beta
         end.
  rewrite !foldM_app, !Hp.
  rewrite B1, B2, B3.
  repeat match goal with
         | |- context [Some ?x ≫= ?f] =>
             change (Some x ≫= f) with (f x); cbv beta
         end.
  by rewrite !Hp.
Qed.

(** *** By model *)


Lemma foldl_model_add st l :
  ms_sessions (foldl model_add st l) = ms_sessions st + length l
  /\ (ms_inputTokens (foldl model_add st l)
      == ms_inputTokens st + sumQ (inputTokens <$> l))%Q
  /\ (ms_outputTokens (foldl model_add st l)
      == ms_outputTokens st + sumQ (outputTokens <$> l))%Q
  /\ (ms_costUsd (foldl model_add st l)
      == ms_costUsd st + sumQ (costUsd <$> l))%Q.
Proof.
  revert st. induction l as [|s l IH]; intros st.
  - unfold sumQ. simpl. split_and!; (lia || ring).
  - destruct (IH (model_add st s)) as (H1 & H2 & H3 & H4).
    cbn [foldl]. rewrite !fmap_cons, !sumQ_cons, H1, H2, H3, H4. simpl.
    split_and!; (lia || ring).
Qed.

(** X26.  [byModel] groups the sessions by [model || 'unknown']: a key is
    present exactly when a session has it, and its entry holds the number of
    those sessions and the sums of their tokens and costs. *)
Theorem byModel_groups (d : Db.Database) (usage : UsageData) (k : string) :
  aggregate fs Date_toISODate d = Some usage ->
  let group := filter (fun s => model_key s = k) (visited d) in
  match byModel usage !! k with
  | None => group = []
  | Some st =>
      group <> []
      /\ ms_sessions st = length group
      /\ (ms_inputTokens st == sumQ (inputTokens <$> group))%Q
      /\ (ms_outputTokens st == sumQ (outputTokens <$> group))%Q
      /\ (ms_costUsd st == sumQ (costUsd <$> group))%Q
  end.
Proof.
  intros (H & _ & _)%aggregate_maps group.
  eapply (keyed_tally (fun s m => tally_model s m)
            (fun s => Some (model_key s))
            (fun _ => {| ms_sessions := 0; ms_inputTokens := 0;
                         ms_outputTokens := 0; ms_costUsd := 0 |})
            model_add) in H.
  2: { intros s m m'. unfold tally_model.
       destruct (own_key _); [|done]. by intros [= <-]. }
  rewrite H, lookup_empty.
  rewrite (list_filter_iff _ (fun s => model_key s = k)) by (intros s; naive_solver).
  fold group. destruct group as [|s rest]; [done|]. split; [done|].
  destruct (foldl_model_add
              {| ms_sessions := 0; ms_inputTokens := 0; ms_outputTokens := 0;
                 ms_costUsd := 0 |} (s :: rest)) as (H1 & H2 & H3 & H4).
  cbn [default from_option id] in *. simpl in H1. rewrite Qplus_0_l in H2, H3, H4.
  split_and!; done.
Qed.


(** *** By date *)

Lemma foldl_date_add st l :
  ds_sessions (foldl date_add st l) = ds_sessions st + length l
  /\ (ds_inputTokens (foldl date_add st l)
      == ds_inputTokens st + sumQ (inputTokens <$> l))%Q
  /\ (ds_outputTokens (foldl date_add st l)
      == ds_outputTokens st + sumQ (outputTokens <$> l))%Q
  /\ (ds_costUsd (foldl date_add st l)
      == ds_costUsd st + sumQ (costUsd <$> l))%Q.
Proof.
  revert st. induction l as [|s l IH]; intros st.
  - unfold sumQ. simpl. split_and!; (lia || ring).
  - destruct (IH (date_add st s)) as (H1 & H2 & H3 & H4).
    cbn [foldl]. rewrite !fmap_cons, !sumQ_cons, H1, H2, H3, H4. simpl.
    split_and!; (lia || ring).
Qed.

(** X27.  [byDate] groups the sessions that have a [lastMessage] by its
    UTC day; a session without [lastMessage] is counted under no day. *)
Theorem byDate_groups (d : Db.Database) (usage : UsageData) (k : string) :
  aggregate fs Date_toISODate d = Some usage ->
  let group := filter (fun s => date_key Date_toISODate s = Some k)
                      (visited d) in
  match byDate usage !! k with
  | None => group = []
  | Some st =>
      group <> []
      /\ ds_sessions st = length group
      /\ (ds_inputTokens st == sumQ (inputTokens <$> group))%Q
      /\ (ds_outputTokens st == sumQ (outputTokens <$> group))%Q
      /\ (ds_costUsd st == sumQ (costUsd <$> group))%Q
  end.
Proof.
  intros (_ & H & _)%aggregate_maps group.
  eapply (keyed_tally (fun s m => tally_date Date_toISODate s m)
            (date_key Date_toISODate)
            (fun _ => {| ds_sessions := 0; ds_inputTokens := 0;
                         ds_outputTokens := 0; ds_costUsd := 0 |})
            date_add) in H.
  2: { intros s m m'. unfold tally_date, date_key.
       destruct (present _); [|by intros [= <-]].
       destruct (Date_toISODate _) as [date|]; [|done]. simpl.
       destruct (own_key _); [|done]. by intros [= <-]. }
  rewrite H, lookup_empty. fold group.
  destruct group as [|s rest]; [done|]. split; [done|].
  destruct (foldl_date_add
              {| ds_sessions := 0; ds_inputTokens := 0; ds_outputTokens := 0;
                 ds_costUsd := 0 |} (s :: rest)) as (H1 & H2 & H3 & H4).
  cbn [default from_option id] in *. simpl in H1. rewrite Qplus_0_l in H2, H3, H4.
  split_and!; done.
Qed.

(** *** By project *)

Lemma foldl_project_add st l :
  pj_sessions (foldl project_add st l) = pj_sessions st + length l
  /\ pj_messages (foldl project_add st l)
     = pj_messages st + sum_list (messages <$> l)
  /\ (pj_inputTokens (foldl project_add st l)
      == pj_inputTokens st + sumQ (inputTokens <$> l))%Q
  /\ (pj_outputTokens (foldl project_add st l)
      == pj_outputTokens st + sumQ (outputTokens <$> l))%Q
  /\ (pj_costUsd (foldl project_add st l)
      == pj_costUsd st + sumQ (costUsd <$> l))%Q
  /\ pj_provider (foldl project_add st l) = pj_provider st
  /\ present (pj_lastActivity (foldl project_add st l))
     = present (pj_lastActivity st)
       || existsb (fun s => present (lastMessage s)) l.
Proof.
  revert st. induction l as [|s l IH]; intros st.
  - unfold sumQ. simpl. rewrite orb_false_r. split_and!; (done || lia || ring).
  - destruct (IH (project_add st s)) as (H1 & H2 & H3 & H4 & H5 & H6 & H7).
    cbn [foldl]. rewrite !fmap_cons, !sumQ_cons, H1, H2, H3, H4, H5, H6, H7.
    simpl. split_and!; try (done || lia || ring).
    destruct (present (lastMessage s)) eqn:Hs,
      (present (pj_lastActivity st)) eqn:Hc; simpl;
      try destruct (later _ _); rewrite ?Hs, ?Hc; done.
Qed.

(** X28.  [byProject] groups the sessions by
    [project || `${provider}-sessions`]: an entry holds the number of those
    sessions and the sums of their messages, tokens and costs, the provider
    of the first of them, and a [lastActivity] exactly when one of them has a
    [lastMessage]. *)
Theorem byProject_groups (d : Db.Database) (usage : UsageData) (k : string) :
  aggregate fs Date_toISODate d = Some usage ->
  let group := filter (fun s => project_key (provider s) s = k) (visited d) in
  match byProject usage !! k with
  | None => group = []
  | Some st =>
      pj_sessions st = length group
      /\ pj_messages st = sum_list (messages <$> group)
      /\ (pj_inputTokens st == sumQ (inputTokens <$> group))%Q
      /\ (pj_outputTokens st == sumQ (outputTokens <$> group))%Q
      /\ (pj_costUsd st == sumQ (costUsd <$> group))%Q
      /\ Some (pj_provider st) = provider <$> head group
      /\ present (pj_lastActivity st)
         = existsb (fun s => present (lastMessage s)) group
  end.
Proof.
  intros (_ & _ & H)%aggregate_maps group.
  eapply (keyed_tally (fun s m => tally_project (provider s) s m)
            (fun s => Some (project_key (provider s) s))
            (fun s => {| pj_sessions := 0; pj_messages := 0;
                         pj_inputTokens := 0; pj_outputTokens := 0;
                         pj_costUsd := 0; pj_provider := provider s;
                         pj_lastActivity := None |})
            project_add) in H.
  2: { intros s m m'. unfold tally_project.
       destruct (own_key _); [|done]. by intros [= <-]. }
  rewrite H, lookup_empty.
  rewrite (list_filter_iff _ (fun s => project_key (provider s) s = k))
    by (intros s; naive_solver).
  fold group. destruct group as [|s rest]; [done|].
  destruct (foldl_project_add
              {| pj_sessions := 0; pj_messages := 0; pj_inputTokens := 0;
                 pj_outputTokens := 0; pj_costUsd := 0;
                 pj_provider := provider s; pj_lastActivity := None |}
              (s :: rest)) as (H1 & H2 & H3 & H4 & H5 & H6 & H7).
  cbn [default from_option id] in *.
  set (st := foldl project_add _ (s :: rest)) in *. clearbody st.
  cbn [pj_sessions pj_messages pj_inputTokens pj_outputTokens pj_costUsd
       pj_provider pj_lastActivity] in *.
  rewrite Qplus_0_l in H3, H4, H5.
  split_and!; [done | done | done | done | done | by rewrite H6 | done].
Qed.

(** *** By provider *)

(** X25.  [providers] has the three providers in order, each with the
    number of its sessions in the store, the sums of their messages, tokens
    and costs, and whether its folder exists. *)
Theorem providers_stats (d : Db.Database) (usage : UsageData) :
  aggregate fs Date_toISODate d = Some usage ->
  (providers usage).*1 = [claude; codex; gemini]
  /\ forall p stats,
       (p, stats) ∈ providers usage ->
       ps_sessions stats = length (Db.getSessions d p)
       /\ ps_available stats = existsSync fs (SESSION_DIRS p)
       /\ ps_messages stats = sum_list (messages <$> Db.getSessions d p)
       /\ (ps_inputTokens stats
           == sumQ (inputTokens <$> Db.getSessions d p))%Q
       /\ (ps_outputTokens stats
           == sumQ (outputTokens <$> Db.getSessions d p))%Q
       /\ (ps_costUsd stats == sumQ (costUsd <$> Db.getSessions d p))%Q.
Proof.
  intros (u0 & u1 & u2 & u3 & -> & H1 & H2 & H3 & -> & _)%aggregate_stages.
  apply tally_provider_spec in H1 as ((s1 & A & A') & _).
  apply tally_provider_spec in H2 as ((s2 & B & B') & _).
  apply tally_provider_spec in H3 as ((s3 & C & C') & _).
  rewrite C, B, A. simpl. split; [done|]. intros p stats.
  rewrite !elem_of_cons, elem_of_nil.
  intros [[= -> ->]|[[= -> ->]|[[= -> ->]|[]]]]; done.
Qed.

End Groups.

(** *** Refreshing *)

Section Refresh.
Context {rt : Runtime} (fs : FileSystem).
Variable Date_toISODate : string -> option string.

(** X29.  What the handler of [refresh-data] returns agrees with the store
    it leaves: on a well-formed store, the cache is empty afterwards, the
    store is well formed, [totals.sessions] is the number of session rows,
    which is also the number of file rows ([getStats] reports both), and the
    recent sessions are those of that store. *)
Theorem refreshData_reports_store (clock : string -> Z) (now : Z)
    (sp sp' : SessionParser) (usage : UsageData) :
  sound (db sp) ->
  refreshData fs Date_toISODate clock now sp = Some (usage, sp') ->
  cache sp' = ∅ /\ lastSyncTime sp' = now
  /\ sound (db sp')
  /\ t_sessions (totals usage) = Db.sessionCount (db sp')
  /\ Db.sessionCount (db sp') = Db.fileCount (db sp')
  /\ usage_recentSessions usage = recentSessions (db sp').
Proof.
  intros Hsound H. unfold refreshData, getAllUsage in H.
  apply bind_Some in H as ([[[c1 c2] c3] sp1] & Hsync & H).
  apply bind_Some in H as (usage' & Husage & [= <- <-]).
  apply syncAll_fields in Hsync as (Hcache & Htime & d1 & d2 & H1 & H2 & H3).
  simpl in Hcache, H1.
  assert (sound (db sp1)) as Hsound'.
  { apply (syncProvider_keeps_sound fs _ _ _ _ _ Hsound) in H1.
    apply (syncProvider_keeps_sound fs _ _ _ _ _ H1) in H2.
    by apply (syncProvider_keeps_sound fs _ _ _ _ _ H2) in H3. }
  split_and!; [done | done | done | | by apply sound_counts |].
  - apply aggregate_stages in Husage
      as (u0 & u1 & u2 & u3 & -> & A & B & C & _ & E & _).
    apply tally_provider_spec in A as (_ & A & _).
    apply tally_provider_spec in B as (_ & B & _).
    apply tally_provider_spec in C as (_ & C & _).
    cbn [totals t_sessions] in *.
    pose proof (visited_perm (db sp1)) as Hperm. unfold visited in Hperm.
    simpl in Hperm. rewrite app_nil_r in Hperm.
    rewrite E, C, B, A. unfold Db.sessionCount.
    rewrite <- (Permutation_length Hperm), !length_app. lia.
  - apply aggregate_stages in Husage
      as (u0 & u1 & u2 & u3 & -> & A & B & C & E).
    destruct E as (_ & _ & _ & _ & _ & _ & _ & _ & _ & _ & E).
    apply tally_provider_spec in A as (_ & _ & _ & _ & _ & _ & A & _).
    apply tally_provider_spec in B as (_ & _ & _ & _ & _ & _ & B & _).
    apply tally_provider_spec in C as (_ & _ & _ & _ & _ & _ & C & _).
    cbn [usage_recentSessions] in *.
    rewrite E, C, B, A. unfold recentSessions, recent_pool. simpl.
    by rewrite app_nil_r, <- app_assoc.
Qed.

End Refresh.

(** * The recent sessions of [getAllUsage] *)

Section Recent.
Context {rt : Runtime} (fs : FileSystem).
Variable Date_toISODate : string -> option string.





End Recent.


(** * The further properties on the files of the examples *)

(** ** Pricing and project names *)

(** A key of the table is priced by its own row, although [gpt-4o] is a
    substring of it. *)
Lemma getModelPricing_exact_key_example :
  getModelPricing (Some "gpt-4o-mini") = Some {| input := 0.15; output := 0.6 |}.
Proof.
  apply getModelPricing_exact_key. unfold PRICING.
  rewrite !elem_of_cons. do 7 right. by left.
Defined.

(** A dated mini model is charged at the prices of [gpt-4o]. *)
Lemma dated_mini_priced_as_gpt_4o_example :
  getModelPricing (Some "gpt-4o-mini-2024-07-18")
  = Some {| input := 2.5; output := 10.0 |}.
Proof.
  apply dated_mini_priced_as_gpt_4o; [run | discriminate | run].
Defined.

(** The cost of a session with tokens is positive. *)
Lemma calculateCost_nonnegative_example :
  exists cost,
    calculateCost 35 18 (Some "claude-sonnet-4-20250514"%string) = Some cost
    /\ (0 <= cost)%Q /\ ~ (cost == 0)%Q.
Proof.
  destruct (calculateCost 35 18 (Some "claude-sonnet-4-20250514"%string))
    as [cost|] eqn:H; [|vm_compute in H; discriminate].
  exists cost. split; [reflexivity|].
  destruct (calculateCost_nonnegative _ _ _ _ H) as [Hpos Hzero];
    [discriminate | discriminate |].
  split; [exact Hpos|]. intros [H0 _]%Hzero. discriminate H0.
Defined.

(** The project of a working directory is its last two folders. *)
Lemma extractProjectFromPath_last_two_example :
  extractProjectFromPath "/home/u/work/app" = "work/app".
Proof.
  assert ("work" <> "") as Ha by discriminate.
  assert ("app" <> "") as Hb by discriminate.
  assert (includes "work" (String path_sep "") = false) as Hsa by run.
  assert (includes "app" (String path_sep "") = false) as Hsb by run.
  exact (extractProjectFromPath_last_two "/home/u" "work" "app" Ha Hb Hsa Hsb).
Defined.

(** The project of a Claude file is read off its encoded folder. *)
Lemma extractClaudeProjectName_last_two_example :
  extractClaudeProjectName
    "/home/u/.claude/projects/-home-u-my-app/s1.jsonl" (dirs claude)
  = "my/app".
Proof.
  apply (extractClaudeProjectName_last_two _ _ "-home-u" "my" "app"
           ["s1.jsonl"]);
    first [discriminate | vm_compute; reflexivity].
Defined.

(** ** Counters of the parsers *)

(** The counters of the Claude file. *)
Lemma parser_counts_example :
  exists r, parseSession files claude claude_file = Some r
            /\ path r = claude_file
            /\ userMessages r + assistantMessages r <= messages r
            /\ default 0 (toolUses r) <= messages r.
Proof.
  destruct (parseSession files claude claude_file) as [r|] eqn:Hr;
    [|vm_compute in Hr; discriminate].
  exists r. split; [reflexivity|].
  destruct (parser_counts files claude claude_file r Hr) as (H1 & _ & H2 & H3).
  auto.
Defined.

(** The Codex file has six documents. *)
Lemma messages_count_documents_example :
  exists r, parseCodexSession files codex_file = Some r /\ messages r = 6.
Proof.
  destruct (parseCodexSession files codex_file) as [r|] eqn:Hr;
    [|vm_compute in Hr; discriminate].
  exists r. split; [reflexivity|].
  destruct (messages_count_documents files) as (_ & Hcodex & _).
  assert (endsWith codex_file ".jsonl" = true) as Hext by run.
  assert (readFileSync files codex_file = Some codex_log) as Hread by run.
  rewrite (Hcodex codex_file codex_log r Hext Hread Hr). run.
Defined.

(** The Gemini file: 7 prompt tokens and 3 candidate tokens. *)
Lemma gemini_tokens_additive_example :
  exists r, parseGeminiSession files gemini_file = Some r
            /\ (inputTokens r == 7)%Q /\ (outputTokens r == 3)%Q
            /\ model r = Some "gemini-2.0-flash".
Proof.
  destruct (parseGeminiSession files gemini_file) as [r|] eqn:Hr;
    [|vm_compute in Hr; discriminate].
  exists r. split; [reflexivity|].
  assert (readFileSync files gemini_file = Some gemini_log) as Hread by run.
  destruct (gemini_tokens_additive files gemini_file gemini_log r Hread Hr)
    as (Hi & Ho & Hm).
  assert (sumQ (gemini_tokens "promptTokenCount" <$> events_of gemini_log)
          = 7%Q) as Ei by run.
  assert (sumQ (gemini_tokens "candidatesTokenCount" <$> events_of gemini_log)
          = 3%Q) as Eo by run.
  rewrite Ei in Hi. rewrite Eo in Ho. split_and!; [exact Hi | exact Ho |].
  rewrite Hm. run.
Defined.

(** The cost of the Codex record is the price of its totals. *)
Lemma cost_is_priced_example :
  exists r, parseSession files codex codex_file = Some r
            /\ calculateCost (inputTokens r) (outputTokens r) (model r)
               = Some (costUsd r)
            /\ model r = Some "gpt-4o".
Proof.
  destruct (parseSession files codex codex_file) as [r|] eqn:Hr;
    [|vm_compute in Hr; discriminate].
  exists r. split; [reflexivity|].
  assert (codex <> claude) as Hp by discriminate.
  pose proof (cost_is_priced files codex codex_file r Hp Hr) as H.
  assert (Qgtb (inputTokens r) 0 || Qgtb (outputTokens r) 0 = true) as Hpos.
  { vm_compute in Hr. injection Hr as <-. reflexivity. }
  rewrite Hpos in H. split; [exact H|].
  vm_compute in Hr. injection Hr as <-. reflexivity.
Defined.

(** The Claude file lasts from its first to its last time stamp. *)
Lemma claude_duration_in_file_order :
  exists r, parseClaudeSession files claude_file = Some r
            /\ firstMessage r = Some "2024-01-01T00:00:00Z"
            /\ lastMessage r = Some "2024-01-01T00:01:00Z"
            /\ duration r = 60000%Z.
Proof.
  destruct (parseClaudeSession files claude_file) as [r|] eqn:Hr;
    [|vm_compute in Hr; discriminate].
  exists r. split; [reflexivity|].
  assert (readLines files claude_file = Some claude_lines) as Hread by run.
  assert (head (omap timestamp_of claude_lines)
          = Some "2024-01-01T00:00:00Z") as Hfirst by run.
  assert (last (omap timestamp_of claude_lines)
          = Some "2024-01-01T00:01:00Z") as Hlast by run.
  destruct (claude_duration files claude_file claude_lines r _ _
              Hread Hr Hfirst Hlast)
    as (Hf & Hl & start & finish & Hs & He & Hd).
  split_and!; [exact Hf | exact Hl |].
  assert (Date_getTime "2024-01-01T00:00:00Z" = Some 1704067200000%Z) as E1
    by run.
  assert (Date_getTime "2024-01-01T00:01:00Z" = Some 1704067260000%Z) as E2
    by run.
  rewrite E1 in Hs. rewrite E2 in He.
  injection Hs as <-. injection He as <-. exact Hd.
Defined.

(** ** The store across a pass *)

(** The store of the examples is well formed. *)
Lemma store_sound : sound store.
Proof.
  split.
  - evaluate (path <$> Db.sessions store).
    repeat (constructor;
            [rewrite ?elem_of_cons, elem_of_nil; intros Hin;
             intuition discriminate|]).
    constructor.
  - evaluate (Db.file_path <$> Db.files store).
    repeat (constructor;
            [rewrite ?elem_of_cons, elem_of_nil; intros Hin;
             intuition discriminate|]).
    constructor.
  - intros f. evaluate (path <$> Db.sessions store).
    evaluate (Db.file_path <$> Db.files store). done.
  - evaluate (Db.sessions store).
    repeat (constructor; [simpl; lia|]). constructor.
Qed.

(** A first pass over the Codex folder leaves a row per stored file. *)
Lemma syncProvider_sound_example :
  exists counts d1,
    syncProvider archive clock codex empty_store = Some (counts, d1)
    /\ sound d1 /\ Db.sessionCount d1 = Db.fileCount d1.
Proof.
  destruct (syncProvider archive clock codex empty_store) as [[counts d1]|]
    eqn:H; [|vm_compute in H; discriminate].
  exists counts, d1. split; [reflexivity|].
  apply (syncProvider_sound archive clock codex empty_store d1 counts);
    [|exact H].
  split; simpl; [apply NoDup_nil_2 | apply NoDup_nil_2 | done | constructor].
Defined.

(** A new file is counted as added and is up to date afterwards. *)
Lemma changed_file_stored_example :
  exists st',
    syncFile files clock codex
      {| loop_db := empty_store; loop_added := 0; loop_updated := 0 |}
      codex_file = Some st'
    /\ loop_added st' = 1 /\ loop_updated st' = 0
    /\ Db.needsUpdate (loop_db st') codex_file 1704067205000 750 = false.
Proof.
  destruct (parseSession files codex codex_file) as [session|] eqn:Hparse;
    [|vm_compute in Hparse; discriminate].
  assert (statSync files codex_file = Some (1704067205000%Z, 750%Z)) as Hstat
    by run.
  assert (0 < messages session) as Hm.
  { vm_compute in Hparse. injection Hparse as <-. simpl. lia. }
  destruct (changed_file_stored files clock codex
              {| loop_db := empty_store; loop_added := 0; loop_updated := 0 |}
              codex_file _ _ session Hstat eq_refl Hparse Hm)
    as (st' & Hsync & _ & Hcurrent & Hsum & Hnew).
  exists st'. split; [exact Hsync|].
  assert (loop_added st' = 1) as Ha by (by apply Hnew).
  simpl in Hsum. split_and!; [exact Ha | lia | exact Hcurrent].
Defined.

(** The pass over the Codex folder leaves the row of the Claude file as it
    is. *)
Lemma syncProvider_frame_example :
  exists counts d1,
    syncProvider archive clock codex store = Some (counts, d1)
    /\ added counts = 1
    /\ forall s, path s = claude_file ->
                 (s ∈ Db.sessions d1 <-> s ∈ Db.sessions store).
Proof.
  destruct (syncProvider archive clock codex store) as [[counts d1]|] eqn:H;
    [|vm_compute in H; discriminate].
  exists counts, d1. split; [reflexivity|]. split.
  - vm_compute in H. injection H as <- _. reflexivity.
  - apply (syncProvider_frame archive clock codex store d1 counts claude_file H).
    + evaluate (sessionFiles archive (SESSION_DIRS codex)).
      rewrite !elem_of_cons, elem_of_nil. intros Hin. intuition discriminate.
    + evaluate (Db.getTrackedFiles store codex).
      rewrite !elem_of_cons, elem_of_nil. intros Hin. intuition discriminate.
Defined.

(** One file more on disk: one row more in the store. *)
Lemma syncProvider_accounting_example :
  exists counts d1,
    syncProvider archive clock codex store = Some (counts, d1)
    /\ Db.fileCount store = 3 /\ added counts = 1 /\ deleted counts = 0
    /\ Db.fileCount d1 = 4.
Proof.
  destruct (syncProvider archive clock codex store) as [[counts d1]|] eqn:H;
    [|vm_compute in H; discriminate].
  exists counts, d1. split; [reflexivity|].
  pose proof store_sound as Hsound.
  destruct (syncProvider_accounting archive clock codex store d1 counts
              Hsound H) as (Hfiles & _ & _).
  assert (added counts = 1 /\ deleted counts = 0) as [Ha Hd].
  { vm_compute in H. injection H as <- _. split; reflexivity. }
  assert (Db.fileCount store = 3) as Hn by reflexivity.
  split_and!; [exact Hn | exact Ha | exact Hd | ].
  lia.
Defined.

(** Within the window the empty snapshot is served, although the store now
    holds the Codex session. *)
Lemma snapshot_outlives_syncAll_example :
  exists c1 c2 c3 sp',
    syncAll files clock 10000 early_parser = Some (c1, c2, c3, sp')
    /\ path <$> Db.getSessions (db sp') codex = [codex_file]
    /\ getSessions files clock 12000 sp' codex = Some ([], sp').
Proof.
  destruct (syncAll files clock 10000 early_parser) as [[[[c1 c2] c3] sp']|]
    eqn:H; [|vm_compute in H; discriminate].
  exists c1, c2, c3, sp'. split; [reflexivity|]. split.
  - vm_compute in H. injection H as _ _ _ <-. reflexivity.
  - apply (snapshot_outlives_syncAll files clock clock 10000 12000
             early_parser sp' c1 c2 c3 codex [] H);
      [run | unfold syncInterval; lia].
Defined.

(** Rebuilding from the files of the examples. *)
Lemma forceRebuild_fresh_example :
  exists sp',
    forceRebuild files clock 10000 cold_parser = Some sp'
    /\ cache sp' = ∅ /\ lastSyncTime sp' = 10000%Z /\ sound (db sp').
Proof.
  destruct (forceRebuild files clock 10000 cold_parser) as [sp'|] eqn:H;
    [|vm_compute in H; discriminate].
  exists sp'. split; [reflexivity|].
  destruct (forceRebuild_fresh files clock 10000 cold_parser sp' H)
    as (Hc & Ht & Hs & _).
  auto.
Defined.

(** ** Aggregation *)

(** The totals of the three stored sessions. *)
Lemma aggregate_totals_example :
  exists usage,
    aggregate files iso_date store = Some usage
    /\ t_sessions (totals usage) = 3 /\ t_messages (totals usage) = 11
    /\ (t_inputTokens (totals usage) == 442)%Q
    /\ usage_recentSessions usage = recentSessions store.
Proof.
  destruct (aggregate files iso_date store) as [usage|] eqn:H;
    [|vm_compute in H; discriminate].
  exists usage. split; [reflexivity|].
  destruct (aggregate_totals files iso_date store usage H)
    as (Hs & Hm & Hi & _ & _ & _ & Hr).
  assert (sum_list (messages <$> Db.sessions store) = 11) as Em by run.
  assert (sumQ (inputTokens <$> Db.sessions store) = 442%Q) as Ei by run.
  rewrite Em in Hm. rewrite Ei in Hi.
  split_and!; [exact Hs | exact Hm | exact Hi | exact Hr].
Defined.

(** The providers are reported in the order of the loop. *)
Lemma providers_stats_example :
  exists usage,
    aggregate files iso_date store = Some usage
    /\ (providers usage).*1 = [claude; codex; gemini]
    /\ forall stats, (codex, stats) ∈ providers usage ->
                     ps_sessions stats = 1 /\ ps_messages stats = 6.
Proof.
  destruct (aggregate files iso_date store) as [usage|] eqn:H;
    [|vm_compute in H; discriminate].
  exists usage. split; [reflexivity|].
  destruct (providers_stats files iso_date store usage H) as [Horder Hstats].
  split; [exact Horder|]. intros stats Hin.
  destruct (Hstats codex stats Hin) as (Hs & _ & Hm & _).
  assert (length (Db.getSessions store codex) = 1) as E1 by run.
  assert (sum_list (messages <$> Db.getSessions store codex) = 6) as E2 by run.
  rewrite E1 in Hs. rewrite E2 in Hm. split; assumption.
Defined.

(** The entry of [gpt-4o] is the Codex session. *)
Lemma byModel_groups_example :
  exists usage st,
    aggregate files iso_date store = Some usage
    /\ byModel usage !! "gpt-4o" = Some st
    /\ ms_sessions st = 1 /\ (ms_inputTokens st == 400)%Q.
Proof.
  destruct (aggregate files iso_date store) as [usage|] eqn:H;
    [|vm_compute in H; discriminate].
  pose proof (byModel_groups files iso_date store usage "gpt-4o" H) as G.
  cbv zeta in G.
  assert (filter (fun s => model_key s = "gpt-4o") (visited store)
          = Db.getSessions store codex) as E by run.
  rewrite E in G.
  destruct (byModel usage !! "gpt-4o") as [st|] eqn:Hst;
    [|vm_compute in G; discriminate].
  exists usage, st. split; [reflexivity|]. split; [exact Hst|].
  destruct G as (_ & Hn & Hi & _).
  assert (sumQ (inputTokens <$> Db.getSessions store codex) = 400%Q) as Ei
    by run.
  rewrite Ei in Hi. split; [exact Hn | exact Hi].
Defined.

(** Two sessions ended on the first of January; the Gemini session has no
    date. *)
Lemma byDate_groups_example :
  exists usage st,
    aggregate files iso_date store = Some usage
    /\ byDate usage !! "2024-01-01" = Some st /\ ds_sessions st = 2.
Proof.
  destruct (aggregate files iso_date store) as [usage|] eqn:H;
    [|vm_compute in H; discriminate].
  pose proof (byDate_groups files iso_date store usage "2024-01-01" H) as G.
  cbv zeta in G.
  assert (filter (fun s => date_key iso_date s = Some "2024-01-01")
                 (visited store)
          = (Db.getSessions store claude ++ Db.getSessions store codex)%list)
    as E by run.
  rewrite E in G.
  destruct (byDate usage !! "2024-01-01") as [st|] eqn:Hst;
    [|vm_compute in G; discriminate].
  exists usage, st. split; [reflexivity|]. split; [exact Hst|].
  destruct G as (_ & Hn & _). exact Hn.
Defined.

(** The Claude and the Codex session share a project name, and the entry
    keeps the provider that was seen first. *)
Lemma byProject_groups_example :
  exists usage st,
    aggregate files iso_date store = Some usage
    /\ byProject usage !! "work/app" = Some st
    /\ pj_sessions st = 2 /\ pj_provider st = claude.
Proof.
  destruct (aggregate files iso_date store) as [usage|] eqn:H;
    [|vm_compute in H; discriminate].
  pose proof (byProject_groups files iso_date store usage "work/app" H) as G.
  cbv zeta in G.
  assert (filter (fun s => project_key (provider s) s = "work/app")
                 (visited store)
          = (Db.getSessions store claude ++ Db.getSessions store codex)%list)
    as E by run.
  rewrite E in G.
  destruct (byProject usage !! "work/app") as [st|] eqn:Hst;
    [|vm_compute in G; discriminate].
  exists usage, st. split; [reflexivity|]. split; [exact Hst|].
  destruct G as (Hn & _ & _ & _ & _ & Hp & _).
  split; [exact Hn|]. vm_compute in Hp. injection Hp as Hp. exact Hp.
Defined.

(** Refreshing on the files of the examples, with the array file added. *)
Lemma refreshData_reports_store_example :
  exists usage sp',
    refreshData archive iso_date clock 10000 cold_parser = Some (usage, sp')
    /\ cache sp' = ∅ /\ t_sessions (totals usage) = 4
    /\ Db.fileCount (db sp') = 4.
Proof.
  destruct (refreshData archive iso_date clock 10000 cold_parser)
    as [[usage sp']|] eqn:H; [|vm_compute in H; discriminate].
  exists usage, sp'. split; [reflexivity|].
  destruct (refreshData_reports_store archive iso_date clock 10000
              cold_parser sp' usage store_sound H)
    as (Hc & _ & _ & Hs & Hf & _).
  assert (Db.sessionCount (db sp') = 4) as Hn.
  { vm_compute in H. injection H as _ <-. reflexivity. }
  split_and!; [exact Hc | congruence | congruence].
Defined.
